(** * Bank accounts, range sums and string trimming

    A shallow embedding of [Account.py], [Task1.py] and [Task2.py], and
    what holds of them.

    Balances and credit limits are Python [float]s, that is IEEE 754
    binary64 numbers: they are Rocq's primitive floats, whose operations
    round as CPython's do, [nan] and the infinities included.  What is
    proved of them for all floats goes through the specification of the
    primitive operations over [SpecFloat].  Python [int]s are unbounded and
    are modelled by [Z]; a [str] is modelled by [string], of which only the
    order and the number of the characters matter here.

    An amount, an initial balance and a credit limit are given by the caller
    as an [int] or as a [float]: a [number].  The code compares an [int]
    with a [float] by their exact values, and converts it to the nearest
    [float] before it adds or subtracts it, which raises [OverflowError] when
    the [int] is beyond the binary64 range.  Arguments of other types are
    not modelled.  A method call leaves the object and may raise; a
    constructor either returns the object or raises.

    An operation record is the Python [dict] the code builds: an association
    list in insertion order.  [datetime.now()] reads the clock; the value it
    returns is an argument [now] of every method that records an operation.
    Where it matters that records are objects, for the copies that
    [get_history] makes, the dicts live in a heap and a history is a list of
    addresses.  Sizes are those of a 64-bit CPython.  Of the memory, what
    is modelled is the one allocation whose size the caller of
    [trim_and_repeat] chooses, that of the repeated string: the size that
    the allocator grants is an argument [memory], as the clock is.

    The file has the definitions first: the two classes, the two functions,
    and the predicates the statements use.  Then come the facts about
    binary64 arithmetic, the accounts, [sum_distance] and
    [trim_and_repeat]. *)

From Stdlib Require Import ZArith List String Ascii Bool Lia Floats Permutation.
Import ListNotations.

(** ** Python values *)

(** The exceptions the code raises. *)
Inductive exception : Type :=
| ValueError (msg : string)
| OverflowError (msg : string)
| MemoryError.

(** What a call that may raise produces. *)
Inductive outcome (A : Type) : Type :=
| Returns (a : A)
| Raises (e : exception).

Arguments Returns {A} a.
Arguments Raises {A} e.

(** What a method call leaves: the object as the call left it, and the
    exception when the call raised. *)
Inductive result (A : Type) : Type :=
| Done (self : A)
| Raised (self : A) (e : exception).

Arguments Done {A} self.
Arguments Raised {A} self e.

(** The object after the call. *)
Definition state {A : Type} (r : result A) : A :=
  match r with
  | Done self | Raised self _ => self
  end.

(** The value of [datetime.now()]. *)
Definition datetime : Type := Z.

(** A number as the caller gives it: an [int] or a [float]. *)
Inductive number : Type :=
| PyInt (z : Z)
| PyFloat (x : float).

(** The values stored under the keys of an operation record. *)
Inductive value : Type :=
| VStr (s : string)
| VInt (z : Z)
| VFloat (x : float)
| VBool (b : bool)
| VTime (t : datetime).

(** A number as a value, and back. *)
Definition value_of (n : number) : value :=
  match n with
  | PyInt z => VInt z
  | PyFloat x => VFloat x
  end.

Definition number_of (v : value) : option number :=
  match v with
  | VInt z => Some (PyInt z)
  | VFloat x => Some (PyFloat x)
  | _ => None
  end.

(** A [dict] with string keys, in insertion order. *)
Definition dict : Type := list (string * value).

(** [d[k] = v]: an existing key keeps its place, a new key goes last. *)
Fixpoint dict_set (k : string) (v : value) (d : dict) : dict :=
  match d with
  | [] => [(k, v)]
  | (k', v') :: d' =>
      if String.eqb k' k then (k', v) :: d' else (k', v') :: dict_set k v d'
  end.

(** [d.update(extra)]. *)
Definition dict_update (d extra : dict) : dict :=
  fold_left (fun acc kv => dict_set (fst kv) (snd kv) acc) extra d.

(** [d.get(k)]. *)
Fixpoint dict_get (k : string) (d : dict) : option value :=
  match d with
  | [] => None
  | (k', v) :: d' => if String.eqb k' k then Some v else dict_get k d'
  end.

(** ** Python arithmetic on numbers *)

(** Python's [x > y] on floats. *)
Definition gtb (x y : float) : bool := (y <? x)%float.

(** Python's [x >= y] on floats. *)
Definition geb (x y : float) : bool := (y <=? x)%float.

(** The value of the float of mantissa [m] and exponent [e], in units of
    [2 ^ emin]: an integer, since no exponent is below [emin]. *)
Definition scaled (m : positive) (e : Z) : Z := (Zpos m * 2 ^ (e - emin))%Z.

(** An [int] compared with a [float]: Python compares the exact values,
    without converting either; with [nan] no comparison holds. *)
Definition compare_int_float (z : Z) (x : float) : option comparison :=
  match Prim2SF x with
  | S754_nan => None
  | S754_infinity s => Some (if s then Gt else Lt)
  | S754_zero _ => Some (z ?= 0)%Z
  | S754_finite s m e =>
      Some (z * 2 ^ (- emin) ?= cond_Zopp s (scaled m e))%Z
  end.

(** [float(z)] for an [int]: the nearest binary64 number, ties to even.
    [None] stands for the OverflowError that CPython raises when that
    rounding overflows ("int too large to convert to float"). *)
Definition float_of_int (z : Z) : option float :=
  match binary_normalize prec emax z 0 false with
  | S754_infinity _ => None
  | x => Some (SF2Prim x)
  end.

(** [float(n)]: a [float] is returned as it is. *)
Definition to_float (n : number) : option float :=
  match n with
  | PyInt z => float_of_int z
  | PyFloat x => Some x
  end.

(** [n <= 0] and [n < 0]. *)
Definition le_zero (n : number) : bool :=
  match n with
  | PyInt z => (z <=? 0)%Z
  | PyFloat x => (x <=? 0)%float
  end.

Definition lt_zero (n : number) : bool :=
  match n with
  | PyInt z => (z <? 0)%Z
  | PyFloat x => (x <? 0)%float
  end.

(** [n > y] and [n < y] for a float [y]. *)
Definition gt_float (n : number) (y : float) : bool :=
  match n with
  | PyInt z =>
      match compare_int_float z y with
      | Some Gt => true
      | _ => false
      end
  | PyFloat x => gtb x y
  end.

Definition lt_float (n : number) (y : float) : bool :=
  match n with
  | PyInt z =>
      match compare_int_float z y with
      | Some Lt => true
      | _ => false
      end
  | PyFloat x => (x <? y)%float
  end.

(** [x + n] and [x - n] for a float [x]: an [int] is converted first, which
    may raise. *)
Definition add_float (x : float) (n : number) : option float :=
  match to_float n with
  | Some y => Some (x + y)%float
  | None => None
  end.

Definition sub_float (x : float) (n : number) : option float :=
  match to_float n with
  | Some y => Some (x - y)%float
  | None => None
  end.

(** The exception of a conversion that overflows. *)
Definition overflow : exception :=
  OverflowError "int too large to convert to float".

(** A finite number: any [int], and a [float] that is neither [nan] nor an
    infinity.  A number that is [nan]: a [float] only. *)
Definition number_finite (n : number) : bool :=
  match n with
  | PyInt _ => true
  | PyFloat x => is_finite x
  end.

Definition number_nan (n : number) : bool :=
  match n with
  | PyInt _ => false
  | PyFloat x => is_nan x
  end.

(** ** [class Account] *)

Module Account.

Record t : Type := mk {
  holder : string;
  _balance : float;
  operations_history : list dict
}.

(** [Account.__init__]. *)
Definition __init__ (account_holder : string) (balance : number) : outcome t :=
  if lt_zero balance then
    Raises (ValueError "Начальный баланс не может быть отрицательным")
  else
    match to_float balance with
    | None => Raises overflow
    | Some _balance => Returns (mk account_holder _balance [])
    end.

(** The [balance] property and [get_balance]. *)
Definition balance (self : t) : float := _balance self.
Definition get_balance (self : t) : float := _balance self.

(** [Account._add_operation]: [if extra:] is false for [None] and for an
    empty dict. *)
Definition _add_operation (self : t) (op_type : string) (amount : number)
    (status : string) (balance_after : float) (extra : option dict)
    (now : datetime) : t :=
  let record : dict :=
    [ ("type", VStr op_type);
      ("amount", value_of amount);
      ("datetime", VTime now);
      ("balance_after", VFloat balance_after);
      ("status", VStr status) ]%string in
  let record :=
    match extra with
    | Some ((_ :: _) as e) => dict_update record e
    | _ => record
    end in
  mk (holder self) (_balance self) (operations_history self ++ [record]).

(** [Account.deposit]: [self._balance += amount] raises before it assigns. *)
Definition deposit (self : t) (amount : number) (now : datetime) : result t :=
  if le_zero amount then
    Done (_add_operation self "deposit" amount "fail" (_balance self)
            (Some [("reason", VStr "Amount must be positive")]%string) now)
  else
    match add_float (_balance self) amount with
    | None => Raised self overflow
    | Some new_balance =>
        let self := mk (holder self) new_balance (operations_history self) in
        Done (_add_operation self "deposit" amount "success" (_balance self)
                None now)
    end.

(** [Account.withdraw]. *)
Definition withdraw (self : t) (amount : number) (now : datetime) : result t :=
  if le_zero amount then
    Done (_add_operation self "withdraw" amount "fail" (_balance self)
            (Some [("reason", VStr "Amount must be positive")]%string) now)
  else if gt_float amount (_balance self) then
    Done (_add_operation self "withdraw" amount "fail" (_balance self)
            (Some [("reason", VStr "Insufficient funds")]%string) now)
  else
    match sub_float (_balance self) amount with
    | None => Raised self overflow
    | Some new_balance =>
        let self := mk (holder self) new_balance (operations_history self) in
        Done (_add_operation self "withdraw" amount "success" (_balance self)
                None now)
    end.

(** [Account.get_history]: a list of copies; values are immutable here. *)
Definition get_history (self : t) : list dict :=
  map (fun record => record) (operations_history self).

End Account.

(** ** [class CreditAccount(Account)] *)

Module CreditAccount.

(** The inherited attributes are the [Account.t] part. *)
Record t : Type := mk {
  account : Account.t;
  _credit_limit : float
}.

Definition holder (self : t) : string := Account.holder (account self).
Definition _balance (self : t) : float := Account._balance (account self).
Definition balance (self : t) : float := _balance self.
Definition get_balance (self : t) : float := _balance self.
Definition operations_history (self : t) : list dict :=
  Account.operations_history (account self).

(** [CreditAccount.__init__]: the check of the limit, its conversion, the
    check of the balance against it, then [super().__init__]. *)
Definition __init__ (account_holder : string) (balance credit_limit : number)
    : outcome t :=
  if lt_zero credit_limit then
    Raises (ValueError "Кредитный лимит не может быть отрицательным")
  else
    match to_float credit_limit with
    | None => Raises overflow
    | Some _credit_limit =>
        if lt_float balance (- _credit_limit) then
          Raises
            (ValueError "Начальный баланс ниже допустимого кредитного лимита")
        else
          match Account.__init__ account_holder balance with
          | Raises e => Raises e
          | Returns a => Returns (mk a _credit_limit)
          end
    end.

(** [CreditAccount.get_available_credit]. *)
Definition get_available_credit (self : t) : float :=
  (_credit_limit self + _balance self)%float.

(** The inherited [_add_operation]. *)
Definition _add_operation (self : t) (op_type : string) (amount : number)
    (status : string) (balance_after : float) (extra : option dict)
    (now : datetime) : t :=
  mk (Account._add_operation (account self) op_type amount status
        balance_after extra now)
     (_credit_limit self).

(** [self._balance = x]. *)
Definition set_balance (self : t) (x : float) : t :=
  mk (Account.mk (holder self) x (operations_history self))
     (_credit_limit self).

(** [CreditAccount.withdraw]: [self._balance - amount] is computed, and may
    raise, before the limit is tested. *)
Definition withdraw (self : t) (amount : number) (now : datetime) : result t :=
  if le_zero amount then
    Done (_add_operation self "withdraw" amount "fail" (_balance self)
            (Some [("reason", VStr "Amount must be positive")]%string) now)
  else
    match sub_float (_balance self) amount with
    | None => Raised self overflow
    | Some new_balance =>
        if (new_balance <? - _credit_limit self)%float then
          Done (_add_operation self "withdraw" amount "fail" (_balance self)
                  (Some [("reason", VStr "Credit limit exceeded")]%string) now)
        else
          let used_credit := (new_balance <? 0)%float in
          let self := set_balance self new_balance in
          Done (_add_operation self "withdraw" amount "success"
                  (_balance self)
                  (Some [ ("used_credit", VBool used_credit);
                          ("available_credit_after",
                           VFloat (get_available_credit self)) ]%string) now)
    end.

(** [CreditAccount.deposit]. *)
Definition deposit (self : t) (amount : number) (now : datetime) : result t :=
  if le_zero amount then
    Done (_add_operation self "deposit" amount "fail" (_balance self)
            (Some [("reason", VStr "Amount must be positive")]%string) now)
  else
    let before := _balance self in
    match add_float (_balance self) amount with
    | None => Raised self overflow
    | Some new_balance =>
        let self := set_balance self new_balance in
        let used_credit := (before <? 0)%float in
        Done (_add_operation self "deposit" amount "success" (_balance self)
                (Some [ ("used_credit", VBool used_credit);
                        ("available_credit_after",
                         VFloat (get_available_credit self)) ]%string) now)
    end.

Definition get_history (self : t) : list dict :=
  Account.get_history (account self).

End CreditAccount.

(** ** Sequences of calls *)

(** One call of [deposit] or [withdraw], with the clock value it reads. *)
Inductive call : Type :=
| Deposit (amount : number) (now : datetime)
| Withdraw (amount : number) (now : datetime).

Definition account_call (self : Account.t) (c : call) : result Account.t :=
  match c with
  | Deposit amount now => Account.deposit self amount now
  | Withdraw amount now => Account.withdraw self amount now
  end.

Definition credit_call (self : CreditAccount.t) (c : call)
    : result CreditAccount.t :=
  match c with
  | Deposit amount now => CreditAccount.deposit self amount now
  | Withdraw amount now => CreditAccount.withdraw self amount now
  end.

(** The calls of [cs] made in order, first to last, each on the object as
    the call before left it: an exception is caught by the caller. *)
Definition account_run (self : Account.t) (cs : list call) : Account.t :=
  fold_left (fun self k => state (account_call self k)) cs self.

Definition credit_run (self : CreditAccount.t) (cs : list call)
    : CreditAccount.t :=
  fold_left (fun self k => state (credit_call self k)) cs self.

(** Readers of an operation record. *)
Definition status_of (r : dict) : option value := dict_get "status" r.
Definition reason_of (r : dict) : option value := dict_get "reason" r.
Definition balance_after_of (r : dict) : option value :=
  dict_get "balance_after" r.
Definition used_credit_of (r : dict) : option value :=
  dict_get "used_credit" r.
Definition available_credit_after_of (r : dict) : option value :=
  dict_get "available_credit_after" r.

Definition is_success (r : dict) : Prop := status_of r = Some (VStr "success").
Definition is_fail (r : dict) : Prop := status_of r = Some (VStr "fail").

(** ** [Task1.py] *)

(** [range(start, stop)] over Python ints. *)
Definition range (start stop : Z) : list Z :=
  map (fun i => start + Z.of_nat i)%Z (seq 0 (Z.to_nat (stop - start))).

(** [sum_distance]: the swap, then the loop over the range. *)
Definition sum_distance (frm to : Z) : Z :=
  let '(frm, to) := if (frm >? to)%Z then (to, frm) else (frm, to) in
  fold_left (fun total num => total + num)%Z (range frm (to + 1)) 0%Z.

(** ** [Task2.py] *)

(** [s[start:]] for a [str]: a negative [start] counts from the end. *)
Fixpoint drop (n : nat) (s : string) : string :=
  match n, s with
  | O, _ => s
  | S n', EmptyString => EmptyString
  | S n', String _ s' => drop n' s'
  end.

Definition slice_from (s : string) (start : Z) : string :=
  let len := Z.of_nat (String.length s) in
  let start := if (start <? 0)%Z then Z.max (len + start) 0 else start in
  drop (Z.to_nat start) s.

(** [s] concatenated [n] times. *)
Fixpoint repeat_string (s : string) (n : nat) : string :=
  match n with
  | O => EmptyString
  | S n' => (s ++ repeat_string s n')%string
  end.

(** The largest [Py_ssize_t], the type of lengths and of repetition
    counts. *)
Definition PY_SSIZE_T_MAX : Z := (2 ^ 63 - 1)%Z.

(** [s * n] for a [str] and an [int], as [unicode_repeat] has it.  The
    count has to fit a [Py_ssize_t]; a count below 1 gives the empty string,
    the count 1 the string itself; otherwise the length of the result has to
    fit a [Py_ssize_t] too, and the result is a new string, which the
    allocator grants or not: [memory] is the longest string that it grants
    at the time of the call, and a longer one raises MemoryError. *)
Definition str_mul (memory : N) (s : string) (n : Z) : outcome string :=
  if ((n <? - PY_SSIZE_T_MAX - 1) || (PY_SSIZE_T_MAX <? n))%Z then
    Raises (OverflowError "cannot fit 'int' into an index-sized integer")
  else if (n <? 1)%Z then Returns EmptyString
  else if (n =? 1)%Z then Returns s
  else if (PY_SSIZE_T_MAX / n <? Z.of_nat (String.length s))%Z then
    Raises (OverflowError "repeated string is too long")
  else if (Z.of_N memory <? Z.of_nat (String.length s) * n)%Z then
    Raises MemoryError
  else Returns (repeat_string s (Z.to_nat n)).

(** [trim_and_repeat]; the defaults are [offset = 0] and
    [repetitions = 1].  The slice is no longer than [s]. *)
Definition trim_and_repeat (memory : N) (s : string) (offset repetitions : Z)
    : outcome string :=
  let offset := if (offset <? 0)%Z then 0%Z else offset in
  if (repetitions <=? 0)%Z then Returns EmptyString
  else
    let trimmed := slice_from s offset in
    str_mul memory trimmed repetitions.

(** ** What the statements are made of *)

(** What a call that fails leaves behind: the same holder and balance, and
    one more record, a [fail] record with the balance and the reason.  The
    call returns. *)
Definition failed_call (before : Account.t) (after : result Account.t)
    (reason : string) : Prop :=
  exists r,
    after = Done (Account.mk (Account.holder before) (Account._balance before)
                    (Account.operations_history before ++ [r]))
    /\ is_fail r
    /\ balance_after_of r = Some (VFloat (Account._balance before))
    /\ reason_of r = Some (VStr reason).

(** The same for a credit account, whose limit stays as it was. *)
Definition credit_failed_call (before : CreditAccount.t)
    (after : result CreditAccount.t) (reason : string) : Prop :=
  exists r,
    after = Done (CreditAccount.mk
                    (Account.mk (CreditAccount.holder before)
                       (CreditAccount._balance before)
                       (CreditAccount.operations_history before ++ [r]))
                    (CreditAccount._credit_limit before))
    /\ is_fail r
    /\ balance_after_of r = Some (VFloat (CreditAccount._balance before))
    /\ reason_of r = Some (VStr reason).

(** What a successful call of a credit account leaves behind: the new
    balance, and one more record, a [success] record with the credit flag
    and the credit still available. *)
Definition credit_succeeded_call (before : CreditAccount.t)
    (after : result CreditAccount.t) (new_balance : float)
    (used_credit : bool) : Prop :=
  exists r,
    after = Done (CreditAccount.mk
                    (Account.mk (CreditAccount.holder before) new_balance
                       (CreditAccount.operations_history before ++ [r]))
                    (CreditAccount._credit_limit before))
    /\ is_success r
    /\ balance_after_of r = Some (VFloat new_balance)
    /\ used_credit_of r = Some (VBool used_credit)
    /\ available_credit_after_of r =
         Some (VFloat (CreditAccount._credit_limit before + new_balance)%float).

(** What a successful call of a base account leaves behind. *)
Definition succeeded_call (before : Account.t) (after : result Account.t)
    (new_balance : float) : Prop :=
  exists r,
    after = Done (Account.mk (Account.holder before) new_balance
                    (Account.operations_history before ++ [r]))
    /\ is_success r
    /\ balance_after_of r = Some (VFloat new_balance).

(** A call that raises OverflowError and leaves the object as it was. *)
Definition overflowed_call {A : Type} (before : A) (after : result A) : Prop :=
  after = Raised before overflow.

(** Two calls in a row, both successful: the balance that results and the
    two [success] records after the history found. *)
Definition two_successes (before : Account.t) (first : result Account.t)
    (second : Account.t -> result Account.t) (new_balance : float) : Prop :=
  exists middle r1 r2,
    first = Done middle
    /\ second middle
       = Done (Account.mk (Account.holder before) new_balance
                 (Account.operations_history before ++ [r1; r2]))
    /\ is_success r1 /\ is_success r2.

Definition credit_two_successes (before : CreditAccount.t)
    (first : result CreditAccount.t)
    (second : CreditAccount.t -> result CreditAccount.t)
    (new_balance : float) : Prop :=
  exists middle r1 r2,
    first = Done middle
    /\ second middle
       = Done (CreditAccount.mk
                 (Account.mk (CreditAccount.holder before) new_balance
                    (CreditAccount.operations_history before ++ [r1; r2]))
                 (CreditAccount._credit_limit before))
    /\ is_success r1 /\ is_success r2.

(** A record without the keys of a credit account. *)
Definition plain_record (r : dict) : Prop :=
  used_credit_of r = None /\ available_credit_after_of r = None.

(** A record that, when it is a [success] record, has [used_credit = False]
    and an [available_credit_after]. *)
Definition unused_credit_record (r : dict) : Prop :=
  is_success r ->
  used_credit_of r = Some (VBool false)
  /\ exists x, available_credit_after_of r = Some (VFloat x).

(** A base account and a credit account of limit 0 that go together: equal
    balances, not negative, and histories of the two shapes. *)
Definition zero_limit_pair (a : Account.t) (c : CreditAccount.t) : Prop :=
  CreditAccount._balance c = Account._balance a
  /\ CreditAccount._credit_limit c = 0%float
  /\ (Account._balance a <? 0)%float = false
  /\ Forall unused_credit_record (CreditAccount.operations_history c)
  /\ Forall plain_record (Account.operations_history a).

(** The amount of a call. *)
Definition call_amount (k : call) : number :=
  match k with
  | Deposit amount _ | Withdraw amount _ => amount
  end.

(** A call whose amount is a finite number. *)
Definition finite_call (k : call) : Prop :=
  number_finite (call_amount k) = true.

(** What [CreditAccount.__init__] establishes with a finite limit and what
    the calls with finite amounts keep: the balance is at least minus the
    limit. *)
Definition credit_invariant (c : CreditAccount.t) : Prop :=
  is_finite (CreditAccount._credit_limit c) = true
  /\ (CreditAccount._credit_limit c <? 0)%float = false
  /\ geb (CreditAccount._balance c) (- CreditAccount._credit_limit c) = true.

(** A finite float of sign [s] and of magnitude at most that of the float of
    mantissa [mF] and exponent [eF]. *)
Definition le_finite (s : bool) (x : spec_float) (mF : positive) (eF : Z)
    : Prop :=
  exists m e,
    x = S754_finite s m e
    /\ (e < eF \/ (e = eF /\ Zpos m <= Zpos mF))%Z.

(** A zero or a finite float: neither [nan] nor an infinity. *)
Definition SFis_finite (x : spec_float) : bool :=
  match x with
  | S754_zero _ | S754_finite _ _ _ => true
  | _ => false
  end.

(** The float [nan]. *)
Definition SFis_nan (x : spec_float) : bool :=
  match x with
  | S754_nan => true
  | _ => false
  end.

(** A finite number or an infinity of sign [s]: what rounding a positive
    mantissa gives. *)
Definition finite_or_infinity (s : bool) (x : spec_float) : Prop :=
  (exists m e, x = S754_finite s m e) \/ x = S754_infinity s.

(** What one call does to the history: a call that returns has put exactly
    one record after the history it found; a call that raises has left the
    object as it was, and raises OverflowError on an amount that [float]
    cannot convert. *)
Definition one_record_or_raise {A : Type} (history : A -> list dict)
    (amount : number) (before : A) (after : result A) : Prop :=
  match after with
  | Done self =>
      (exists r, history self = history before ++ [r])
      /\ List.length (history self) = S (List.length (history before))
  | Raised self e =>
      self = before /\ e = overflow /\ to_float amount = None
  end.

(** An infinity of sign [s], or a finite float of sign [s] and of magnitude
    at least that of the float of mantissa [mF] and exponent [eF]. *)
Definition ge_finite (s : bool) (x : spec_float) (mF : positive) (eF : Z)
    : Prop :=
  x = S754_infinity s
  \/ exists m e,
       x = S754_finite s m e
       /\ (eF < e \/ (e = eF /\ Zpos mF <= Zpos m))%Z.

(** The value of a zero or of a finite float, in units of [2 ^ emin]. *)
Definition svalue (x : spec_float) : Z :=
  match x with
  | S754_finite s m e => cond_Zopp s (scaled m e)
  | _ => 0%Z
  end.

(** A number whose value is the integer [z]: the [int] [z], or the float
    that [z] is converted to. *)
Definition integer_number (n : number) (z : Z) : Prop :=
  match n with
  | PyInt z' => z' = z
  | PyFloat x => float_of_int z = Some x
  end.

(** A number that is a binary64 number: a [float], or an [int] below
    [2 ^ 53] in magnitude, which [float] converts without rounding. *)
Definition exact_number (n : number) : Prop :=
  match n with
  | PyInt z => (Z.abs z < 2 ^ 53)%Z
  | PyFloat _ => True
  end.

Definition exact_call (k : call) : Prop := exact_number (call_amount k).

(** ** What the histories are read with *)

(** The name under which a call is recorded, and the clock value it reads. *)
Definition call_kind (k : call) : string :=
  match k with
  | Deposit _ _ => "deposit"
  | Withdraw _ _ => "withdraw"
  end.

Definition call_now (k : call) : datetime :=
  match k with
  | Deposit _ now | Withdraw _ now => now
  end.

(** More readers of an operation record. *)
Definition type_of (r : dict) : option value := dict_get "type" r.
Definition amount_of (r : dict) : option value := dict_get "amount" r.
Definition datetime_of (r : dict) : option value := dict_get "datetime" r.

(** The keys of a dict, in order. *)
Definition dict_keys (d : dict) : list string := map fst d.

(** The record of the call [k]: its kind, the amount as it was given, an
    [int] or a [float], the clock value, and one of the two statuses. *)
Definition record_of_call (k : call) (r : dict) : Prop :=
  type_of r = Some (VStr (call_kind k))
  /\ amount_of r = Some (value_of (call_amount k))
  /\ datetime_of r = Some (VTime (call_now k))
  /\ (is_success r \/ is_fail r).

(** A call that passes the first guard of its method: [amount <= 0] is
    false. *)
Definition passes_guard (k : call) : bool := negb (le_zero (call_amount k)).

(** What a call leaves in the history: the record of the call, or nothing
    when the call raised, which takes an amount that passes the first guard
    and that [float] cannot convert. *)
Definition call_trace (k : call) (o : option dict) : Prop :=
  match o with
  | Some r => record_of_call k r
  | None => passes_guard k = true /\ to_float (call_amount k) = None
  end.

(** The records that a sequence of calls leaves, in order. *)
Definition appended (os : list (option dict)) : list dict :=
  flat_map (fun o => match o with Some r => [r] | None => [] end) os.

(** The balance that a record leaves, read off the record alone: a
    [success] record of a deposit adds its amount, one of a withdrawal
    subtracts it, any other record changes nothing. *)
Definition replay_record (b : float) (r : dict) : float :=
  match status_of r, type_of r, amount_of r with
  | Some (VStr st), Some (VStr ty), Some v =>
      match number_of v with
      | Some n =>
          if String.eqb st "success" then
            if String.eqb ty "deposit" then
              match add_float b n with Some b' => b' | None => b end
            else if String.eqb ty "withdraw" then
              match sub_float b n with Some b' => b' | None => b end
            else b
          else b
      | None => b
      end
  | _, _, _ => b
  end.

(** The balance that a history leaves, from the balance [b] before it. *)
Definition replay (b : float) (rs : list dict) : float :=
  fold_left replay_record rs b.

(** Every record of [rs] has for [balance_after] the balance replayed up to
    it, from the balance [b] before [rs]. *)
Fixpoint ledger (b : float) (rs : list dict) : Prop :=
  match rs with
  | [] => True
  | r :: rs' =>
      balance_after_of r = Some (VFloat (replay_record b r))
      /\ ledger (replay_record b r) rs'
  end.

(** The two shapes of a record of a base account: a [success] record has
    the five keys of [_add_operation]; a [fail] record has the key [reason]
    after them, with one of the two reasons of the class. *)
Definition base_record (r : dict) : Prop :=
  (is_success r
   /\ dict_keys r = ["type"; "amount"; "datetime"; "balance_after"; "status"]%string)
  \/ (is_fail r
      /\ dict_keys r
         = ["type"; "amount"; "datetime"; "balance_after"; "status";
            "reason"]%string
      /\ (reason_of r = Some (VStr "Amount must be positive")
          \/ reason_of r = Some (VStr "Insufficient funds"))).

(** The two shapes of a record of a credit account of limit [L]: a
    [success] record has the two credit keys after the five, the available
    credit being [L] plus the balance recorded; a [fail] record has the key
    [reason], with one of the two reasons of the class. *)
Definition credit_record (L : float) (r : dict) : Prop :=
  (is_success r
   /\ dict_keys r
      = ["type"; "amount"; "datetime"; "balance_after"; "status";
         "used_credit"; "available_credit_after"]%string
   /\ exists (u : bool) (x : float),
        used_credit_of r = Some (VBool u)
        /\ balance_after_of r = Some (VFloat x)
        /\ available_credit_after_of r = Some (VFloat (L + x)%float))
  \/ (is_fail r
      /\ dict_keys r
         = ["type"; "amount"; "datetime"; "balance_after"; "status";
            "reason"]%string
      /\ (reason_of r = Some (VStr "Amount must be positive")
          \/ reason_of r = Some (VStr "Credit limit exceeded"))).

(** Two records with the same five fields of [_add_operation]. *)
Definition same_base_fields (r r' : dict) : Prop :=
  type_of r = type_of r' /\ amount_of r = amount_of r'
  /\ datetime_of r = datetime_of r'
  /\ balance_after_of r = balance_after_of r'
  /\ status_of r = status_of r'.

(** Two calls that ask for the same thing: the same method with the same
    amount, whatever the clock. *)
Definition same_request (k k' : call) : Prop :=
  call_kind k = call_kind k' /\ call_amount k = call_amount k'.

(** The records of stopped calls after the balance [b]. *)
Definition stopped_record (b : float) (r : dict) : Prop :=
  is_fail r
  /\ reason_of r = Some (VStr "Amount must be positive")
  /\ balance_after_of r = Some (VFloat b).

(** The entries that [extra] brings: none for [None]. *)
Definition extra_entries (extra : option dict) : dict :=
  match extra with
  | Some e => e
  | None => []
  end.

(** The five fields that [_add_operation] always writes. *)
Definition base_fields (op_type : string) (amount : number) (status : string)
    (balance_after : float) (now : datetime) : dict :=
  [ ("type", VStr op_type);
    ("amount", value_of amount);
    ("datetime", VTime now);
    ("balance_after", VFloat balance_after);
    ("status", VStr status) ]%string.

(** What a call leaves in the history of an account whose balance is [nan]:
    what a call leaves, the record being a [success] record as soon as the
    call passes the first guard. *)
Definition nan_trace (k : call) (o : option dict) : Prop :=
  call_trace k o
  /\ forall r, o = Some r -> passes_guard k = true -> is_success r.

(** ** Records as objects *)

(** The dict objects of a program, by address: what [get_history] copies. *)
Definition address : Type := nat.
Definition heap : Type := list dict.

(** The dict at an address. *)
Definition read (m : heap) (p : address) : option dict := nth_error m p.

(** The dicts at the addresses of a list, in order. *)
Fixpoint read_all (m : heap) (ps : list address) : option (list dict) :=
  match ps with
  | [] => Some []
  | p :: ps' =>
      match read m p, read_all m ps' with
      | Some d, Some ds => Some (d :: ds)
      | _, _ => None
      end
  end.

(** [record.copy()]: a new dict, with the entries of the one at [p]. *)
Definition dict_copy (m : heap) (p : address) : option (heap * address) :=
  match read m p with
  | Some d => Some (m ++ [d], List.length m)
  | None => None
  end.

Module AccountObject.

(** An account whose history is a list of dict objects. *)
Record t : Type := mk {
  holder : string;
  _balance : float;
  operations_history : list address
}.

(** [Account.get_history]: [[record.copy() for record in
    self.operations_history]], the new heap and the list returned. *)
Fixpoint copy_records (m : heap) (ps : list address)
    : option (heap * list address) :=
  match ps with
  | [] => Some (m, [])
  | p :: ps' =>
      match dict_copy m p with
      | Some (m', q) =>
          match copy_records m' ps' with
          | Some (m'', qs) => Some (m'', q :: qs)
          | None => None
          end
      | None => None
      end
  end.

Definition get_history (m : heap) (self : t) : option (heap * list address) :=
  copy_records m (operations_history self).

(** The account that the object stands for: its records read in the heap. *)
Definition contents (m : heap) (self : t) : option Account.t :=
  match read_all m (operations_history self) with
  | Some rs => Some (Account.mk (holder self) (_balance self) rs)
  | None => None
  end.

End AccountObject.

(** * Comparisons of binary64 numbers *)

Section Comparison.

(** Swapping the two numbers reverses the comparison. *)
Lemma SFcompare_antisym (x y : spec_float) :
  SFcompare y x = option_map CompOpp (SFcompare x y).
Proof.
  destruct x as [sx|sx| |sx mx ex], y as [sy|sy| |sy my ey]; simpl;
    try reflexivity;
    try (destruct sx; reflexivity); try (destruct sy; reflexivity);
    try (destruct sx, sy; reflexivity).
  f_equal.
  pose proof (Pos.compare_cont_antisym mx my Eq) as Hm. simpl in Hm.
  destruct sx, sy; try reflexivity;
    rewrite (Z.compare_antisym ex ey);
    destruct (ex ?= ey)%Z; simpl; try reflexivity; rewrite <- Hm;
    destruct (Pos.compare_cont Eq mx my); reflexivity.
Qed.

(** [x < y] excludes [y <= x]. *)
Lemma ltb_true_leb_false (x y : float) :
  (x <? y)%float = true -> (y <=? x)%float = false.
Proof.
  rewrite ltb_spec, leb_spec. unfold SFltb, SFleb.
  rewrite (SFcompare_antisym (Prim2SF x) (Prim2SF y)).
  destruct (SFcompare (Prim2SF x) (Prim2SF y)) as [[]|]; simpl; congruence.
Qed.

(** [x <= y] excludes [y < x]. *)
Lemma leb_true_ltb_false (x y : float) :
  (x <=? y)%float = true -> (y <? x)%float = false.
Proof.
  rewrite ltb_spec, leb_spec. unfold SFltb, SFleb.
  rewrite (SFcompare_antisym (Prim2SF x) (Prim2SF y)).
  destruct (SFcompare (Prim2SF x) (Prim2SF y)) as [[]|]; simpl; congruence.
Qed.

(** Two floats with different bits are different. *)
Lemma float_neq (x y : float) : Prim2SF x <> Prim2SF y -> x <> y.
Proof. intros H E. apply H. now rewrite E. Qed.

End Comparison.

(** * Signs of binary64 sums and differences *)

Section Binary64.
Local Open Scope Z_scope.

(** The exponent of the smallest subnormal numbers. *)
Lemma emin_value : emin = -1074.
Proof. reflexivity. Qed.

(** A mantissa of [d] digits lies between [2 ^ (d - 1)] and [2 ^ d]. *)
Lemma digits2_pos_bounds (m : positive) :
  2 ^ (Zpos (digits2_pos m) - 1) <= Zpos m < 2 ^ Zpos (digits2_pos m).
Proof.
  induction m as [m IH|m IH|]; cbn [digits2_pos].
  - rewrite Pos2Z.inj_succ.
    replace (Z.succ (Zpos (digits2_pos m)) - 1)
      with (Z.succ (Zpos (digits2_pos m) - 1)) by lia.
    rewrite !Z.pow_succ_r by lia. lia.
  - rewrite Pos2Z.inj_succ.
    replace (Z.succ (Zpos (digits2_pos m)) - 1)
      with (Z.succ (Zpos (digits2_pos m) - 1)) by lia.
    rewrite !Z.pow_succ_r by lia. lia.
  - cbn. lia.
Qed.

(** What a valid finite float is: its exponent is at least [emin], its
    mantissa has at most [prec] digits, and exactly [prec] above [emin]. *)
Lemma bounded_facts (m : positive) (e : Z) :
  bounded prec emax m e = true ->
  emin <= e
  /\ Zpos (digits2_pos m) <= prec
  /\ (emin < e -> Zpos (digits2_pos m) = prec).
Proof.
  unfold bounded, canonical_mantissa, fexp. intros H.
  apply andb_true_iff in H. destruct H as (H & _).
  apply Z.eqb_eq in H. rewrite emin_value in *. unfold prec in *. lia.
Qed.

(** [shl_align] to a smaller exponent multiplies the mantissa by the power
    of two between the exponents. *)
Lemma shl_align_value (m : positive) (e e' : Z) :
  e' <= e -> Zpos (fst (shl_align m e e')) = Zpos m * 2 ^ (e - e').
Proof.
  intros H. unfold shl_align.
  destruct (e' - e) as [|d|d] eqn:Hd; try lia; cbn [fst].
  - replace (e - e') with 0 by lia. lia.
  - change (Pos.iter xO m d) with (shift_pos d m).
    rewrite shift_pos_correct. replace (e - e') with (Zpos d) by lia.
    rewrite Z.mul_comm. reflexivity.
Qed.

(** Two valid positive floats compare as their mantissas do once aligned to
    the smaller exponent, the alignment that [SFadd] and [SFsub] use. *)
Lemma SFcompare_aligned (mx my : positive) (ex ey : Z) :
  bounded prec emax mx ex = true -> bounded prec emax my ey = true ->
  SFcompare (S754_finite false mx ex) (S754_finite false my ey)
  = Some (Zpos (fst (shl_align mx ex (Z.min ex ey)))
          ?= Zpos (fst (shl_align my ey (Z.min ex ey)))).
Proof.
  intros Hx Hy.
  apply bounded_facts in Hx. apply bounded_facts in Hy.
  destruct Hx as (Hex & Hdx & Hnx), Hy as (Hey & Hdy & Hny).
  pose proof (digits2_pos_bounds mx) as Bx.
  pose proof (digits2_pos_bounds my) as By.
  rewrite !shl_align_value by lia.
  cbn [SFcompare]. f_equal.
  destruct (Z.compare_spec ex ey) as [E|L|G].
  - subst ey. rewrite Z.min_id, Z.sub_diag, !Z.mul_1_r.
    reflexivity.
  - rewrite Z.min_l, Z.sub_diag, Z.mul_1_r by lia.
    symmetry. apply Z.compare_lt_iff.
    rewrite Hny in By by lia.
    assert (2 ^ 1 <= 2 ^ (ey - ex)) by (apply Z.pow_le_mono_r; lia).
    assert (Zpos mx < 2 ^ prec).
    { eapply Z.lt_le_trans; [apply Bx|]. apply Z.pow_le_mono_r; lia. }
    unfold prec in *.
    change (2 ^ (53 - 1)) with 4503599627370496 in By.
    change (2 ^ 53) with 9007199254740992 in *.
    change (2 ^ 1) with 2 in *. nia.
  - rewrite Z.min_r, Z.sub_diag, Z.mul_1_r by lia.
    symmetry. apply Z.compare_gt_iff.
    rewrite Hnx in Bx by lia.
    assert (2 ^ 1 <= 2 ^ (ex - ey)) by (apply Z.pow_le_mono_r; lia).
    assert (Zpos my < 2 ^ prec).
    { eapply Z.lt_le_trans; [apply By|]. apply Z.pow_le_mono_r; lia. }
    unfold prec in *.
    change (2 ^ (53 - 1)) with 4503599627370496 in Bx.
    change (2 ^ 53) with 9007199254740992 in *.
    change (2 ^ 1) with 2 in *. nia.
Qed.

(** One shift to the right halves the mantissa. *)
Lemma shr_1_m (mrs : shr_record) :
  0 <= shr_m mrs -> shr_m (shr_1 mrs) = shr_m mrs / 2.
Proof.
  destruct mrs as [m r s]. cbn [shr_m]. intros H.
  destruct m as [|[p|p|]|p]; cbn [shr_1 shr_m]; try lia;
    Z.div_mod_to_equations; lia.
Qed.

(** [n] shifts to the right divide the mantissa by [2 ^ n]. *)
Lemma iter_shr_1_m (n : positive) (mrs : shr_record) :
  0 <= shr_m mrs ->
  shr_m (iter_pos shr_1 n mrs) = shr_m mrs / 2 ^ Zpos n.
Proof.
  revert mrs. induction n as [n IH|n IH|]; intros mrs H; cbn [iter_pos].
  - assert (H1 : 0 <= shr_m (shr_1 mrs))
      by (rewrite shr_1_m by exact H; apply Z.div_pos; lia).
    assert (H2 : 0 <= shr_m (iter_pos shr_1 n (shr_1 mrs)))
      by (rewrite IH by exact H1; apply Z.div_pos; [exact H1|lia]).
    rewrite IH, IH, shr_1_m by assumption.
    rewrite !Z.div_div by lia. f_equal.
    replace (Zpos n~1) with (Zpos n + Zpos n + 1) by lia.
    rewrite !Z.pow_add_r, Z.pow_1_r by lia. ring.
  - assert (H2 : 0 <= shr_m (iter_pos shr_1 n mrs))
      by (rewrite IH by exact H; apply Z.div_pos; [exact H|lia]).
    rewrite IH, IH by assumption.
    rewrite !Z.div_div by lia. f_equal.
    replace (Zpos n~0) with (Zpos n + Zpos n) by lia.
    rewrite Z.pow_add_r by lia. ring.
  - apply shr_1_m, H.
Qed.

(** The mantissa of the record that a location starts. *)
Lemma shr_record_of_loc_m (m : Z) (l : location) :
  shr_m (shr_record_of_loc m l) = m.
Proof. destruct l as [|[]]; reflexivity. Qed.

(** Rounding a positive mantissa whose exponent is at least [emin] to the
    precision keeps it positive. *)
Lemma shr_fexp_pos (p : positive) (e : Z) (l : location) :
  emin <= e ->
  exists q,
    shr_m (fst (shr_fexp prec emax (Zpos p) e l)) = Zpos q
    /\ emin <= snd (shr_fexp prec emax (Zpos p) e l).
Proof.
  intros He. unfold shr_fexp, shr, fexp. cbn [Zdigits2].
  pose proof (digits2_pos_bounds p) as B.
  destruct (Z.max (Zpos (digits2_pos p) + e - prec) emin - e)
    as [|n|n] eqn:Hn; cbn [fst snd].
  - rewrite shr_record_of_loc_m. eauto.
  - rewrite iter_shr_1_m, shr_record_of_loc_m
      by (rewrite shr_record_of_loc_m; lia).
    assert (Hk : Zpos n <= Zpos (digits2_pos p) - 1)
      by (unfold prec in *; lia).
    assert (Hp : 2 ^ Zpos n <= Zpos p).
    { eapply Z.le_trans; [|apply B]. apply Z.pow_le_mono_r; lia. }
    assert (Hq : 1 <= Zpos p / 2 ^ Zpos n).
    { apply Z.div_le_lower_bound; lia. }
    destruct (Zpos p / 2 ^ Zpos n) as [|q|q]; try lia.
    exists q. split; [reflexivity | lia].
  - rewrite shr_record_of_loc_m. eauto.
Qed.

(** Rounding to nearest even keeps a mantissa positive. *)
Lemma round_nearest_even_pos (q : positive) (l : location) :
  exists q', round_nearest_even (Zpos q) l = Zpos q'.
Proof.
  destruct l as [|[]]; cbn [round_nearest_even];
    try destruct (Z.even (Zpos q)); eexists; reflexivity.
Qed.

(** [binary_round_aux] of a positive mantissa, from [emin] up, is a finite
    float or an infinity of the sign given. *)
Lemma binary_round_aux_sign (s : bool) (p : positive) (e : Z) (l : location) :
  emin <= e ->
  finite_or_infinity s (binary_round_aux prec emax s (Zpos p) e l).
Proof.
  intros He. unfold binary_round_aux.
  destruct (shr_fexp_pos p e l He) as (q & Hq & He').
  destruct (shr_fexp prec emax (Zpos p) e l) as (mrs', e').
  cbn [fst snd] in Hq, He'. rewrite Hq.
  destruct (round_nearest_even_pos q (loc_of_shr_record mrs')) as (q' & ->).
  destruct (shr_fexp_pos q' e' loc_Exact He') as (q'' & Hq'' & _).
  destruct (shr_fexp prec emax (Zpos q') e' loc_Exact) as (mrs'', e'').
  cbn [fst] in Hq''. rewrite Hq''.
  destruct (e'' <=? emax - prec); [left; eauto | right; reflexivity].
Qed.

(** So is [binary_round]. *)
Lemma binary_round_sign (s : bool) (m : positive) (e : Z) :
  emin <= e -> finite_or_infinity s (binary_round prec emax s m e).
Proof.
  intros He. unfold binary_round.
  destruct (shl_align m e (fexp prec emax (Zpos (digits2_pos m) + e)))
    as (mz, ez) eqn:Hs.
  apply binary_round_aux_sign.
  unfold shl_align, fexp in Hs.
  destruct (Z.max (Zpos (digits2_pos m) + e - prec) emin - e);
    inversion Hs; subst; lia.
Qed.

(** Such a float is below 0 exactly when its sign is minus. *)
Lemma finite_or_infinity_ltb_zero (s : bool) (x : spec_float) :
  finite_or_infinity s x -> SFltb x (S754_zero false) = s.
Proof.
  intros [(m & e & ->)| ->]; destruct s; reflexivity.
Qed.

(** For [x] not negative and [y] not [<= 0], the difference [x - y] is
    negative exactly when [x < y]. *)
Lemma SFsub_negative (x y : spec_float) :
  valid_binary x = true -> valid_binary y = true ->
  SFltb x (S754_zero false) = false ->
  SFleb y (S754_zero false) = false ->
  SFltb (SF64sub x y) (S754_zero false) = SFltb x y.
Proof.
  intros Vx Vy Hx Hy.
  destruct x as [sx|sx| |sx mx ex], y as [sy|sy| |sy my ey];
    try discriminate Hy; try reflexivity;
    try (destruct sx; try discriminate Hx);
    try (destruct sy; try discriminate Hy);
    try reflexivity.
  cbn [valid_binary] in Vx, Vy.
  unfold SFltb at 2. rewrite (SFcompare_aligned mx my ex ey Vx Vy).
  apply bounded_facts in Vx. apply bounded_facts in Vy.
  unfold SF64sub, SFsub. cbn [cond_Zopp].
  set (X := Zpos (fst (shl_align mx ex (Z.min ex ey)))).
  set (Y := Zpos (fst (shl_align my ey (Z.min ex ey)))).
  assert (He : emin <= Z.min ex ey) by lia.
  destruct (Z.compare_spec X Y) as [E|L|G].
  - rewrite E, Z.sub_diag. reflexivity.
  - destruct (X - Y) as [|k|k] eqn:Hk; try lia. cbn [binary_normalize].
    apply finite_or_infinity_ltb_zero, binary_round_sign, He.
  - destruct (X - Y) as [|k|k] eqn:Hk; try lia. cbn [binary_normalize].
    apply finite_or_infinity_ltb_zero, binary_round_sign, He.
Qed.

(** For [x] not negative and [y] not [<= 0], the sum [x + y] is not
    negative. *)
Lemma SFadd_not_negative (x y : spec_float) :
  valid_binary x = true -> valid_binary y = true ->
  SFltb x (S754_zero false) = false ->
  SFleb y (S754_zero false) = false ->
  SFltb (SF64add x y) (S754_zero false) = false.
Proof.
  intros Vx Vy Hx Hy.
  destruct x as [sx|sx| |sx mx ex], y as [sy|sy| |sy my ey];
    try discriminate Hy; try reflexivity;
    try (destruct sx; try discriminate Hx);
    try (destruct sy; try discriminate Hy);
    try reflexivity.
  cbn [valid_binary] in Vx, Vy.
  apply bounded_facts in Vx. apply bounded_facts in Vy.
  unfold SF64add, SFadd. cbn [cond_Zopp Z.add binary_normalize].
  apply finite_or_infinity_ltb_zero, binary_round_sign. lia.
Qed.

End Binary64.

Section PrimitiveSigns.
Local Open Scope float_scope.

(** To be below [-0] is to be below [0]. *)
Lemma ltb_neg_zero (x : float) : (x <? - 0) = (x <? 0).
Proof.
  rewrite !ltb_spec.
  change (Prim2SF (- 0)) with (S754_zero true).
  change (Prim2SF 0) with (S754_zero false).
  destruct (Prim2SF x) as [s|s| |s m e]; reflexivity.
Qed.

(** For [b] not negative and [a] not [<= 0], [b - a < 0] is [b < a]. *)
Lemma sub_negative (b a : float) :
  (b <? 0) = false -> (a <=? 0) = false -> (b - a <? 0) = (b <? a).
Proof.
  rewrite !ltb_spec, leb_spec, sub_spec.
  change (Prim2SF 0) with (S754_zero false).
  apply SFsub_negative; apply Prim2SF_valid.
Qed.

(** For [b] not negative and [a] not [<= 0], [b + a] is not negative. *)
Lemma add_not_negative (b a : float) :
  (b <? 0) = false -> (a <=? 0) = false -> (b + a <? 0) = false.
Proof.
  rewrite !ltb_spec, leb_spec, add_spec.
  change (Prim2SF 0) with (S754_zero false).
  apply SFadd_not_negative; apply Prim2SF_valid.
Qed.

End PrimitiveSigns.

(** * Rounding below a float *)

Section Rounding.
Local Open Scope Z_scope.

(** The exponent of a valid finite float is at most [emax - prec]. *)
Lemma bounded_emax (m : positive) (e : Z) :
  bounded prec emax m e = true -> e <= emax - prec.
Proof.
  unfold bounded. intros H. apply andb_true_iff in H.
  destruct H as (_ & H). now apply Z.leb_le in H.
Qed.

(** The exponent of a valid finite float is the one [fexp] gives it. *)
Lemma bounded_canonical (m : positive) (e : Z) :
  bounded prec emax m e = true ->
  fexp prec emax (Zpos (digits2_pos m) + e) = e.
Proof.
  unfold bounded, canonical_mantissa. intros H.
  apply andb_true_iff in H. destruct H as (H & _). now apply Z.eqb_eq in H.
Qed.

(** Appending [d] zero bits adds [d] digits. *)
Lemma digits2_pos_shift (d m : positive) :
  digits2_pos (Pos.iter xO m d) = (digits2_pos m + d)%positive.
Proof.
  induction d as [|d IH] using Pos.peano_ind.
  - cbn. lia.
  - rewrite Pos.iter_succ. cbn [digits2_pos]. rewrite IH. lia.
Qed.

(** [fexp] is monotone. *)
Lemma fexp_mono (x y : Z) : x <= y -> fexp prec emax x <= fexp prec emax y.
Proof. unfold fexp. lia. Qed.

(** Powers of two are positive. *)
Lemma pow2_pos (n : Z) : 0 <= n -> 0 < 2 ^ n.
Proof. intros H. apply Z.pow_pos_nonneg; lia. Qed.

(** The exponent that rounding gives a number below a float is at most the
    exponent of that float. *)
Lemma fexp_le_bound (k mF : positive) (e eF : Z) :
  emin <= e -> bounded prec emax mF eF = true ->
  scaled k e <= scaled mF eF ->
  fexp prec emax (Zpos (digits2_pos k) + e) <= eF.
Proof.
  intros He HF H. unfold scaled in H.
  pose proof (bounded_facts mF eF HF) as (HeF & _ & _).
  rewrite <- (bounded_canonical mF eF HF). apply fexp_mono.
  pose proof (digits2_pos_bounds k) as Bk.
  pose proof (digits2_pos_bounds mF) as BF.
  set (dk := Zpos (digits2_pos k)) in *.
  set (dF := Zpos (digits2_pos mF)) in *.
  assert (Hlt : 2 ^ (dk - 1 + (e - emin)) < 2 ^ (dF + (eF - emin))).
  { rewrite !Z.pow_add_r by lia.
    pose proof (pow2_pos (e - emin) ltac:(lia)).
    pose proof (pow2_pos (eF - emin) ltac:(lia)).
    nia. }
  apply Z.pow_lt_mono_r_iff in Hlt; lia.
Qed.

(** [shl_align] to the rounding exponent, when that is at most [e]. *)
Lemma shl_align_fexp (k : positive) (e : Z) :
  fexp prec emax (Zpos (digits2_pos k) + e) <= e ->
  exists mz,
    shl_align k e (fexp prec emax (Zpos (digits2_pos k) + e))
    = (mz, fexp prec emax (Zpos (digits2_pos k) + e))
    /\ Zpos (digits2_pos mz) + fexp prec emax (Zpos (digits2_pos k) + e)
       = Zpos (digits2_pos k) + e.
Proof.
  set (t := fexp prec emax (Zpos (digits2_pos k) + e)). intros Ht.
  unfold shl_align. destruct (t - e) as [|d|d] eqn:Hd; try lia.
  - exists k. replace e with t by lia. split; reflexivity.
  - exists (Pos.iter xO k d). split; [reflexivity|].
    rewrite digits2_pos_shift. lia.
Qed.

(** A mantissa that is at its rounding exponent rounds to itself. *)
Lemma binary_round_aux_exact (s : bool) (mz : positive) (t : Z) :
  fexp prec emax (Zpos (digits2_pos mz) + t) = t ->
  binary_round_aux prec emax s (Zpos mz) t loc_Exact
  = if t <=? emax - prec then S754_finite s mz t else S754_infinity s.
Proof.
  intros Ht. unfold binary_round_aux, shr_fexp. cbn [Zdigits2].
  rewrite Ht, Z.sub_diag.
  cbn [shr shr_record_of_loc loc_of_shr_record shr_m round_nearest_even
       Zdigits2].
  rewrite Ht, Z.sub_diag. cbn [shr shr_record_of_loc shr_m]. reflexivity.
Qed.

(** A number whose rounding exponent is at most its exponent rounds to
    itself, its mantissa shifted left to that exponent. *)
Lemma binary_round_exact (s : bool) (k : positive) (e : Z) :
  fexp prec emax (Zpos (digits2_pos k) + e) <= e ->
  binary_round prec emax s k e
  = if fexp prec emax (Zpos (digits2_pos k) + e) <=? emax - prec
    then S754_finite s
           (fst (shl_align k e (fexp prec emax (Zpos (digits2_pos k) + e))))
           (fexp prec emax (Zpos (digits2_pos k) + e))
    else S754_infinity s.
Proof.
  intros Ht. unfold binary_round.
  destruct (shl_align_fexp k e Ht) as (mz & -> & Hd). cbn [fst].
  apply binary_round_aux_exact. now rewrite Hd.
Qed.

(** The number of digits of a mantissa between [2 ^ (d - 1)] and [2 ^ d]. *)
Lemma digits2_pos_unique (q : positive) (d : Z) :
  2 ^ (d - 1) <= Zpos q < 2 ^ d -> Zpos (digits2_pos q) = d.
Proof.
  intros (Hl & Hu). pose proof (digits2_pos_bounds q) as (Bl & Bu).
  assert (0 < d).
  { destruct (Z.ltb_spec 0 d) as [|Hd]; [assumption|].
    assert (2 ^ d <= 2 ^ 0) by (apply Z.pow_le_mono_r; lia).
    change (2 ^ 0) with 1 in *. lia. }
  assert (H1 : 2 ^ (d - 1) < 2 ^ Zpos (digits2_pos q)) by lia.
  assert (H2 : 2 ^ (Zpos (digits2_pos q) - 1) < 2 ^ d) by lia.
  apply Z.pow_lt_mono_r_iff in H1; [|lia|lia].
  apply Z.pow_lt_mono_r_iff in H2; lia.
Qed.

(** Shifting out bits that are all zero leaves an exact location. *)
Lemma shr_1_exact (mrs : shr_record) :
  0 <= shr_m mrs -> (2 | shr_m mrs) ->
  shr_r mrs = false -> shr_s mrs = false ->
  shr_r (shr_1 mrs) = false /\ shr_s (shr_1 mrs) = false.
Proof.
  destruct mrs as [m r s]. cbn [shr_m shr_r shr_s].
  intros Hm (c & Hc) -> ->.
  destruct m as [|[q|q|]|q]; cbn; try lia; split; reflexivity.
Qed.

(** So do [p] shifts, when [2 ^ p] divides the mantissa. *)
Lemma iter_shr_1_exact (p : positive) (mrs : shr_record) :
  0 <= shr_m mrs -> (2 ^ Zpos p | shr_m mrs) ->
  shr_r mrs = false -> shr_s mrs = false ->
  shr_r (iter_pos shr_1 p mrs) = false /\ shr_s (iter_pos shr_1 p mrs) = false.
Proof.
  revert mrs. induction p as [p IH|p IH|]; intros mrs Hm (c & Hc) Hr Hs;
    cbn [iter_pos].
  - replace (Zpos p~1) with (Zpos p + Zpos p + 1) in Hc by lia.
    rewrite !Z.pow_add_r, Z.pow_1_r in Hc by lia.
    pose proof (pow2_pos (Zpos p) ltac:(lia)) as HP.
    set (P := 2 ^ Zpos p) in *.
    destruct (shr_1_exact mrs Hm) as (Hr1 & Hs1); try assumption.
    { exists (c * P * P). lia. }
    assert (Hm1 : shr_m (shr_1 mrs) = c * P * P).
    { rewrite shr_1_m by exact Hm. rewrite Hc.
      replace (c * (P * P * 2)) with (c * P * P * 2) by ring.
      apply Z.div_mul. lia. }
    assert (0 <= c * P * P) by (rewrite <- Hm1, shr_1_m by exact Hm;
                                apply Z.div_pos; lia).
    destruct (IH (shr_1 mrs)) as (Hr2 & Hs2); try assumption.
    { lia. } { exists (c * P). rewrite Hm1. reflexivity. }
    assert (Hm2 : shr_m (iter_pos shr_1 p (shr_1 mrs)) = c * P).
    { rewrite iter_shr_1_m by lia. rewrite Hm1. apply Z.div_mul. lia. }
    apply IH; try assumption.
    + rewrite Hm2. nia.
    + exists c. exact Hm2.
  - replace (Zpos p~0) with (Zpos p + Zpos p) in Hc by lia.
    rewrite !Z.pow_add_r in Hc by lia.
    pose proof (pow2_pos (Zpos p) ltac:(lia)) as HP.
    set (P := 2 ^ Zpos p) in *.
    destruct (IH mrs) as (Hr2 & Hs2); try assumption.
    { exists (c * P). lia. }
    assert (Hm2 : shr_m (iter_pos shr_1 p mrs) = c * P).
    { rewrite iter_shr_1_m by lia. rewrite Hc.
      replace (c * (P * P)) with (c * P * P) by ring.
      apply Z.div_mul. lia. }
    apply IH; try assumption.
    + rewrite Hm2. nia.
    + exists c. exact Hm2.
  - apply shr_1_exact; try assumption. exists c. exact Hc.
Qed.

(** Rounding to nearest even keeps the mantissa or adds one, and adds one
    only when bits were lost. *)
Lemma round_nearest_even_cases (m : Z) (mrs : shr_record) :
  round_nearest_even m (loc_of_shr_record mrs) = m
  \/ (round_nearest_even m (loc_of_shr_record mrs) = m + 1
      /\ ~ (shr_r mrs = false /\ shr_s mrs = false)).
Proof.
  destruct mrs as [m' [|] [|]]; cbn;
    try destruct (Z.even m); (left; reflexivity) || right;
    (split; [reflexivity | intros (? & ?); discriminate]).
Qed.

(** Rounding a number that is at most a float gives at most that float. *)
Lemma binary_round_le (s : bool) (k mF : positive) (e eF : Z) :
  emin <= e -> bounded prec emax mF eF = true ->
  scaled k e <= scaled mF eF ->
  le_finite s (binary_round prec emax s k e) mF eF.
Proof.
  intros He HF H.
  pose proof (fexp_le_bound k mF e eF He HF H) as Ht.
  pose proof (bounded_emax mF eF HF) as Hmax.
  pose proof (bounded_facts mF eF HF) as (HeF & HdF & _).
  pose proof (digits2_pos_bounds mF) as BF.
  pose proof (digits2_pos_bounds k) as Bk.
  unfold scaled in H.
  set (t := fexp prec emax (Zpos (digits2_pos k) + e)) in *.
  destruct (Z.le_gt_cases t e) as [Hte|Hte].
  - (* the mantissa is shifted left: no bit is lost *)
    rewrite binary_round_exact by exact Hte. fold t.
    destruct (Z.leb_spec t (emax - prec)); [|lia].
    eexists _, _. split; [reflexivity|].
    destruct (Z.eq_dec t eF) as [E|N]; [right; split; [exact E|] | left; lia].
    rewrite shl_align_value by exact Hte.
    assert (Ht' : emin <= t) by (unfold t, fexp; lia).
    replace (e - emin) with ((e - t) + (t - emin)) in H by lia.
    rewrite Z.pow_add_r, <- E in H by lia.
    pose proof (pow2_pos (t - emin) ltac:(lia)).
    pose proof (pow2_pos (e - t) ltac:(lia)).
    nia.
  - (* bits are shifted out *)
    assert (Hdk : Zpos (digits2_pos k) = prec + (t - e))
      by (unfold t, fexp in *; lia).
    unfold binary_round, shl_align. fold t.
    destruct (t - e) as [|p|p] eqn:Hp; try lia.
    unfold binary_round_aux, shr_fexp. cbn [Zdigits2]. fold t.
    rewrite Hp. cbn [shr shr_record_of_loc].
    set (mrs := iter_pos shr_1 p (Build_shr_record (Zpos k) false false)).
    assert (Hm1 : shr_m mrs = Zpos k / 2 ^ Zpos p)
      by (unfold mrs; rewrite iter_shr_1_m; cbn [shr_m]; [reflexivity|lia]).
    pose proof (pow2_pos (Zpos p) ltac:(lia)) as HP.
    assert (Bm1 : 2 ^ 52 <= Zpos k / 2 ^ Zpos p < 2 ^ 53).
    { rewrite Hdk in Bk. unfold prec in Bk.
      replace (53 + Zpos p - 1) with (52 + Zpos p) in Bk by lia.
      rewrite !Z.pow_add_r in Bk by lia.
      split; [apply Z.div_le_lower_bound | apply Z.div_lt_upper_bound]; lia. }
    replace (e + Zpos p) with t by lia. rewrite Hm1.
    assert (Hemin : emin <= t) by lia.
    assert (HmF : Zpos mF < 2 ^ 53).
    { eapply Z.lt_le_trans; [apply BF|]. apply Z.pow_le_mono_r; [lia|].
      exact HdF. }
    assert (Hlo : (Zpos k / 2 ^ Zpos p) * 2 ^ Zpos p <= Zpos k)
      by (rewrite Z.mul_comm; apply Z.mul_div_le; lia).
    (* the inequality between the two numbers, without the common factor *)
    assert (Hsame : eF = t -> Zpos k <= Zpos mF * 2 ^ Zpos p).
    { intros E. rewrite E in H.
      replace (t - emin) with (Zpos p + (e - emin)) in H by lia.
      rewrite Z.pow_add_r in H by lia.
      pose proof (pow2_pos (e - emin) ltac:(lia)). nia. }
    assert (Hnext : eF = t + 1 -> Zpos k <= 2 * Zpos mF * 2 ^ Zpos p).
    { intros E. rewrite E in H.
      replace (t + 1 - emin) with (1 + Zpos p + (e - emin)) in H by lia.
      rewrite !Z.pow_add_r, Z.pow_1_r in H by lia.
      pose proof (pow2_pos (e - emin) ltac:(lia)). nia. }
    (* one is added only when the bits shifted out are not all zero *)
    assert (Hround :
              round_nearest_even (Zpos k / 2 ^ Zpos p)
                (loc_of_shr_record mrs)
              = Zpos k / 2 ^ Zpos p
              \/ (round_nearest_even (Zpos k / 2 ^ Zpos p)
                    (loc_of_shr_record mrs)
                  = Zpos k / 2 ^ Zpos p + 1
                  /\ (Zpos k / 2 ^ Zpos p) * 2 ^ Zpos p < Zpos k
                  /\ (eF = t -> Zpos k < Zpos mF * 2 ^ Zpos p))).
    { destruct (round_nearest_even_cases (Zpos k / 2 ^ Zpos p) mrs)
        as [R|(R & Hne)]; [left; exact R | right].
      assert (Hnd : ~ (2 ^ Zpos p | Zpos k)).
      { intros Hd. apply Hne. unfold mrs.
        apply iter_shr_1_exact; cbn [shr_m shr_r shr_s];
          [lia | exact Hd | reflexivity | reflexivity]. }
      split; [exact R|]. split.
      - destruct (Z.eq_dec (Zpos k / 2 ^ Zpos p * 2 ^ Zpos p) (Zpos k))
          as [E|N]; [|lia].
        exfalso. apply Hnd. exists (Zpos k / 2 ^ Zpos p). lia.
      - intros E. specialize (Hsame E).
        destruct (Z.eq_dec (Zpos k) (Zpos mF * 2 ^ Zpos p)) as [E'|N]; [|lia].
        exfalso. apply Hnd. exists (Zpos mF). exact E'. }
    set (m2 := round_nearest_even (Zpos k / 2 ^ Zpos p)
                 (loc_of_shr_record mrs)) in *.
    assert (Bm2 : 2 ^ 52 <= m2 <= 2 ^ 53) by lia.
    destruct m2 as [|q2|q2] eqn:Hm2; try lia. cbn [Zdigits2].
    destruct (Z.eq_dec (Zpos q2) (2 ^ 53)) as [Hcarry|Hno].
    + (* the mantissa reaches 2^53: one more shift *)
      rewrite (digits2_pos_unique q2 54) by (rewrite Hcarry; cbn; lia).
      replace (fexp prec emax (54 + t) - t) with 1
        by (unfold fexp; rewrite emin_value in *; unfold prec; lia).
      cbn [shr iter_pos]. rewrite Hcarry. cbn [shr_1 shr_m Z.pow Z.pow_pos
        Pos.iter Z.mul Pos.mul].
      destruct Hround as [R|(R & Hgt & Hlt)]; [lia|].
      assert (Hm1' : Zpos k / 2 ^ Zpos p = 2 ^ 53 - 1) by lia.
      rewrite Hm1' in *.
      assert (Hne : eF <> t).
      { intros E. specialize (Hlt E).
        change (2 ^ 53) with 9007199254740992 in *. nia. }
      destruct (Z.leb_spec (t + 1) (emax - prec)); [|lia].
      eexists _, _. split; [reflexivity|].
      destruct (Z.eq_dec eF (t + 1)) as [E|N];
        [right; split; [lia|] | left; lia].
      specialize (Hnext E). change (2 ^ 53) with 9007199254740992 in *. nia.
    + rewrite (digits2_pos_unique q2 53) by (cbn; lia).
      replace (fexp prec emax (53 + t) - t) with 0
        by (unfold fexp; rewrite emin_value in *; unfold prec; lia).
      cbn [shr shr_m].
      destruct (Z.leb_spec t (emax - prec)); [|lia].
      eexists _, _. split; [reflexivity|].
      destruct (Z.eq_dec eF t) as [E|N]; [right; split; [lia|] | left; lia].
      specialize (Hsame E).
      destruct Hround as [R|(R & Hgt & Hlt)].
      * rewrite R. nia.
      * specialize (Hlt E). rewrite R. nia.
Qed.

End Rounding.

(** * Sums that stay above a bound *)

Section Order.
Local Open Scope Z_scope.

(** The value of a float, from its mantissa aligned to a smaller exponent. *)
Lemma scaled_aligned (m : positive) (e ez : Z) :
  emin <= ez -> ez <= e ->
  scaled m e = Zpos (fst (shl_align m e ez)) * 2 ^ (ez - emin).
Proof.
  intros H1 H2. unfold scaled. rewrite shl_align_value by exact H2.
  replace (e - emin) with ((e - ez) + (ez - emin)) by lia.
  rewrite Z.pow_add_r by lia. ring.
Qed.

(** Two positive floats compare as their values do. *)
Lemma SFcompare_scaled (mx my : positive) (ex ey : Z) :
  bounded prec emax mx ex = true -> bounded prec emax my ey = true ->
  SFcompare (S754_finite false mx ex) (S754_finite false my ey)
  = Some (scaled mx ex ?= scaled my ey).
Proof.
  intros Hx Hy. rewrite (SFcompare_aligned mx my ex ey Hx Hy).
  pose proof (bounded_facts mx ex Hx) as (Hex & _).
  pose proof (bounded_facts my ey Hy) as (Hey & _).
  rewrite (scaled_aligned mx ex (Z.min ex ey)),
    (scaled_aligned my ey (Z.min ex ey)) by lia.
  f_equal. apply Zmult_compare_compat_r.
  pose proof (pow2_pos (Z.min ex ey - emin) ltac:(lia)). lia.
Qed.

(** Two negative floats compare as their opposites, reversed. *)
Lemma SFcompare_negative (mx my : positive) (ex ey : Z) :
  SFcompare (S754_finite true mx ex) (S754_finite true my ey)
  = option_map CompOpp
      (SFcompare (S754_finite false mx ex) (S754_finite false my ey)).
Proof. cbn. destruct (ex ?= ey); reflexivity. Qed.

(** Of two valid negative floats, the one that is not below the other has
    the magnitude that is at most the other's. *)
Lemma SFltb_negative (mx my : positive) (ex ey : Z) :
  bounded prec emax mx ex = true -> bounded prec emax my ey = true ->
  SFltb (S754_finite true mx ex) (S754_finite true my ey) = false ->
  scaled mx ex <= scaled my ey.
Proof.
  intros Hx Hy. unfold SFltb.
  rewrite SFcompare_negative, (SFcompare_scaled mx my ex ey Hx Hy).
  cbn [option_map].
  destruct (Z.compare_spec (scaled mx ex) (scaled my ey)) as [E|L|G];
    cbn [CompOpp]; intros H; [lia | lia | discriminate H].
Qed.

(** A negative float of smaller or equal magnitude is not below. *)
Lemma le_finite_not_below (x : spec_float) (mw : positive) (ew : Z) :
  le_finite true x mw ew -> SFltb x (S754_finite true mw ew) = false.
Proof.
  intros (m & e & -> & [Hlt|(-> & Hm)]); unfold SFltb; cbn.
  - destruct (Z.compare_spec e ew); reflexivity || lia.
  - rewrite Z.compare_refl.
    change (Pos.compare_cont Eq m mw) with (Zpos m ?= Zpos mw).
    destruct (Z.compare_spec (Zpos m) (Zpos mw)); reflexivity || lia.
Qed.

(** Nothing is below [nan]. *)
Lemma SFltb_nan_r (x : spec_float) : SFltb x S754_nan = false.
Proof. destruct x; reflexivity. Qed.

(** Something not negative is not below something not positive. *)
Lemma not_negative_not_below (z w : spec_float) :
  SFltb z (S754_zero false) = false -> SFltb (S754_zero false) w = false ->
  SFltb z w = false.
Proof.
  destruct z as [sz|sz| |sz mz ez], w as [sw|sw| |sw mw ew];
    try reflexivity;
    try (destruct sz; try discriminate); try (destruct sw; try discriminate);
    reflexivity.
Qed.

(** Adding [y], not [<= 0], to [x], not below [w <= 0], gives a sum not
    below [w]. *)
Lemma SFadd_not_below (x y w : spec_float) :
  valid_binary x = true -> valid_binary y = true -> valid_binary w = true ->
  SFltb x w = false ->
  SFleb y (S754_zero false) = false ->
  SFltb (S754_zero false) w = false ->
  SFltb (SF64add x y) w = false.
Proof.
  intros Vx Vy Vw Hx Hy Hw.
  destruct (SFltb x (S754_zero false)) eqn:Hneg.
  2:{ apply not_negative_not_below; [|exact Hw].
      now apply SFadd_not_negative. }
  destruct x as [sx|sx| |sx mx ex]; try discriminate Hneg;
    destruct sx; try discriminate Hneg.
  - (* minus infinity *)
    destruct y as [sy|sy| |sy my ey]; try discriminate Hy; try reflexivity;
      destruct sy; try discriminate Hy; try reflexivity.
    exact Hx.
  - destruct y as [sy|sy| |sy my ey]; try discriminate Hy; try reflexivity;
      destruct sy; try discriminate Hy.
    + destruct w as [sw|sw| |sw mw ew]; try reflexivity; destruct sw;
        reflexivity.
    + cbn [valid_binary] in Vx, Vy.
      pose proof (bounded_facts mx ex Vx) as (Hex & _).
      pose proof (bounded_facts my ey Vy) as (Hey & _).
      unfold SF64add, SFadd. cbn [cond_Zopp].
      assert (Hez : emin <= Z.min ex ey) by lia.
      pose proof (scaled_aligned mx ex (Z.min ex ey) Hez ltac:(lia)) as HX.
      set (X := Zpos (fst (shl_align mx ex (Z.min ex ey)))) in *.
      set (Y := Zpos (fst (shl_align my ey (Z.min ex ey)))) in *.
      assert (HY : 0 < Y) by (unfold Y; lia).
      destruct (- X + Y) as [|kD|kD] eqn:HD; cbn [binary_normalize].
      * exact Hw.
      * apply not_negative_not_below; [|exact Hw].
        apply finite_or_infinity_ltb_zero, binary_round_sign, Hez.
      * destruct w as [sw|sw| |sw mw ew].
        -- destruct sw; discriminate Hx.
        -- destruct sw; [|discriminate Hx].
           destruct (binary_round_sign true kD (Z.min ex ey) Hez)
             as [(m' & e' & ->)| ->]; reflexivity.
        -- apply SFltb_nan_r.
        -- destruct sw; [|discriminate Hx].
           cbn [valid_binary] in Vw.
           apply le_finite_not_below, binary_round_le;
             [exact Hez | exact Vw |].
           apply SFltb_negative in Hx; [|assumption|assumption].
           eapply Z.le_trans; [|exact Hx]. rewrite HX. unfold scaled.
           pose proof (pow2_pos (Z.min ex ey - emin) ltac:(lia)). nia.
Qed.

End Order.

(** * Sums and differences that are numbers *)

Section Closure.
Local Open Scope Z_scope.

(** A finite float or an infinity is not [nan]. *)
Lemma finite_or_infinity_not_nan (s : bool) (x : spec_float) :
  finite_or_infinity s x -> SFis_nan x = false.
Proof. intros [(m & e & ->)| ->]; reflexivity. Qed.

(** Neither is what [binary_normalize] gives, from [emin] up. *)
Lemma binary_normalize_not_nan (D e : Z) :
  emin <= e -> SFis_nan (binary_normalize prec emax D e false) = false.
Proof.
  intros He. destruct D as [|k|k]; cbn [binary_normalize]; [reflexivity| |];
    eapply finite_or_infinity_not_nan, binary_round_sign, He.
Qed.

(** Adding or subtracting a finite number does not make a [nan]. *)
Lemma SFadd_not_nan (x y : spec_float) :
  valid_binary x = true -> valid_binary y = true ->
  SFis_nan x = false -> SFis_finite y = true ->
  SFis_nan (SF64add x y) = false.
Proof.
  intros Vx Vy Hx Hy.
  destruct x as [sx|sx| |sx mx ex], y as [sy|sy| |sy my ey];
    try discriminate; try reflexivity;
    try (destruct sx, sy; reflexivity).
  cbn [valid_binary] in Vx, Vy.
  apply bounded_facts in Vx. apply bounded_facts in Vy.
  unfold SF64add, SFadd. apply binary_normalize_not_nan. lia.
Qed.

(** The same for a difference. *)
Lemma SFsub_not_nan (x y : spec_float) :
  valid_binary x = true -> valid_binary y = true ->
  SFis_nan x = false -> SFis_finite y = true ->
  SFis_nan (SF64sub x y) = false.
Proof.
  intros Vx Vy Hx Hy.
  destruct x as [sx|sx| |sx mx ex], y as [sy|sy| |sy my ey];
    try discriminate; try reflexivity;
    try (destruct sx, sy; reflexivity).
  cbn [valid_binary] in Vx, Vy.
  apply bounded_facts in Vx. apply bounded_facts in Vy.
  unfold SF64sub, SFsub. apply binary_normalize_not_nan. lia.
Qed.

(** Two floats that are not [nan] are comparable. *)
Lemma SFcompare_not_nan (x y : spec_float) :
  SFis_nan x = false -> SFis_nan y = false ->
  exists c, SFcompare x y = Some c.
Proof.
  destruct x, y; try discriminate; intros _ _; eexists; reflexivity.
Qed.

(** Of two floats that are not [nan], the first is at least the second
    when it is not below it. *)
Lemma SFleb_of_not_ltb (x y : spec_float) :
  SFis_nan x = false -> SFis_nan y = false ->
  SFltb x y = false -> SFleb y x = true.
Proof.
  intros Hx Hy. unfold SFltb, SFleb. rewrite (SFcompare_antisym x y).
  destruct (SFcompare_not_nan x y Hx Hy) as (c & ->).
  destruct c; cbn; congruence.
Qed.

(** What is at least something is not [nan]. *)
Lemma SFleb_not_nan_r (x y : spec_float) :
  SFleb x y = true -> SFis_nan y = false.
Proof. destruct x, y; try reflexivity; discriminate. Qed.

(** A positive float or plus infinity is at least 0. *)
Lemma SFleb_zero_finite_or_infinity (x : spec_float) :
  finite_or_infinity false x -> SFleb (S754_zero false) x = true.
Proof. intros [(m & e & ->)| ->]; reflexivity. Qed.

(** With [b] at least the opposite of the limit [L], a finite number that
    is not negative, the sum [L + b] is at least 0. *)
Lemma SFadd_limit (L b : spec_float) :
  valid_binary L = true -> valid_binary b = true ->
  SFis_finite L = true -> SFltb L (S754_zero false) = false ->
  SFleb (SFopp L) b = true ->
  SFleb (S754_zero false) (SF64add L b) = true.
Proof.
  intros VL Vb HL HL0 Hb.
  destruct L as [sL|sL| |sL mL eL]; try discriminate HL.
  - destruct b as [sb|sb| |sb mb eb]; try discriminate Hb.
    + destruct sL, sb; reflexivity.
    + destruct sb; [discriminate Hb | reflexivity].
    + destruct sb; [discriminate Hb | reflexivity].
  - destruct sL; [discriminate HL0|].
    destruct b as [sb|sb| |sb mb eb]; try discriminate Hb; try reflexivity.
    + destruct sb; [discriminate Hb | reflexivity].
    + cbn [valid_binary SFopp negb] in VL, Vb, Hb.
      pose proof (bounded_facts mL eL VL) as (HeL & _).
      pose proof (bounded_facts mb eb Vb) as (Heb & _).
      assert (Hez : emin <= Z.min eL eb) by lia.
      unfold SF64add, SFadd.
      destruct sb; cbn [cond_Zopp].
      * unfold SFleb in Hb.
        rewrite SFcompare_negative,
          (SFcompare_aligned mL mb eL eb VL Vb) in Hb.
        cbn [option_map] in Hb.
        set (X := Zpos (fst (shl_align mL eL (Z.min eL eb)))) in *.
        set (Y := Zpos (fst (shl_align mb eb (Z.min eL eb)))) in *.
        assert (HXY : Y <= X).
        { destruct (Z.compare_spec X Y) as [E|Lt|G]; try lia.
          discriminate Hb. }
        destruct (X + - Y) as [|k|k] eqn:HD; cbn [binary_normalize];
          [reflexivity | | lia].
        apply SFleb_zero_finite_or_infinity, binary_round_sign, Hez.
      * cbn [Z.add binary_normalize].
        apply SFleb_zero_finite_or_infinity, binary_round_sign, Hez.
Qed.

End Closure.

(** * The order of primitive floats *)

Section PrimitiveOrder.
Local Open Scope float_scope.

(** [is_nan] on the specification side. *)
Lemma is_nan_spec (x : float) :
  is_nan x = false -> SFis_nan (Prim2SF x) = false.
Proof.
  unfold is_nan. rewrite eqb_spec.
  destruct (Prim2SF x); [reflexivity.. | discriminate | reflexivity].
Qed.

(** [is_finite] on the specification side. *)
Lemma is_finite_spec (x : float) :
  is_finite x = true -> SFis_finite (Prim2SF x) = true.
Proof.
  unfold is_finite, is_nan, is_infinity. rewrite !eqb_spec, abs_spec.
  change (Prim2SF infinity) with (S754_infinity false).
  destruct (Prim2SF x) as [s|s| |s m e]; try reflexivity;
    try discriminate. destruct s; discriminate.
Qed.

(** A finite number is not [nan]. *)
Lemma SFis_finite_not_nan (x : spec_float) :
  SFis_finite x = true -> SFis_nan x = false.
Proof. destruct x; try discriminate; reflexivity. Qed.

(** What is [>=] something is not [nan]. *)
Lemma geb_not_nan (x y : float) :
  geb x y = true -> SFis_nan (Prim2SF x) = false.
Proof. unfold geb. rewrite leb_spec. apply SFleb_not_nan_r. Qed.

(** [x >= y] for two numbers that are not [nan] and not [x < y]. *)
Lemma geb_of_not_ltb (x y : float) :
  SFis_nan (Prim2SF x) = false -> SFis_nan (Prim2SF y) = false ->
  (x <? y) = false -> geb x y = true.
Proof.
  unfold geb. rewrite ltb_spec, leb_spec. apply SFleb_of_not_ltb.
Qed.

(** The opposite of a number is a number. *)
Lemma opp_not_nan (x : float) :
  SFis_nan (Prim2SF x) = false -> SFis_nan (Prim2SF (- x)) = false.
Proof. rewrite opp_spec. destruct (Prim2SF x); try discriminate; reflexivity. Qed.

(** Adding a finite amount to a number gives a number. *)
Lemma add_not_nan (x y : float) :
  SFis_nan (Prim2SF x) = false -> is_finite y = true ->
  SFis_nan (Prim2SF (x + y)) = false.
Proof.
  intros Hx Hy. rewrite add_spec.
  apply SFadd_not_nan; try apply Prim2SF_valid; [exact Hx|].
  now apply is_finite_spec.
Qed.

(** Subtracting a finite amount from a number gives a number. *)
Lemma sub_not_nan (x y : float) :
  SFis_nan (Prim2SF x) = false -> is_finite y = true ->
  SFis_nan (Prim2SF (x - y)) = false.
Proof.
  intros Hx Hy. rewrite sub_spec.
  apply SFsub_not_nan; try apply Prim2SF_valid; [exact Hx|].
  now apply is_finite_spec.
Qed.

(** A sum is not below minus the limit when the first term is not. *)
Lemma add_not_below (b a L : float) :
  (b <? - L) = false -> (a <=? 0) = false -> (L <? 0) = false ->
  (b + a <? - L) = false.
Proof.
  rewrite !ltb_spec, leb_spec, add_spec.
  change (Prim2SF 0) with (S754_zero false).
  intros Hb Ha HL. apply SFadd_not_below; try apply Prim2SF_valid;
    try assumption.
  rewrite opp_spec. destruct (Prim2SF L) as [s|s| |s m e];
    try reflexivity; destruct s; try reflexivity; discriminate HL.
Qed.

(** The four steps of the invariants: a deposit and a withdrawal of a finite
    amount, on a base account and on a credit account. *)
Lemma geb_add_positive (b a : float) :
  geb b 0 = true -> (a <=? 0) = false -> is_finite a = true ->
  geb (b + a) 0 = true.
Proof.
  intros Hb Ha Hfin. apply geb_of_not_ltb.
  - apply add_not_nan; [exact (geb_not_nan b 0 Hb) | exact Hfin].
  - reflexivity.
  - apply add_not_negative; [|exact Ha]. now apply leb_true_ltb_false.
Qed.

(** A withdrawal within the funds leaves a balance [>= 0]. *)
Lemma geb_sub_within (b a : float) :
  geb b 0 = true -> (a <=? 0) = false -> is_finite a = true ->
  gtb a b = false -> geb (b - a) 0 = true.
Proof.
  intros Hb Ha Hfin Hgt. apply geb_of_not_ltb.
  - apply sub_not_nan; [exact (geb_not_nan b 0 Hb) | exact Hfin].
  - reflexivity.
  - rewrite sub_negative; [exact Hgt | | exact Ha].
    now apply leb_true_ltb_false.
Qed.

(** A deposit leaves a balance [>= -L]. *)
Lemma geb_add_limit (b a L : float) :
  is_finite L = true -> (L <? 0) = false -> geb b (- L) = true ->
  (a <=? 0) = false -> is_finite a = true ->
  geb (b + a) (- L) = true.
Proof.
  intros HL HL0 Hb Ha Hfin. apply geb_of_not_ltb.
  - apply add_not_nan; [exact (geb_not_nan b (- L) Hb) | exact Hfin].
  - apply opp_not_nan, SFis_finite_not_nan, is_finite_spec, HL.
  - apply add_not_below; [|exact Ha|exact HL0].
    now apply leb_true_ltb_false.
Qed.

(** A withdrawal within the limit leaves a balance [>= -L]. *)
Lemma geb_sub_limit (b a L : float) :
  is_finite L = true -> geb b (- L) = true -> is_finite a = true ->
  (b - a <? - L) = false -> geb (b - a) (- L) = true.
Proof.
  intros HL Hb Hfin Hlt. apply geb_of_not_ltb.
  - apply sub_not_nan; [exact (geb_not_nan b (- L) Hb) | exact Hfin].
  - apply opp_not_nan, SFis_finite_not_nan, is_finite_spec, HL.
  - exact Hlt.
Qed.

(** The available credit of a balance that is at least minus the limit. *)
Lemma available_credit_not_negative (L b : float) :
  is_finite L = true -> (L <? 0) = false -> geb b (- L) = true ->
  geb (L + b) 0 = true.
Proof.
  unfold geb. rewrite ltb_spec, !leb_spec, add_spec, opp_spec.
  change (Prim2SF 0) with (S754_zero false).
  intros HL HL0 Hb. apply SFadd_limit; try apply Prim2SF_valid;
    try assumption. now apply is_finite_spec.
Qed.

End PrimitiveOrder.


(** * Integers among the floats *)

Section RoundingValid.
Local Open Scope Z_scope.

(** A mantissa of 53 digits at an exponent from [emin] up is canonical. *)
Lemma canonical_53 (q : positive) (t : Z) :
  emin <= t -> 2 ^ 52 <= Zpos q < 2 ^ 53 ->
  canonical_mantissa prec emax q t = true.
Proof.
  intros Ht Hq. unfold canonical_mantissa.
  rewrite (digits2_pos_unique q 53) by (cbn; lia).
  apply Z.eqb_eq. unfold fexp. rewrite emin_value in *. unfold prec. lia.
Qed.

(** Rounding gives a valid float: canonical, or an infinity. *)
Lemma binary_round_valid (s : bool) (k : positive) (e : Z) :
  emin <= e -> valid_binary (binary_round prec emax s k e) = true.
Proof.
  intros He.
  pose proof (digits2_pos_bounds k) as Bk.
  set (t := fexp prec emax (Zpos (digits2_pos k) + e)).
  destruct (Z.le_gt_cases t e) as [Hte|Hte].
  - rewrite binary_round_exact by exact Hte. fold t.
    destruct (Z.leb_spec t (emax - prec)) as [Hmax|Hmax]; [|reflexivity].
    cbn [valid_binary]. unfold bounded. apply andb_true_iff. split.
    + destruct (shl_align_fexp k e Hte) as (mz & Hs & Hd). fold t in Hs, Hd.
      rewrite Hs. cbn [fst]. unfold canonical_mantissa. rewrite Hd.
      apply Z.eqb_eq. reflexivity.
    + now apply Z.leb_le.
  - assert (Hdk : Zpos (digits2_pos k) = prec + (t - e))
      by (unfold t, fexp in *; lia).
    unfold binary_round, shl_align. fold t.
    destruct (t - e) as [|p|p] eqn:Hp; try lia.
    unfold binary_round_aux, shr_fexp. cbn [Zdigits2]. fold t.
    rewrite Hp. cbn [shr shr_record_of_loc].
    set (mrs := iter_pos shr_1 p (Build_shr_record (Zpos k) false false)).
    assert (Hm1 : shr_m mrs = Zpos k / 2 ^ Zpos p)
      by (unfold mrs; rewrite iter_shr_1_m; cbn [shr_m]; [reflexivity|lia]).
    pose proof (pow2_pos (Zpos p) ltac:(lia)) as HP.
    assert (Bm1 : 2 ^ 52 <= Zpos k / 2 ^ Zpos p < 2 ^ 53).
    { rewrite Hdk in Bk. unfold prec in Bk.
      replace (53 + Zpos p - 1) with (52 + Zpos p) in Bk by lia.
      rewrite !Z.pow_add_r in Bk by lia.
      split; [apply Z.div_le_lower_bound | apply Z.div_lt_upper_bound]; lia. }
    replace (e + Zpos p) with t by lia. rewrite Hm1.
    assert (Hemin : emin <= t) by lia.
    assert (Hround :
              round_nearest_even (Zpos k / 2 ^ Zpos p)
                (loc_of_shr_record mrs)
              = Zpos k / 2 ^ Zpos p
              \/ round_nearest_even (Zpos k / 2 ^ Zpos p)
                   (loc_of_shr_record mrs)
                 = Zpos k / 2 ^ Zpos p + 1).
    { destruct (round_nearest_even_cases (Zpos k / 2 ^ Zpos p) mrs)
        as [R|(R & _)]; [left | right]; exact R. }
    set (m2 := round_nearest_even (Zpos k / 2 ^ Zpos p)
                 (loc_of_shr_record mrs)) in *.
    assert (Bm2 : 2 ^ 52 <= m2 <= 2 ^ 53) by lia.
    destruct m2 as [|q2|q2] eqn:Hm2; try lia. cbn [Zdigits2].
    destruct (Z.eq_dec (Zpos q2) (2 ^ 53)) as [Hcarry|Hno].
    + rewrite (digits2_pos_unique q2 54) by (rewrite Hcarry; cbn; lia).
      replace (fexp prec emax (54 + t) - t) with 1
        by (unfold fexp; rewrite emin_value in *; unfold prec; lia).
      cbn [shr iter_pos]. rewrite Hcarry. cbn [shr_1 shr_m Z.pow Z.pow_pos
        Pos.iter Z.mul Pos.mul].
      destruct (Z.leb_spec (t + 1) (emax - prec)) as [Hmax|Hmax];
        [|reflexivity].
      cbn [valid_binary]. unfold bounded. apply andb_true_iff. split.
      * apply canonical_53; [lia | cbn; lia].
      * now apply Z.leb_le.
    + rewrite (digits2_pos_unique q2 53) by (cbn; lia).
      replace (fexp prec emax (53 + t) - t) with 0
        by (unfold fexp; rewrite emin_value in *; unfold prec; lia).
      cbn [shr shr_m].
      destruct (Z.leb_spec t (emax - prec)) as [Hmax|Hmax]; [|reflexivity].
      cbn [valid_binary]. unfold bounded. apply andb_true_iff. split.
      * apply canonical_53; [lia | lia].
      * now apply Z.leb_le.
Qed.

End RoundingValid.

Section Conversion.
Local Open Scope float_scope.

(** A number compares equal to itself. *)
Lemma SFcompare_refl (x : spec_float) :
  SFis_nan x = false -> SFcompare x x = Some Eq.
Proof.
  destruct x as [s|s| |s m e]; try discriminate; intros _;
    try (destruct s; reflexivity).
  cbn [SFcompare]. destruct s; rewrite Z.compare_refl.
  - assert (H := Pos.compare_cont_refl m Eq). rewrite H. reflexivity.
  - assert (H := Pos.compare_cont_refl m Eq). rewrite H. reflexivity.
Qed.

(** [is_nan] on the specification side, the other way. *)
Lemma is_nan_true_spec (x : float) :
  is_nan x = true <-> Prim2SF x = S754_nan.
Proof.
  unfold is_nan. rewrite eqb_spec. unfold SFeqb. split.
  - intros H. destruct (SFis_nan (Prim2SF x)) eqn:E.
    + destruct (Prim2SF x); try discriminate; reflexivity.
    + rewrite (SFcompare_refl _ E) in H. discriminate.
  - intros ->. reflexivity.
Qed.

(** [is_finite] on the specification side, the other way. *)
Lemma is_finite_of_spec (x : float) :
  SFis_finite (Prim2SF x) = true -> is_finite x = true.
Proof.
  intros H. unfold is_finite.
  assert (Hnan : is_nan x = false).
  { destruct (is_nan x) eqn:E; [|reflexivity].
    apply is_nan_true_spec in E. rewrite E in H. discriminate. }
  rewrite Hnan. unfold is_infinity. rewrite eqb_spec, abs_spec.
  change (Prim2SF infinity) with (S754_infinity false).
  destruct (Prim2SF x) as [s|s| |s m e]; try discriminate; reflexivity.
Qed.

(** A finite float is not [nan]. *)
Lemma is_finite_not_nan (x : float) : is_finite x = true -> is_nan x = false.
Proof.
  unfold is_finite. destruct (is_nan x); [discriminate | reflexivity].
Qed.

(** [float(z)] is the float that rounding [z] gives, when that is finite. *)
Lemma float_of_int_spec (z : Z) (x : float) :
  float_of_int z = Some x ->
  Prim2SF x = binary_normalize prec emax z 0 false
  /\ SFis_finite (Prim2SF x) = true.
Proof.
  unfold float_of_int.
  assert (Hvalid : valid_binary (binary_normalize prec emax z 0 false) = true).
  { destruct z as [|k|k]; cbn [binary_normalize]; [reflexivity| |];
      apply binary_round_valid; rewrite emin_value; lia. }
  assert (Hnan : SFis_nan (binary_normalize prec emax z 0 false) = false).
  { apply binary_normalize_not_nan. rewrite emin_value. lia. }
  set (sf := binary_normalize prec emax z 0 false) in *.
  intros H. assert (Hx : x = SF2Prim sf /\ SFis_finite sf = true).
  { destruct sf; try discriminate; split; try reflexivity; congruence. }
  destruct Hx as (-> & Hfin). now rewrite (Prim2SF_SF2Prim _ Hvalid).
Qed.

(** [float(z)] for [z > 0] is a positive float. *)
Lemma float_of_int_positive (z : Z) (x : float) :
  (0 < z)%Z -> float_of_int z = Some x ->
  exists m e, Prim2SF x = S754_finite false m e.
Proof.
  intros Hz Hx. destruct (float_of_int_spec z x Hx) as (E & Hfin).
  destruct z as [|k|k]; try lia. cbn [binary_normalize] in E.
  destruct (binary_round_sign false k 0) as [(m & e & H)|H].
  - rewrite emin_value. lia.
  - exists m, e. now rewrite E.
  - rewrite E, H in Hfin. discriminate.
Qed.

(** The conversion of an amount that passes the guard is not [<= 0]. *)
Lemma to_float_positive (n : number) (x : float) :
  le_zero n = false -> to_float n = Some x -> (x <=? 0) = false.
Proof.
  destruct n as [z|y]; cbn [le_zero to_float].
  - intros Hz Hx. apply Z.leb_gt in Hz.
    destruct (float_of_int_positive z x Hz Hx) as (m & e & E).
    rewrite leb_spec, E. reflexivity.
  - now intros H [= <-].
Qed.

(** The conversion of a finite number is finite. *)
Lemma to_float_finite (n : number) (x : float) :
  number_finite n = true -> to_float n = Some x -> is_finite x = true.
Proof.
  destruct n as [z|y]; cbn [number_finite to_float].
  - intros _ Hx. apply is_finite_of_spec. now apply (float_of_int_spec z).
  - now intros H [= <-].
Qed.

(** The conversion of a number that is not negative is not negative. *)
Lemma to_float_not_negative (n : number) (x : float) :
  lt_zero n = false -> to_float n = Some x -> (x <? 0) = false.
Proof.
  destruct n as [z|y]; cbn [lt_zero to_float].
  - intros Hz Hx. apply Z.ltb_ge in Hz. rewrite ltb_spec.
    destruct (Z.eq_dec z 0) as [->|Hne].
    + destruct (float_of_int_spec 0 x Hx) as (E & _). rewrite E. reflexivity.
    + destruct (float_of_int_positive z x ltac:(lia) Hx) as (m & e & E).
      rewrite E. reflexivity.
  - now intros H [= <-].
Qed.

(** The conversion of a number that is not [nan] is not [nan]. *)
Lemma to_float_not_nan (n : number) (x : float) :
  number_nan n = false -> to_float n = Some x -> is_nan x = false.
Proof.
  destruct n as [z|y]; cbn [number_nan to_float].
  - intros _ Hx. apply is_finite_not_nan, is_finite_of_spec.
    now apply (float_of_int_spec z).
  - now intros H [= <-].
Qed.

(** A positive float of magnitude at most that of another is not above
    it. *)
Lemma le_finite_not_above (x : spec_float) (mw : positive) (ew : Z) :
  le_finite false x mw ew -> SFltb (S754_finite false mw ew) x = false.
Proof.
  intros (m & e & -> & H). unfold SFltb. cbn [SFcompare].
  destruct H as [H|(-> & H)].
  - apply Z.compare_gt_iff in H. now rewrite H.
  - rewrite Z.compare_refl.
    change (Pos.compare_cont Eq mw m) with (mw ?= m)%positive.
    destruct (mw ?= m)%positive eqn:E; try reflexivity.
    rewrite Pos.compare_lt_iff in E. lia.
Qed.

(** An [int] that is not above a float that is not negative is converted to
    a float that is not above it either: rounding does not step over a
    float. *)
Lemma gt_float_to_float (n : number) (b x : float) :
  le_zero n = false -> gt_float n b = false -> to_float n = Some x ->
  (b <? 0) = false -> gtb x b = false.
Proof.
  destruct n as [z|y]; cbn [le_zero gt_float to_float].
  2:{ now intros _ H [= <-]. }
  intros Hz Hgt Hx Hb. apply Z.leb_gt in Hz.
  destruct (float_of_int_spec z x Hx) as (E & _).
  destruct (float_of_int_positive z x Hz Hx) as (m & e & E').
  unfold gtb. rewrite ltb_spec. rewrite ltb_spec in Hb.
  change (Prim2SF 0) with (S754_zero false) in Hb.
  unfold compare_int_float in Hgt.
  pose proof (Prim2SF_valid b) as Vb.
  destruct (Prim2SF b) as [sb|sb| |sb mb eb].
  - apply Z.compare_gt_iff in Hz. rewrite Hz in Hgt. discriminate.
  - destruct sb; [discriminate Hb|]. rewrite E'. reflexivity.
  - reflexivity.
  - destruct sb; [discriminate Hb|]. cbn [cond_Zopp] in Hgt.
    cbn [valid_binary] in Vb.
    destruct z as [|k|k]; try lia. cbn [binary_normalize] in E. rewrite E.
    apply le_finite_not_above, binary_round_le;
      [rewrite emin_value; lia | exact Vb |].
    unfold scaled at 1. rewrite Z.sub_0_l.
    destruct (Z.pos k * 2 ^ (- emin) ?= scaled mb eb)%Z eqn:C;
      try discriminate.
    + apply Z.compare_eq in C. rewrite C. apply Z.le_refl.
    + apply Z.lt_le_incl. exact C.
Qed.

(** A number that is not negative is not below a float that is not
    positive. *)
Lemma lt_float_not_negative (n : number) (w : float) :
  lt_zero n = false -> (0 <? w) = false -> lt_float n w = false.
Proof.
  destruct n as [z|y]; cbn [lt_zero lt_float].
  - intros Hz Hw. apply Z.ltb_ge in Hz. rewrite ltb_spec in Hw.
    change (Prim2SF 0) with (S754_zero false) in Hw.
    unfold compare_int_float.
    destruct (Prim2SF w) as [s|s| |s m e].
    + destruct (z ?= 0)%Z eqn:C; try reflexivity.
      change (z < 0)%Z in C. lia.
    + destruct s; [reflexivity | discriminate Hw].
    + reflexivity.
    + destruct s; [|discriminate Hw]. cbn [cond_Zopp].
      assert (Hs : (0 <= scaled m e)%Z).
      { unfold scaled. apply Z.mul_nonneg_nonneg; [lia|].
        apply Z.pow_nonneg. lia. }
      assert (Hp : (0 <= z * 2 ^ (- emin))%Z).
      { apply Z.mul_nonneg_nonneg; [exact Hz|]. apply Z.pow_nonneg. lia. }
      destruct (z * 2 ^ (- emin) ?= - scaled m e)%Z eqn:C; try reflexivity.
      change (z * 2 ^ (- emin) < - scaled m e)%Z in C. lia.
  - intros Hy Hw. rewrite ltb_spec in *.
    change (Prim2SF 0) with (S754_zero false) in *.
    now apply not_negative_not_below.
Qed.

End Conversion.

(** * Rounding above a float *)

Section RoundingAbove.
Local Open Scope Z_scope.

(** The exponent that rounding gives a number above a float is at least the
    exponent of that float. *)
Lemma fexp_ge_bound (k mF : positive) (e eF : Z) :
  emin <= e -> bounded prec emax mF eF = true ->
  scaled mF eF <= scaled k e ->
  eF <= fexp prec emax (Zpos (digits2_pos k) + e).
Proof.
  intros He HF H. unfold scaled in H.
  pose proof (bounded_facts mF eF HF) as (HeF & _ & _).
  rewrite <- (bounded_canonical mF eF HF) at 1. apply fexp_mono.
  pose proof (digits2_pos_bounds k) as Bk.
  pose proof (digits2_pos_bounds mF) as BF.
  set (dk := Zpos (digits2_pos k)) in *.
  set (dF := Zpos (digits2_pos mF)) in *.
  assert (Hlt : 2 ^ (dF - 1 + (eF - emin)) < 2 ^ (dk + (e - emin))).
  { rewrite !Z.pow_add_r by lia.
    pose proof (pow2_pos (e - emin) ltac:(lia)).
    pose proof (pow2_pos (eF - emin) ltac:(lia)).
    nia. }
  apply Z.pow_lt_mono_r_iff in Hlt; lia.
Qed.

(** Rounding a number that is at least a float gives at least that float. *)
Lemma binary_round_ge (s : bool) (k mF : positive) (e eF : Z) :
  emin <= e -> bounded prec emax mF eF = true ->
  scaled mF eF <= scaled k e ->
  ge_finite s (binary_round prec emax s k e) mF eF.
Proof.
  intros He HF H.
  pose proof (fexp_ge_bound k mF e eF He HF H) as Ht.
  pose proof (bounded_facts mF eF HF) as (HeF & HdF & _).
  pose proof (digits2_pos_bounds k) as Bk.
  unfold scaled in H.
  set (t := fexp prec emax (Zpos (digits2_pos k) + e)) in *.
  destruct (Z.le_gt_cases t e) as [Hte|Hte].
  - rewrite binary_round_exact by exact Hte. fold t.
    destruct (Z.leb_spec t (emax - prec)); [|now left].
    right. eexists _, _. split; [reflexivity|].
    destruct (Z.eq_dec t eF) as [E|N]; [right; split; [exact E|] | left; lia].
    rewrite shl_align_value by exact Hte.
    replace (e - emin) with ((e - t) + (t - emin)) in H by lia.
    rewrite Z.pow_add_r, E in H by lia.
    pose proof (pow2_pos (eF - emin) ltac:(lia)).
    rewrite E. nia.
  - assert (Hdk : Zpos (digits2_pos k) = prec + (t - e))
      by (unfold t, fexp in *; lia).
    unfold binary_round, shl_align. fold t.
    destruct (t - e) as [|p|p] eqn:Hp; try lia.
    unfold binary_round_aux, shr_fexp. cbn [Zdigits2]. fold t.
    rewrite Hp. cbn [shr shr_record_of_loc].
    set (mrs := iter_pos shr_1 p (Build_shr_record (Zpos k) false false)).
    assert (Hm1 : shr_m mrs = Zpos k / 2 ^ Zpos p)
      by (unfold mrs; rewrite iter_shr_1_m; cbn [shr_m]; [reflexivity|lia]).
    pose proof (pow2_pos (Zpos p) ltac:(lia)) as HP.
    assert (Bm1 : 2 ^ 52 <= Zpos k / 2 ^ Zpos p < 2 ^ 53).
    { rewrite Hdk in Bk. unfold prec in Bk.
      replace (53 + Zpos p - 1) with (52 + Zpos p) in Bk by lia.
      rewrite !Z.pow_add_r in Bk by lia.
      split; [apply Z.div_le_lower_bound | apply Z.div_lt_upper_bound]; lia. }
    replace (e + Zpos p) with t by lia. rewrite Hm1.
    assert (Hemin : emin <= t) by lia.
    assert (Hsame : eF = t -> Zpos mF <= Zpos k / 2 ^ Zpos p).
    { intros E. rewrite E in H.
      replace (t - emin) with (Zpos p + (e - emin)) in H by lia.
      rewrite Z.pow_add_r in H by lia.
      pose proof (pow2_pos (e - emin) ltac:(lia)).
      apply Z.div_le_lower_bound; [lia|]. nia. }
    assert (Hround :
              round_nearest_even (Zpos k / 2 ^ Zpos p)
                (loc_of_shr_record mrs)
              = Zpos k / 2 ^ Zpos p
              \/ round_nearest_even (Zpos k / 2 ^ Zpos p)
                   (loc_of_shr_record mrs)
                 = Zpos k / 2 ^ Zpos p + 1).
    { destruct (round_nearest_even_cases (Zpos k / 2 ^ Zpos p) mrs)
        as [R|(R & _)]; [left | right]; exact R. }
    set (m2 := round_nearest_even (Zpos k / 2 ^ Zpos p)
                 (loc_of_shr_record mrs)) in *.
    assert (Bm2 : 2 ^ 52 <= m2 <= 2 ^ 53) by lia.
    destruct m2 as [|q2|q2] eqn:Hm2; try lia. cbn [Zdigits2].
    destruct (Z.eq_dec (Zpos q2) (2 ^ 53)) as [Hcarry|Hno].
    + rewrite (digits2_pos_unique q2 54) by (rewrite Hcarry; cbn; lia).
      replace (fexp prec emax (54 + t) - t) with 1
        by (unfold fexp; rewrite emin_value in *; unfold prec; lia).
      cbn [shr iter_pos]. rewrite Hcarry. cbn [shr_1 shr_m Z.pow Z.pow_pos
        Pos.iter Z.mul Pos.mul].
      destruct (Z.leb_spec (t + 1) (emax - prec)); [|now left].
      right. eexists _, _. split; [reflexivity|]. left. lia.
    + rewrite (digits2_pos_unique q2 53) by (cbn; lia).
      replace (fexp prec emax (53 + t) - t) with 0
        by (unfold fexp; rewrite emin_value in *; unfold prec; lia).
      cbn [shr shr_m].
      destruct (Z.leb_spec t (emax - prec)); [|now left].
      right. eexists _, _. split; [reflexivity|].
      destruct (Z.eq_dec eF t) as [E|N]; [right; split; [lia|] | left; lia].
      specialize (Hsame E). lia.
Qed.

(** Rounding the value of a float gives that float. *)
Lemma binary_round_value (s : bool) (k mF : positive) (e eF : Z) :
  emin <= e -> bounded prec emax mF eF = true ->
  scaled k e = scaled mF eF ->
  binary_round prec emax s k e = S754_finite s mF eF.
Proof.
  intros He HF H.
  destruct (binary_round_le s k mF e eF He HF ltac:(lia))
    as (m & e' & E & Hle).
  destruct (binary_round_ge s k mF e eF He HF ltac:(lia))
    as [E'|(m' & e'' & E' & Hge)]; rewrite E in E'; [discriminate|].
  injection E' as <- <-. rewrite E. f_equal; lia.
Qed.

End RoundingAbove.

(** * Sums and differences that are exact *)

Section Exact.
Local Open Scope Z_scope.

(** A float of magnitude at least that of another is not below it. *)
Lemma ge_finite_not_below (x : spec_float) (mw : positive) (ew : Z) :
  ge_finite false x mw ew -> SFltb x (S754_finite false mw ew) = false.
Proof.
  intros [->|(m & e & -> & H)]; [reflexivity|].
  unfold SFltb. cbn [SFcompare]. destruct H as [H|(-> & H)].
  - apply Z.compare_gt_iff in H. now rewrite H.
  - rewrite Z.compare_refl.
    change (Pos.compare_cont Eq m mw) with (m ?= mw)%positive.
    destruct (m ?= mw)%positive eqn:E; try reflexivity.
    rewrite Pos.compare_lt_iff in E. lia.
Qed.

(** The value of a valid float is positive. *)
Lemma scaled_pos (m : positive) (e : Z) : emin <= e -> 0 < scaled m e.
Proof.
  intros H. unfold scaled. apply Z.mul_pos_pos; [lia|]. apply pow2_pos. lia.
Qed.

(** Adding [y], not [<= 0], to [x], not negative, gives a sum that is not
    below [y]. *)
Lemma SFadd_not_below_amount (x y : spec_float) :
  valid_binary x = true -> valid_binary y = true ->
  SFltb x (S754_zero false) = false ->
  SFleb y (S754_zero false) = false ->
  SFltb (SF64add x y) y = false.
Proof.
  intros Vx Vy Hx Hy.
  destruct x as [sx|sx| |sx mx ex], y as [sy|sy| |sy my ey];
    try discriminate Hy; try reflexivity;
    try (destruct sx; try discriminate Hx);
    try (destruct sy; try discriminate Hy);
    try reflexivity.
  - unfold SF64add, SFadd, SFltb. rewrite SFcompare_refl; reflexivity.
  - unfold SF64add, SFadd, SFltb. rewrite SFcompare_refl; reflexivity.
  - cbn [valid_binary] in Vx, Vy.
    pose proof (bounded_facts mx ex Vx) as (Hex & _).
    pose proof (bounded_facts my ey Vy) as (Hey & _).
    unfold SF64add, SFadd. cbn [cond_Zopp Z.add binary_normalize].
    apply ge_finite_not_below, binary_round_ge; [lia | exact Vy |].
    rewrite (scaled_aligned my ey (Z.min ex ey)) by lia.
    unfold scaled. rewrite Pos2Z.inj_add.
    pose proof (pow2_pos (Z.min ex ey - emin) ltac:(lia)). nia.
Qed.

End Exact.

Section PrimitiveExact.
Local Open Scope float_scope.

(** For [b] not negative and [a] not [<= 0], [b + a] is not below [a]. *)
Lemma add_not_below_amount (b a : float) :
  (b <? 0) = false -> (a <=? 0) = false -> gtb a (b + a) = false.
Proof.
  unfold gtb. rewrite !ltb_spec, leb_spec, add_spec.
  change (Prim2SF 0) with (S754_zero false).
  apply SFadd_not_below_amount; apply Prim2SF_valid.
Qed.

End PrimitiveExact.

(** * Integers below [2 ^ 53] *)

Section Integers.
Local Open Scope Z_scope.

(** An integer below [2 ^ 53] in magnitude is a float: rounding it loses
    nothing, whatever the sign. *)
Lemma binary_round_integer (k : positive) :
  Zpos k < 2 ^ 53 ->
  exists m t,
    bounded prec emax m t = true
    /\ scaled m t = Zpos k * 2 ^ (- emin)
    /\ forall s, binary_round prec emax s k 0 = S754_finite s m t.
Proof.
  intros Hk. pose proof (digits2_pos_bounds k) as Bk.
  assert (Hd : Zpos (digits2_pos k) <= 53).
  { assert (H : 2 ^ (Zpos (digits2_pos k) - 1) < 2 ^ 53) by lia.
    apply Z.pow_lt_mono_r_iff in H; lia. }
  set (t := fexp prec emax (Zpos (digits2_pos k) + 0)).
  assert (Ht : t <= 0)
    by (unfold t, fexp; rewrite emin_value; unfold prec; lia).
  assert (Hmax : t <= emax - prec) by (unfold emax, prec; lia).
  assert (Hmin : emin <= t) by (unfold t, fexp; lia).
  assert (E : forall s, binary_round prec emax s k 0
                        = S754_finite s (fst (shl_align k 0 t)) t).
  { intros s. rewrite binary_round_exact by exact Ht. fold t.
    destruct (Z.leb_spec t (emax - prec)); [reflexivity | lia]. }
  exists (fst (shl_align k 0 t)), t. split; [|split; [|exact E]].
  - pose proof (binary_round_valid false k 0 ltac:(rewrite emin_value; lia))
      as V.
    rewrite E in V. exact V.
  - unfold scaled. rewrite <- (scaled_aligned k 0 t) by lia.
    unfold scaled. now rewrite Z.sub_0_l.
Qed.

(** The float of an integer below [2 ^ 53] in magnitude has that integer
    for value. *)
Lemma float_of_int_exact (z : Z) :
  Z.abs z < 2 ^ 53 ->
  exists x,
    float_of_int z = Some x
    /\ Prim2SF x = binary_normalize prec emax z 0 false
    /\ valid_binary (Prim2SF x) = true
    /\ svalue (Prim2SF x) = z * 2 ^ (- emin)
    /\ match z with
       | 0 => Prim2SF x = S754_zero false
       | Zpos k => exists m t, Prim2SF x = S754_finite false m t
       | Zneg k => exists m t, Prim2SF x = S754_finite true m t
       end.
Proof.
  intros Hz.
  assert (E : exists sf,
             binary_normalize prec emax z 0 false = sf
             /\ valid_binary sf = true
             /\ svalue sf = z * 2 ^ (- emin)
             /\ match z with
                | 0 => sf = S754_zero false
                | Zpos k => exists m t, sf = S754_finite false m t
                | Zneg k => exists m t, sf = S754_finite true m t
                end).
  { destruct z as [|k|k]; cbn [binary_normalize].
    - eexists. repeat split.
    - destruct (binary_round_integer k ltac:(lia)) as (m & t & V & S & R).
      rewrite R. eexists. split; [reflexivity|]. split; [exact V|].
      split; [exact S | eauto].
    - destruct (binary_round_integer k ltac:(lia)) as (m & t & V & S & R).
      rewrite R. eexists. split; [reflexivity|]. split; [exact V|].
      split; [|eauto]. cbn [svalue cond_Zopp]. rewrite S. lia. }
  destruct E as (sf & E & V & S & Hshape).
  assert (Hfin : SFis_finite sf = true).
  { destruct z; [rewrite Hshape | destruct Hshape as (m & t & ->)
                 | destruct Hshape as (m & t & ->)]; reflexivity. }
  exists (SF2Prim sf). unfold float_of_int. rewrite E.
  rewrite (Prim2SF_SF2Prim _ V).
  split; [destruct sf; try discriminate; reflexivity|].
  repeat split; assumption.
Qed.

(** [binary_normalize] at a mantissa and an exponent whose value is that of
    a float gives that float, [+0] for 0. *)
Lemma binary_normalize_value (D ez : Z) (r : spec_float) :
  emin <= ez -> valid_binary r = true ->
  D * 2 ^ (ez - emin) = svalue r ->
  match r with
  | S754_zero s => s = false
  | S754_finite _ _ _ => True
  | _ => False
  end ->
  binary_normalize prec emax D ez false = r.
Proof.
  intros Hez V Hv Hr. pose proof (pow2_pos (ez - emin) ltac:(lia)) as HP.
  destruct r as [s|s| |s m e]; try contradiction.
  - subst s. cbn [svalue] in Hv.
    destruct D as [|K|K]; [reflexivity|lia|lia].
  - cbn [valid_binary] in V.
    pose proof (bounded_facts m e V) as (He & _).
    pose proof (scaled_pos m e He) as Hs.
    cbn [svalue] in Hv.
    destruct D as [|K|K]; cbn [binary_normalize].
    + destruct s; cbn [cond_Zopp] in Hv; lia.
    + destruct s; cbn [cond_Zopp] in Hv; [lia|].
      apply binary_round_value; [exact Hez | exact V | exact Hv].
    + destruct s; cbn [cond_Zopp] in Hv; [|lia].
      apply binary_round_value; [exact Hez | exact V |].
      unfold scaled at 1. lia.
Qed.

(** The sum and the difference of two finite floats, not zero, when the sum
    and the difference of their values are the values of floats. *)
Lemma SFadd_finite_exact (sx sy : bool) (mx my : positive) (ex ey : Z)
    (r : spec_float) :
  bounded prec emax mx ex = true -> bounded prec emax my ey = true ->
  valid_binary r = true ->
  svalue (S754_finite sx mx ex) + svalue (S754_finite sy my ey) = svalue r ->
  match r with
  | S754_zero s => s = false
  | S754_finite _ _ _ => True
  | _ => False
  end ->
  SF64add (S754_finite sx mx ex) (S754_finite sy my ey) = r.
Proof.
  intros Vx Vy Vr Hv Hr.
  pose proof (bounded_facts mx ex Vx) as (Hex & _).
  pose proof (bounded_facts my ey Vy) as (Hey & _).
  unfold SF64add, SFadd.
  apply binary_normalize_value; [lia | exact Vr | | exact Hr].
  rewrite <- Hv. cbn [svalue].
  rewrite (scaled_aligned mx ex (Z.min ex ey)) by lia.
  rewrite (scaled_aligned my ey (Z.min ex ey)) by lia.
  destruct sx, sy; cbn [cond_Zopp]; ring.
Qed.

Lemma SFsub_finite_exact (sx sy : bool) (mx my : positive) (ex ey : Z)
    (r : spec_float) :
  bounded prec emax mx ex = true -> bounded prec emax my ey = true ->
  valid_binary r = true ->
  svalue (S754_finite sx mx ex) - svalue (S754_finite sy my ey) = svalue r ->
  match r with
  | S754_zero s => s = false
  | S754_finite _ _ _ => True
  | _ => False
  end ->
  SF64sub (S754_finite sx mx ex) (S754_finite sy my ey) = r.
Proof.
  intros Vx Vy Vr Hv Hr.
  pose proof (bounded_facts mx ex Vx) as (Hex & _).
  pose proof (bounded_facts my ey Vy) as (Hey & _).
  unfold SF64sub, SFsub.
  apply binary_normalize_value; [lia | exact Vr | | exact Hr].
  rewrite <- Hv. cbn [svalue].
  rewrite (scaled_aligned mx ex (Z.min ex ey)) by lia.
  rewrite (scaled_aligned my ey (Z.min ex ey)) by lia.
  destruct sx, sy; cbn [cond_Zopp]; ring.
Qed.

End Integers.

Section PrimitiveIntegers.
Local Open Scope float_scope.

(** What [float_of_int] gives an integer below [2 ^ 53] in magnitude. *)
Lemma float_of_int_shape (z : Z) (x : float) :
  (Z.abs z < 2 ^ 53)%Z -> float_of_int z = Some x ->
  valid_binary (Prim2SF x) = true
  /\ svalue (Prim2SF x) = (z * 2 ^ (- emin))%Z
  /\ match z with
     | 0%Z => Prim2SF x = S754_zero false
     | Zpos k => exists m t, Prim2SF x = S754_finite false m t
     | Zneg k => exists m t, Prim2SF x = S754_finite true m t
     end.
Proof.
  intros Hz Hx. destruct (float_of_int_exact z Hz) as (x' & Hx' & _ & H).
  rewrite Hx in Hx'. injection Hx' as <-. exact H.
Qed.

(** Such a float is [+0] or a finite float. *)
Lemma float_of_int_normal (z : Z) (x : float) :
  (Z.abs z < 2 ^ 53)%Z -> float_of_int z = Some x ->
  match Prim2SF x with
  | S754_zero s => s = false
  | S754_finite _ _ _ => True
  | _ => False
  end.
Proof.
  intros Hz Hx. destruct (float_of_int_shape z x Hz Hx) as (_ & _ & H).
  destruct z; [rewrite H | destruct H as (m & t & ->)
               | destruct H as (m & t & ->)]; exact I || reflexivity.
Qed.

(** The sum of the floats of two integers is the float of their sum, as
    long as the three integers are below [2 ^ 53] in magnitude. *)
Lemma float_of_int_add (z1 z2 : Z) (x1 x2 x3 : float) :
  (Z.abs z1 < 2 ^ 53)%Z -> (Z.abs z2 < 2 ^ 53)%Z ->
  (Z.abs (z1 + z2) < 2 ^ 53)%Z ->
  float_of_int z1 = Some x1 -> float_of_int z2 = Some x2 ->
  float_of_int (z1 + z2) = Some x3 ->
  x1 + x2 = x3.
Proof.
  intros H1 H2 H3 E1 E2 E3. apply Prim2SF_inj. rewrite add_spec.
  destruct (float_of_int_shape z1 x1 H1 E1) as (V1 & S1 & Sh1).
  destruct (float_of_int_shape z2 x2 H2 E2) as (V2 & S2 & Sh2).
  destruct (float_of_int_shape _ x3 H3 E3) as (V3 & S3 & _).
  pose proof (float_of_int_normal _ x3 H3 E3) as N3.
  destruct (Z.eq_dec z1 0) as [->|N1].
  { cbn [Z.add] in E3. rewrite E2 in E3. injection E3 as <-. rewrite Sh1.
    pose proof (float_of_int_normal z2 x2 H2 E2) as N2.
    destruct (Prim2SF x2) as [s|s| |s m e]; try contradiction;
      [subst s|]; reflexivity. }
  destruct (Z.eq_dec z2 0) as [->|N2].
  { rewrite Z.add_0_r in E3. rewrite E1 in E3. injection E3 as <-.
    rewrite Sh2.
    pose proof (float_of_int_normal z1 x1 H1 E1) as N1'.
    destruct (Prim2SF x1) as [s|s| |s m e]; try contradiction;
      [subst s|]; reflexivity. }
  assert (F1 : exists s m e, Prim2SF x1 = S754_finite s m e)
    by (destruct z1; [lia | |]; destruct Sh1 as (m & t & ->); eauto).
  assert (F2 : exists s m e, Prim2SF x2 = S754_finite s m e)
    by (destruct z2; [lia | |]; destruct Sh2 as (m & t & ->); eauto).
  destruct F1 as (s1 & m1 & e1 & F1), F2 as (s2 & m2 & e2 & F2).
  rewrite F1, F2 in *. cbn [valid_binary] in V1, V2.
  apply SFadd_finite_exact; try assumption.
  rewrite S1, S2, S3. ring.
Qed.

(** So is their difference. *)
Lemma float_of_int_sub (z1 z2 : Z) (x1 x2 x3 : float) :
  (Z.abs z1 < 2 ^ 53)%Z -> (Z.abs z2 < 2 ^ 53)%Z ->
  (Z.abs (z1 - z2) < 2 ^ 53)%Z ->
  float_of_int z1 = Some x1 -> float_of_int z2 = Some x2 ->
  float_of_int (z1 - z2) = Some x3 ->
  x1 - x2 = x3.
Proof.
  intros H1 H2 H3 E1 E2 E3. apply Prim2SF_inj. rewrite sub_spec.
  destruct (float_of_int_shape z1 x1 H1 E1) as (V1 & S1 & Sh1).
  destruct (float_of_int_shape z2 x2 H2 E2) as (V2 & S2 & Sh2).
  destruct (float_of_int_shape _ x3 H3 E3) as (V3 & S3 & Sh3).
  pose proof (float_of_int_normal _ x3 H3 E3) as N3.
  destruct (Z.eq_dec z2 0) as [->|N2].
  { rewrite Z.sub_0_r in E3. rewrite E1 in E3. injection E3 as <-.
    rewrite Sh2.
    pose proof (float_of_int_normal z1 x1 H1 E1) as N1'.
    destruct (Prim2SF x1) as [s|s| |s m e]; try contradiction;
      [subst s|]; reflexivity. }
  assert (F2 : exists s m e, Prim2SF x2 = S754_finite s m e)
    by (destruct z2; [lia | |]; destruct Sh2 as (m & t & ->); eauto).
  destruct F2 as (s2 & m2 & e2 & F2).
  destruct (Z.eq_dec z1 0) as [->|N1].
  { destruct (float_of_int_spec z2 x2 E2) as (B2 & _).
    destruct (float_of_int_spec _ x3 E3) as (B3 & _).
    rewrite Sh1, B2, B3.
    destruct z2 as [|k|k]; [lia| |]; cbn [Z.sub Z.add Z.opp binary_normalize];
      destruct (binary_round_integer k ltac:(lia)) as (m & t & _ & _ & R);
      rewrite !R; reflexivity. }
  assert (F1 : exists s m e, Prim2SF x1 = S754_finite s m e)
    by (destruct z1; [lia | |]; destruct Sh1 as (m & t & ->); eauto).
  destruct F1 as (s1 & m1 & e1 & F1).
  rewrite F1, F2 in *. cbn [valid_binary] in V1, V2.
  apply SFsub_finite_exact; try assumption.
  rewrite S1, S2, S3. ring.
Qed.

End PrimitiveIntegers.

Section IntegerOrder.
Local Open Scope Z_scope.

(** Two valid finite floats compare as their values do. *)
Lemma SFcompare_svalue (sx sy : bool) (mx my : positive) (ex ey : Z) :
  bounded prec emax mx ex = true -> bounded prec emax my ey = true ->
  SFcompare (S754_finite sx mx ex) (S754_finite sy my ey)
  = Some (svalue (S754_finite sx mx ex) ?= svalue (S754_finite sy my ey)).
Proof.
  intros Vx Vy.
  pose proof (bounded_facts mx ex Vx) as (Hex & _).
  pose proof (bounded_facts my ey Vy) as (Hey & _).
  pose proof (scaled_pos mx ex Hex) as Px.
  pose proof (scaled_pos my ey Hey) as Py.
  cbn [svalue]. destruct sx, sy; cbn [cond_Zopp].
  - rewrite SFcompare_negative, (SFcompare_scaled mx my ex ey Vx Vy).
    cbn [option_map]. f_equal. rewrite Z.compare_opp.
    symmetry. apply Z.compare_antisym.
  - cbn [SFcompare]. f_equal. symmetry. apply Z.compare_lt_iff. lia.
  - cbn [SFcompare]. f_equal. symmetry. apply Z.compare_gt_iff. lia.
  - apply SFcompare_scaled; assumption.
Qed.

End IntegerOrder.

Section PrimitiveIntegerOrder.
Local Open Scope float_scope.

(** An [int] is compared with the float of an integer below [2 ^ 53] in
    magnitude as with that integer. *)
Lemma compare_int_float_exact (z' z : Z) (x : float) :
  (Z.abs z < 2 ^ 53)%Z -> float_of_int z = Some x ->
  compare_int_float z' x = Some (z' ?= z)%Z.
Proof.
  intros Hz Hx. destruct (float_of_int_shape z x Hz Hx) as (V & S & Sh).
  unfold compare_int_float.
  assert (HP : (0 < 2 ^ (- emin))%Z) by (apply pow2_pos; rewrite emin_value; lia).
  destruct z as [|k|k].
  - rewrite Sh. reflexivity.
  - destruct Sh as (m & t & E). rewrite E in *. cbn [svalue] in S.
    rewrite S. f_equal. symmetry. apply Zmult_compare_compat_r. lia.
  - destruct Sh as (m & t & E). rewrite E in *. cbn [svalue] in S.
    rewrite S. f_equal. symmetry. apply Zmult_compare_compat_r. lia.
Qed.

(** An [int] below [2 ^ 53] in magnitude is above a float exactly when its
    float is. *)
Lemma gt_float_small_int (z : Z) (b x : float) :
  (Z.abs z < 2 ^ 53)%Z -> float_of_int z = Some x ->
  gt_float (PyInt z) b = gtb x b.
Proof.
  intros Hz Hx. destruct (float_of_int_shape z x Hz Hx) as (V & S & Sh).
  cbn [gt_float]. unfold gtb, compare_int_float. rewrite ltb_spec.
  pose proof (Prim2SF_valid b) as Vb.
  assert (HP : (0 < 2 ^ (- emin))%Z) by (apply pow2_pos; rewrite emin_value; lia).
  destruct (Prim2SF b) as [sb|sb| |sb mb eb].
  - destruct z as [|k|k]; [rewrite Sh | destruct Sh as (m & t & ->)
                           | destruct Sh as (m & t & ->)]; reflexivity.
  - destruct z as [|k|k]; [rewrite Sh | destruct Sh as (m & t & ->)
                           | destruct Sh as (m & t & ->)];
      destruct sb; reflexivity.
  - destruct (Prim2SF x); reflexivity.
  - cbn [valid_binary] in Vb.
    pose proof (bounded_facts mb eb Vb) as (Heb & _).
    pose proof (scaled_pos mb eb Heb) as Pb.
    destruct z as [|k|k].
    + rewrite Sh. destruct sb; cbn [cond_Zopp SFltb SFcompare].
      * destruct (0 * 2 ^ (- emin) ?= - scaled mb eb)%Z eqn:C;
          try reflexivity;
          [apply Z.compare_eq in C | change (0 * 2 ^ (- emin) < - scaled mb eb)%Z in C];
          lia.
      * destruct (0 * 2 ^ (- emin) ?= scaled mb eb)%Z eqn:C;
          try reflexivity.
        apply Z.compare_gt_iff in C. lia.
    + destruct Sh as (m & t & E). rewrite E in *. cbn [valid_binary] in V.
      unfold SFltb. rewrite (SFcompare_svalue _ _ _ _ _ _ Vb V).
      rewrite S. cbn [svalue].
      rewrite (Z.compare_antisym (Z.pos k * 2 ^ (- emin))).
      destruct (Z.pos k * 2 ^ (- emin) ?= cond_Zopp sb (scaled mb eb))%Z;
        reflexivity.
    + destruct Sh as (m & t & E). rewrite E in *. cbn [valid_binary] in V.
      unfold SFltb. rewrite (SFcompare_svalue _ _ _ _ _ _ Vb V).
      rewrite S. cbn [svalue].
      rewrite (Z.compare_antisym (Z.neg k * 2 ^ (- emin))).
      destruct (Z.neg k * 2 ^ (- emin) ?= cond_Zopp sb (scaled mb eb))%Z;
        reflexivity.
Qed.

End PrimitiveIntegerOrder.

(** * The two account classes *)

(** ** Construction *)

(** When [Account.__init__] returns. *)
Lemma account_init_returns (h : string) (b0 : number) (a : Account.t) :
  Account.__init__ h b0 = Returns a ->
  exists x0,
    lt_zero b0 = false /\ to_float b0 = Some x0 /\ a = Account.mk h x0 [].
Proof.
  unfold Account.__init__. destruct (lt_zero b0); [discriminate|].
  destruct (to_float b0) as [x0|]; [|discriminate]. intros [= <-].
  exists x0. repeat split.
Qed.

(** When [CreditAccount.__init__] returns: its own checks pass, the limit is
    converted, and [Account.__init__] returns. *)
Lemma credit_init_returns (h : string) (b0 L : number)
    (c : CreditAccount.t) :
  CreditAccount.__init__ h b0 L = Returns c ->
  exists x0 l,
    lt_zero L = false /\ to_float L = Some l
    /\ lt_float b0 (- l) = false
    /\ lt_zero b0 = false /\ to_float b0 = Some x0
    /\ c = CreditAccount.mk (Account.mk h x0 []) l.
Proof.
  unfold CreditAccount.__init__.
  destruct (lt_zero L) eqn:HL; [discriminate|].
  destruct (to_float L) as [l|]; [|discriminate].
  destruct (lt_float b0 (- l)) eqn:Hbl; [discriminate|].
  destruct (Account.__init__ h b0) as [a|e] eqn:Ha; [|discriminate].
  intros [= <-]. apply account_init_returns in Ha.
  destruct Ha as (x0 & Hb & Hx & ->). exists x0, l.
  repeat split; assumption.
Qed.

(** A negative initial balance always makes [CreditAccount.__init__] raise:
    when its own checks pass, [Account.__init__] rejects the balance. *)
Lemma credit_init_negative_raises (h : string) (b L : number) :
  lt_zero b = true -> exists e, CreditAccount.__init__ h b L = Raises e.
Proof.
  intros Hb. unfold CreditAccount.__init__, Account.__init__.
  destruct (lt_zero L); [eauto|].
  destruct (to_float L) as [l|]; [|eauto].
  destruct (lt_float b (- l)); [eauto|].
  rewrite Hb. eauto.
Qed.

(** C1: the claim says that [CreditAccount("Bob", -30, 50)] is constructed,
    since [50 >= 0] and [-30 >= -50].  The code passes its own two checks
    and then raises in [Account.__init__], whose check [balance < 0] rejects
    every negative balance: with the arguments given as [float]s, and with
    the [int]s of the claim. *)
Theorem C1_credit_init_negative_balance :
  geb 50 0 = true /\ geb (-30) (- (50)) = true
  /\ CreditAccount.__init__ "Bob" (PyFloat (-30)) (PyFloat 50)
     = Raises (ValueError "Начальный баланс не может быть отрицательным")
  /\ lt_zero (PyInt 50) = false
  /\ lt_float (PyInt (-30)) (- (50)) = false
  /\ CreditAccount.__init__ "Bob" (PyInt (-30)) (PyInt 50)
     = Raises (ValueError "Начальный баланс не может быть отрицательным").
Proof. repeat split; reflexivity. Qed.

(** ** One call *)

(** The four methods, unfolded to their branches. *)
Ltac unfold_methods :=
  unfold Account.deposit, Account.withdraw, CreditAccount.deposit,
    CreditAccount.withdraw, add_float, sub_float in *.

(** The facts about the state and the record that a branch leaves. *)
Ltac record_facts :=
  unfold failed_call, credit_failed_call, credit_succeeded_call,
    succeeded_call, overflowed_call,
    CreditAccount._add_operation, Account._add_operation,
    CreditAccount.set_balance, CreditAccount.get_available_credit,
    CreditAccount.holder, CreditAccount._balance,
    CreditAccount.operations_history, is_fail, is_success;
  cbn [CreditAccount.account CreditAccount._credit_limit Account.holder
       Account._balance Account.operations_history];
  repeat first [ split | eexists ]; reflexivity.

(** A non-positive amount makes [Account.deposit] fail. *)
Lemma deposit_non_positive (a : Account.t) (amount : number)
    (now : datetime) :
  le_zero amount = true ->
  failed_call a (Account.deposit a amount now) "Amount must be positive".
Proof. intros H. unfold_methods. rewrite H. record_facts. Qed.

(** A non-positive amount makes [Account.withdraw] fail. *)
Lemma withdraw_non_positive (a : Account.t) (amount : number)
    (now : datetime) :
  le_zero amount = true ->
  failed_call a (Account.withdraw a amount now) "Amount must be positive".
Proof. intros H. unfold_methods. rewrite H. record_facts. Qed.

(** An amount above the balance makes [Account.withdraw] fail. *)
Lemma withdraw_insufficient (a : Account.t) (amount : number)
    (now : datetime) :
  le_zero amount = false ->
  gt_float amount (Account._balance a) = true ->
  failed_call a (Account.withdraw a amount now) "Insufficient funds".
Proof. intros Hpos Hgt. unfold_methods. rewrite Hpos, Hgt. record_facts. Qed.

(** A non-positive amount makes [CreditAccount.deposit] fail. *)
Lemma credit_deposit_non_positive (c : CreditAccount.t) (amount : number)
    (now : datetime) :
  le_zero amount = true ->
  credit_failed_call c (CreditAccount.deposit c amount now)
    "Amount must be positive".
Proof. intros H. unfold_methods. rewrite H. record_facts. Qed.

(** A non-positive amount makes [CreditAccount.withdraw] fail. *)
Lemma credit_withdraw_non_positive (c : CreditAccount.t) (amount : number)
    (now : datetime) :
  le_zero amount = true ->
  credit_failed_call c (CreditAccount.withdraw c amount now)
    "Amount must be positive".
Proof. intros H. unfold_methods. rewrite H. record_facts. Qed.

(** An amount that would take the balance below the limit makes
    [CreditAccount.withdraw] fail. *)
Lemma credit_withdraw_exceeded (c : CreditAccount.t) (amount : number)
    (new_balance : float) (now : datetime) :
  le_zero amount = false ->
  sub_float (CreditAccount._balance c) amount = Some new_balance ->
  (new_balance <? - CreditAccount._credit_limit c)%float = true ->
  credit_failed_call c (CreditAccount.withdraw c amount now)
    "Credit limit exceeded".
Proof.
  intros Hpos Hsub Hlt. unfold CreditAccount.withdraw.
  rewrite Hpos, Hsub, Hlt. record_facts.
Qed.

(** An amount within the limit makes [CreditAccount.withdraw] succeed. *)
Lemma credit_withdraw_within (c : CreditAccount.t) (amount : number)
    (new_balance : float) (now : datetime) :
  le_zero amount = false ->
  sub_float (CreditAccount._balance c) amount = Some new_balance ->
  (new_balance <? - CreditAccount._credit_limit c)%float = false ->
  credit_succeeded_call c (CreditAccount.withdraw c amount now)
    new_balance (new_balance <? 0)%float.
Proof.
  intros Hpos Hsub Hlt. unfold CreditAccount.withdraw.
  rewrite Hpos, Hsub, Hlt. record_facts.
Qed.

(** An amount that passes the guard makes [CreditAccount.deposit] succeed. *)
Lemma credit_deposit_positive (c : CreditAccount.t) (amount : number)
    (new_balance : float) (now : datetime) :
  le_zero amount = false ->
  add_float (CreditAccount._balance c) amount = Some new_balance ->
  credit_succeeded_call c (CreditAccount.deposit c amount now)
    new_balance (CreditAccount._balance c <? 0)%float.
Proof.
  intros Hpos Hadd. unfold CreditAccount.deposit.
  rewrite Hpos, Hadd. record_facts.
Qed.

(** An amount that passes the guard makes [Account.deposit] succeed. *)
Lemma deposit_positive (a : Account.t) (amount : number)
    (new_balance : float) (now : datetime) :
  le_zero amount = false ->
  add_float (Account._balance a) amount = Some new_balance ->
  succeeded_call a (Account.deposit a amount now) new_balance.
Proof.
  intros Hpos Hadd. unfold Account.deposit. rewrite Hpos, Hadd. record_facts.
Qed.

(** An amount within the balance makes [Account.withdraw] succeed. *)
Lemma withdraw_within (a : Account.t) (amount : number)
    (new_balance : float) (now : datetime) :
  le_zero amount = false ->
  gt_float amount (Account._balance a) = false ->
  sub_float (Account._balance a) amount = Some new_balance ->
  succeeded_call a (Account.withdraw a amount now) new_balance.
Proof.
  intros Hpos Hgt Hsub. unfold Account.withdraw.
  rewrite Hpos, Hgt, Hsub. record_facts.
Qed.

(** An [int] that [float] cannot convert, once past the tests that come
    before the arithmetic, makes each method raise, the object left as it
    was. *)
Lemma call_overflows (a : Account.t) (c : CreditAccount.t) (amount : number)
    (now : datetime) :
  le_zero amount = false -> to_float amount = None ->
  overflowed_call a (Account.deposit a amount now)
  /\ (gt_float amount (Account._balance a) = false ->
      overflowed_call a (Account.withdraw a amount now))
  /\ overflowed_call c (CreditAccount.deposit c amount now)
  /\ overflowed_call c (CreditAccount.withdraw c amount now).
Proof.
  intros Hpos Hx. unfold_methods. rewrite Hpos, Hx.
  repeat split. intros ->. reflexivity.
Qed.

(** A [float] is converted to itself: no call with a [float] raises. *)
Lemma float_call_returns (a : Account.t) (c : CreditAccount.t) (x : float)
    (now : datetime) :
  (exists a', Account.deposit a (PyFloat x) now = Done a')
  /\ (exists a', Account.withdraw a (PyFloat x) now = Done a')
  /\ (exists c', CreditAccount.deposit c (PyFloat x) now = Done c')
  /\ (exists c', CreditAccount.withdraw c (PyFloat x) now = Done c').
Proof.
  unfold_methods. cbn [to_float le_zero gt_float].
  destruct (x <=? 0)%float.
  - repeat split; eexists; reflexivity.
  - destruct (gtb x (Account._balance a)),
      (CreditAccount._balance c - x <? - CreditAccount._credit_limit c)%float;
      repeat split; eexists; reflexivity.
Qed.

(** C3, as the code has it: an amount that triggers an operational failure
    makes the call return, leaves the holder, the balance and the credit
    limit as they were and appends exactly one record, with status [fail],
    the balance before the call as [balance_after], and the reason of the
    check that failed.  The triggers are a non-positive amount (all four
    methods), an amount above the balance, compared exactly
    ([Account.withdraw]), and an amount that [float] converts and whose
    difference from the balance, in binary64, is below minus the credit
    limit ([CreditAccount.withdraw]). *)
Theorem C3_operational_failure (a : Account.t) (c : CreditAccount.t)
    (amount : number) (now : datetime) :
  (le_zero amount = true ->
     failed_call a (Account.deposit a amount now) "Amount must be positive"
     /\ failed_call a (Account.withdraw a amount now) "Amount must be positive"
     /\ credit_failed_call c (CreditAccount.deposit c amount now)
          "Amount must be positive"
     /\ credit_failed_call c (CreditAccount.withdraw c amount now)
          "Amount must be positive")
  /\ (le_zero amount = false ->
      gt_float amount (Account.balance a) = true ->
      failed_call a (Account.withdraw a amount now) "Insufficient funds")
  /\ (le_zero amount = false ->
      forall x, to_float amount = Some x ->
      (CreditAccount.balance c - x <? - CreditAccount._credit_limit c)%float
      = true ->
      credit_failed_call c (CreditAccount.withdraw c amount now)
        "Credit limit exceeded").
Proof.
  split; [|split].
  - intros H. split; [|split; [|split]].
    + now apply deposit_non_positive.
    + now apply withdraw_non_positive.
    + now apply credit_deposit_non_positive.
    + now apply credit_withdraw_non_positive.
  - apply withdraw_insufficient.
  - intros Hpos x Hx Hlt.
    apply (credit_withdraw_exceeded c amount (CreditAccount.balance c - x));
      [exact Hpos | | exact Hlt].
    unfold sub_float. now rewrite Hx.
Qed.

(** C3, as the claim has it, fails: on [CreditAccount("Bob", 0, 50)] the
    amount [10 ** 400] is positive and takes the balance below minus the
    limit, [0 - 10 ** 400 < -50], yet [withdraw] raises OverflowError where
    it computes the new balance and appends no record. *)
Lemma C3_withdraw_raises :
  CreditAccount.__init__ "Bob" (PyInt 0) (PyInt 50)
  = Returns (CreditAccount.mk (Account.mk "Bob" 0 []) 50)
  /\ le_zero (PyInt (10 ^ 400)) = false
  /\ lt_float (PyInt (0 - 10 ^ 400)) (- (50)) = true
  /\ CreditAccount.withdraw (CreditAccount.mk (Account.mk "Bob" 0 []) 50)
       (PyInt (10 ^ 400)) 1%Z
     = Raised (CreditAccount.mk (Account.mk "Bob" 0 []) 50)
         (OverflowError "int too large to convert to float")
  /\ CreditAccount.get_history
       (state
          (CreditAccount.withdraw
             (CreditAccount.mk (Account.mk "Bob" 0 []) 50)
             (PyInt (10 ^ 400)) 1%Z))
     = [].
Proof. repeat split; vm_compute; reflexivity. Qed.

(** C4, as the code has it: on a credit account with limit [L] and balance
    [b], a withdrawal of an amount that passes the guard and that [float]
    converts to [x] commits [b - x] when [b - x >= -L], and appends one
    [success] record whose [used_credit] is [b - x < 0] and whose
    [available_credit_after] is [L + (b - x)]; with [b - x < -L] it fails
    with "Credit limit exceeded" and changes neither balance nor limit.
    [CreditAccount("Bob", 0, 50).withdraw(40)] gives balance -40,
    [used_credit = True], [available_credit_after = 10]. *)
Theorem C4_credit_withdraw (c : CreditAccount.t) (amount : number)
    (x : float) (now : datetime) :
  (le_zero amount = false -> to_float amount = Some x ->
   geb (CreditAccount.balance c - x) (- CreditAccount._credit_limit c)
   = true ->
   credit_succeeded_call c (CreditAccount.withdraw c amount now)
     (CreditAccount.balance c - x)
     (CreditAccount.balance c - x <? 0)%float)
  /\ (le_zero amount = false -> to_float amount = Some x ->
      (CreditAccount.balance c - x <? - CreditAccount._credit_limit c)%float
      = true ->
      credit_failed_call c (CreditAccount.withdraw c amount now)
        "Credit limit exceeded")
  /\ (exists bob,
        CreditAccount.__init__ "Bob" (PyInt 0) (PyInt 50) = Returns bob
        /\ credit_succeeded_call bob
             (CreditAccount.withdraw bob (PyInt 40) now) (-40) true
        /\ (50 + -40)%float = 10%float).
Proof.
  split; [|split].
  - intros Hpos Hx Hge. apply leb_true_ltb_false in Hge.
    apply credit_withdraw_within; [exact Hpos | | exact Hge].
    unfold sub_float. now rewrite Hx.
  - intros Hpos Hx Hlt.
    apply (credit_withdraw_exceeded c amount (CreditAccount.balance c - x));
      [exact Hpos | | exact Hlt].
    unfold sub_float. now rewrite Hx.
  - eexists. split; [reflexivity|]. split; [|reflexivity].
    apply (credit_withdraw_within
             (CreditAccount.mk (Account.mk "Bob" 0 []) 50) (PyInt 40)
             (-40) now);
      reflexivity.
Qed.

(** C4, as the claim has it, fails on [int]s that are not binary64 numbers.
    On a balance of [2 ** 53] with limit 0, the amount [2 ** 53 + 1] takes
    the balance below the limit, [2 ** 53 - (2 ** 53 + 1) < -0], yet the
    withdrawal succeeds and leaves 0: the amount is rounded to [2 ** 53]
    before it is subtracted.  And [CreditAccount("Bob", 0, 50)] raises
    OverflowError on the amount [10 ** 400]. *)
Lemma C4_withdraw_beyond_limit :
  CreditAccount.__init__ "B" (PyInt (2 ^ 53)) (PyInt 0)
  = Returns (CreditAccount.mk (Account.mk "B" 0x1p+53 []) 0)
  /\ le_zero (PyInt (2 ^ 53 + 1)) = false
  /\ (2 ^ 53 - (2 ^ 53 + 1) < - 0)%Z
  /\ credit_succeeded_call (CreditAccount.mk (Account.mk "B" 0x1p+53 []) 0)
       (CreditAccount.withdraw
          (CreditAccount.mk (Account.mk "B" 0x1p+53 []) 0)
          (PyInt (2 ^ 53 + 1)) 1%Z)
       0 false
  /\ le_zero (PyInt (10 ^ 400)) = false
  /\ CreditAccount.withdraw (CreditAccount.mk (Account.mk "Bob" 0 []) 50)
       (PyInt (10 ^ 400)) 1%Z
     = Raised (CreditAccount.mk (Account.mk "Bob" 0 []) 50)
         (OverflowError "int too large to convert to float").
Proof.
  split; [vm_compute; reflexivity|]. split; [reflexivity|]. split; [lia|].
  split; [|split; vm_compute; reflexivity].
  eexists. repeat split; vm_compute; reflexivity.
Qed.

(** C5, as the code has it: on a credit account with balance [b], a deposit
    of an amount that passes the guard and that [float] converts to [x]
    commits [b + x] and appends one [success] record whose [used_credit] is
    [b < 0], the sign of the balance before the deposit, and whose
    [available_credit_after] is [credit_limit + (b + x)]. *)
Theorem C5_credit_deposit (c : CreditAccount.t) (amount : number) (x : float)
    (now : datetime) :
  le_zero amount = false -> to_float amount = Some x ->
  credit_succeeded_call c (CreditAccount.deposit c amount now)
    (CreditAccount.balance c + x)
    (CreditAccount.balance c <? 0)%float.
Proof.
  intros Hpos Hx. apply credit_deposit_positive; [exact Hpos|].
  unfold add_float. now rewrite Hx.
Qed.

(** C5, as the claim has it, fails: the amount [10 ** 400] is positive, yet
    [deposit] raises OverflowError where it adds it to the balance, commits
    nothing and appends no record. *)
Lemma C5_deposit_raises :
  le_zero (PyInt (10 ^ 400)) = false
  /\ CreditAccount.deposit (CreditAccount.mk (Account.mk "Bob" 0 []) 50)
       (PyInt (10 ^ 400)) 1%Z
     = Raised (CreditAccount.mk (Account.mk "Bob" 0 []) 50)
         (OverflowError "int too large to convert to float")
  /\ CreditAccount.get_history
       (state
          (CreditAccount.deposit
             (CreditAccount.mk (Account.mk "Bob" 0 []) 50)
             (PyInt (10 ^ 400)) 1%Z))
     = [].
Proof. repeat split; vm_compute; reflexivity. Qed.

(** [get_history] returns the records stored, in order. *)
Lemma get_history_stored (a : Account.t) :
  Account.get_history a = Account.operations_history a.
Proof. unfold Account.get_history. apply map_id. Qed.

(** Every method appends one record to the stored history, or raises. *)
Lemma history_appended (a : Account.t) (c : CreditAccount.t)
    (amount : number) (now : datetime) :
  one_record_or_raise Account.operations_history amount a
    (Account.deposit a amount now)
  /\ one_record_or_raise Account.operations_history amount a
       (Account.withdraw a amount now)
  /\ one_record_or_raise CreditAccount.operations_history amount c
       (CreditAccount.deposit c amount now)
  /\ one_record_or_raise CreditAccount.operations_history amount c
       (CreditAccount.withdraw c amount now).
Proof.
  unfold_methods. unfold one_record_or_raise.
  destruct (le_zero amount), (to_float amount) as [x|],
    (gt_float amount (Account._balance a));
    try destruct (CreditAccount._balance c - x
                  <? - CreditAccount._credit_limit c)%float;
    unfold CreditAccount._add_operation, CreditAccount.set_balance,
      Account._add_operation, CreditAccount.operations_history;
    cbn [CreditAccount.account Account.operations_history];
    rewrite ?length_app; cbn [List.length];
    repeat split; try (eexists; reflexivity); lia.
Qed.

(** C6, as the code has it: a call of [deposit] or [withdraw] that returns,
    on either class and whatever the amount, has left the history it found
    in place and in order and has put exactly one record after it: the
    length has grown by one.  A call that does not return raises
    OverflowError, on an amount that [float] cannot convert, and leaves the
    object, its history included, as it was. *)
Theorem C6_history_grows_by_one (a : Account.t) (c : CreditAccount.t)
    (amount : number) (now : datetime) :
  one_record_or_raise Account.get_history amount a
    (Account.deposit a amount now)
  /\ one_record_or_raise Account.get_history amount a
       (Account.withdraw a amount now)
  /\ one_record_or_raise CreditAccount.get_history amount c
       (CreditAccount.deposit c amount now)
  /\ one_record_or_raise CreditAccount.get_history amount c
       (CreditAccount.withdraw c amount now)
  /\ (to_float amount <> None ->
      (exists a', Account.deposit a amount now = Done a')
      /\ (exists a', Account.withdraw a amount now = Done a')
      /\ (exists c', CreditAccount.deposit c amount now = Done c')
      /\ (exists c', CreditAccount.withdraw c amount now = Done c')).
Proof.
  destruct (history_appended a c amount now) as (H1 & H2 & H3 & H4).
  unfold one_record_or_raise, CreditAccount.get_history in *.
  split; [|split; [|split; [|split]]].
  - destruct (Account.deposit a amount now); rewrite ?get_history_stored;
      exact H1.
  - destruct (Account.withdraw a amount now); rewrite ?get_history_stored;
      exact H2.
  - destruct (CreditAccount.deposit c amount now);
      rewrite ?get_history_stored; exact H3.
  - destruct (CreditAccount.withdraw c amount now);
      rewrite ?get_history_stored; exact H4.
  - intros Hx.
    destruct (Account.deposit a amount now) as [|? ?],
      (Account.withdraw a amount now) as [|? ?],
      (CreditAccount.deposit c amount now) as [|? ?],
      (CreditAccount.withdraw c amount now) as [|? ?];
      try (exfalso; apply Hx;
           first [ apply H1 | apply H2 | apply H3 | apply H4 ]).
    repeat split; eexists; reflexivity.
Qed.

(** C6, as the claim has it, fails: [Account("A", 0.0).deposit(10 ** 400)]
    raises OverflowError and leaves the history empty, so the call appends
    no record. *)
Lemma C6_call_appends_nothing :
  Account.__init__ "A" (PyFloat 0) = Returns (Account.mk "A" 0 [])
  /\ Account.deposit (Account.mk "A" 0 []) (PyInt (10 ^ 400)) 1%Z
     = Raised (Account.mk "A" 0 [])
         (OverflowError "int too large to convert to float")
  /\ List.length
       (Account.get_history
          (state (Account.deposit (Account.mk "A" 0 []) (PyInt (10 ^ 400))
                    1%Z)))
     = List.length (Account.get_history (Account.mk "A" 0 [])).
Proof. repeat split; vm_compute; reflexivity. Qed.

(** ** The balance invariants *)

(** The balance after a call of a base account: the balance before, or the
    sum with the converted amount for a deposit that passes the guard, or
    the difference for a withdrawal that passes the two tests. *)
Lemma account_balance_step (a : Account.t) (k : call) :
  Account._balance (state (account_call a k)) = Account._balance a
  \/ exists x,
       le_zero (call_amount k) = false
       /\ to_float (call_amount k) = Some x
       /\ ((call_kind k = "deposit"%string
            /\ Account._balance (state (account_call a k))
               = (Account._balance a + x)%float)
           \/ (call_kind k = "withdraw"%string
               /\ gt_float (call_amount k) (Account._balance a) = false
               /\ Account._balance (state (account_call a k))
                  = (Account._balance a - x)%float)).
Proof.
  destruct k as [amount now|amount now];
    cbn [account_call call_amount call_kind]; unfold_methods;
    destruct (le_zero amount); [now left| |now left|].
  - destruct (to_float amount) as [x|]; [|now left].
    right. exists x. split; [reflexivity|]. split; [reflexivity|].
    left. split; reflexivity.
  - destruct (gt_float amount (Account._balance a)); [now left|].
    destruct (to_float amount) as [x|]; [|now left].
    right. exists x. split; [reflexivity|]. split; [reflexivity|].
    right. repeat split.
Qed.

(** The same for a credit account, whose limit no call changes. *)
Lemma credit_balance_step (c : CreditAccount.t) (k : call) :
  CreditAccount._credit_limit (state (credit_call c k))
  = CreditAccount._credit_limit c
  /\ (CreditAccount._balance (state (credit_call c k))
      = CreditAccount._balance c
      \/ exists x,
           le_zero (call_amount k) = false
           /\ to_float (call_amount k) = Some x
           /\ ((call_kind k = "deposit"%string
                /\ CreditAccount._balance (state (credit_call c k))
                   = (CreditAccount._balance c + x)%float)
               \/ (call_kind k = "withdraw"%string
                   /\ (CreditAccount._balance c - x
                       <? - CreditAccount._credit_limit c)%float = false
                   /\ CreditAccount._balance (state (credit_call c k))
                      = (CreditAccount._balance c - x)%float))).
Proof.
  destruct k as [amount now|amount now];
    cbn [credit_call call_amount call_kind]; unfold_methods;
    (destruct (le_zero amount); [split; [reflexivity | now left]|]);
    (destruct (to_float amount) as [x|]; [|split; [reflexivity | now left]]).
  - split; [reflexivity|].
    right. exists x. split; [reflexivity|]. split; [reflexivity|].
    left. split; reflexivity.
  - destruct (CreditAccount._balance c - x
              <? - CreditAccount._credit_limit c)%float eqn:Hlt;
      (split; [reflexivity|]); [now left|].
    right. exists x. split; [reflexivity|]. split; [reflexivity|].
    right. split; [reflexivity|]. split; [exact Hlt | reflexivity].
Qed.

(** Whatever the amounts, the balance of a base account is never negative:
    [balance < 0] stays false (it does so on [nan] too). *)
Lemma account_never_negative (cs : list call) (a : Account.t) :
  (Account.balance a <? 0)%float = false ->
  (Account.balance (account_run a cs) <? 0)%float = false.
Proof.
  unfold Account.balance. revert a.
  induction cs as [|k cs IH]; intros a Ha; [exact Ha|].
  apply IH.
  destruct (account_balance_step a k)
    as [->|(x & Hpos & Hx & [(_ & ->)|(_ & Hgt & ->)])]; [exact Ha| |].
  - apply add_not_negative; [exact Ha|].
    exact (to_float_positive _ _ Hpos Hx).
  - rewrite (sub_negative _ x Ha (to_float_positive _ _ Hpos Hx)).
    exact (gt_float_to_float _ _ _ Hpos Hgt Hx Ha).
Qed.

(** What is [>=] 0 is not below 0. *)
Lemma geb_zero_not_negative (b : float) :
  geb b 0 = true -> (b <? 0)%float = false.
Proof. apply leb_true_ltb_false. Qed.

(** A call with a finite amount keeps the balance of a base account at
    least 0. *)
Lemma account_invariant_call (a : Account.t) (k : call) :
  geb (Account.balance a) 0 = true -> finite_call k ->
  geb (Account.balance (state (account_call a k))) 0 = true.
Proof.
  unfold Account.balance, finite_call. intros Hb Hfin.
  destruct (account_balance_step a k)
    as [->|(x & Hpos & Hx & [(_ & ->)|(_ & Hgt & ->)])]; [exact Hb| |].
  - apply geb_add_positive; [exact Hb | |].
    + exact (to_float_positive _ _ Hpos Hx).
    + exact (to_float_finite _ _ Hfin Hx).
  - apply geb_sub_within; [exact Hb | | |].
    + exact (to_float_positive _ _ Hpos Hx).
    + exact (to_float_finite _ _ Hfin Hx).
    + apply (gt_float_to_float _ _ _ Hpos Hgt Hx).
      now apply geb_zero_not_negative.
Qed.

(** So does a sequence of such calls. *)
Lemma account_invariant_run (cs : list call) (a : Account.t) :
  geb (Account.balance a) 0 = true -> Forall finite_call cs ->
  geb (Account.balance (account_run a cs)) 0 = true.
Proof.
  revert a. induction cs as [|k cs IH]; intros a Ha Hcs; [exact Ha|].
  inversion Hcs as [|k' cs' Hk Hcs']; subst.
  apply IH; [|exact Hcs']. now apply account_invariant_call.
Qed.

(** A call with a finite amount keeps the balance of a credit account at
    least minus the limit. *)
Lemma credit_invariant_call (c : CreditAccount.t) (k : call) :
  credit_invariant c -> finite_call k ->
  credit_invariant (state (credit_call c k)).
Proof.
  unfold credit_invariant, finite_call. intros (HL & HL0 & Hb) Hfin.
  destruct (credit_balance_step c k) as (-> & Hstep).
  split; [exact HL|]. split; [exact HL0|].
  destruct Hstep as [->|(x & Hpos & Hx & [(_ & ->)|(_ & Hlt & ->)])];
    [exact Hb| |].
  - apply geb_add_limit; try assumption.
    + exact (to_float_positive _ _ Hpos Hx).
    + exact (to_float_finite _ _ Hfin Hx).
  - apply geb_sub_limit; try assumption.
    exact (to_float_finite _ _ Hfin Hx).
Qed.

(** So does a sequence of such calls. *)
Lemma credit_invariant_run (cs : list call) (c : CreditAccount.t) :
  credit_invariant c -> Forall finite_call cs ->
  credit_invariant (credit_run c cs).
Proof.
  revert c. induction cs as [|k cs IH]; intros c Hc Hcs; [exact Hc|].
  inversion Hcs as [|k' cs' Hk Hcs']; subst.
  apply IH; [|exact Hcs']. now apply credit_invariant_call.
Qed.

(** The calls leave the credit limit as the constructor set it. *)
Lemma credit_limit_call (c : CreditAccount.t) (k : call) :
  CreditAccount._credit_limit (state (credit_call c k))
  = CreditAccount._credit_limit c.
Proof. apply credit_balance_step. Qed.

(** Nor does a sequence of calls change it. *)
Lemma credit_limit_run (cs : list call) (c : CreditAccount.t) :
  CreditAccount._credit_limit (credit_run c cs)
  = CreditAccount._credit_limit c.
Proof.
  revert c. induction cs as [|k cs IH]; intros c; [reflexivity|].
  cbn [credit_run fold_left]. unfold credit_run in IH.
  now rewrite IH, credit_limit_call.
Qed.

(** Whatever the amounts, the balance of a credit account whose limit is
    not negative is never below minus the limit. *)
Lemma credit_never_below_limit (cs : list call) (c : CreditAccount.t) :
  (CreditAccount._credit_limit c <? 0)%float = false ->
  (CreditAccount.balance c <? - CreditAccount._credit_limit c)%float = false ->
  (CreditAccount.balance (credit_run c cs)
   <? - CreditAccount._credit_limit c)%float = false.
Proof.
  unfold CreditAccount.balance. revert c.
  induction cs as [|k cs IH]; intros c HL Hc; [exact Hc|].
  cbn [credit_run fold_left]. fold (credit_run (state (credit_call c k)) cs).
  rewrite <- (credit_limit_call c k).
  apply IH; rewrite credit_limit_call; [exact HL|].
  destruct (credit_balance_step c k)
    as (_ & [->|(x & Hpos & Hx & [(_ & ->)|(_ & Hlt & ->)])]);
    [exact Hc | | exact Hlt].
  apply add_not_below; [exact Hc | | exact HL].
  exact (to_float_positive _ _ Hpos Hx).
Qed.

(** [Account.__init__] returns an account whose balance is [>= 0], when the
    initial balance is not [nan]. *)
Lemma account_init_invariant (h : string) (b0 : number) (a : Account.t) :
  number_nan b0 = false -> Account.__init__ h b0 = Returns a ->
  geb (Account.balance a) 0 = true.
Proof.
  intros Hnan Ha. apply account_init_returns in Ha.
  destruct Ha as (x0 & Hb & Hx & ->). unfold Account.balance.
  cbn [Account._balance].
  apply geb_of_not_ltb; [|reflexivity|].
  - apply is_nan_spec. exact (to_float_not_nan _ _ Hnan Hx).
  - exact (to_float_not_negative _ _ Hb Hx).
Qed.

(** [CreditAccount.__init__] establishes the invariant, when the initial
    balance is not [nan] and the limit is finite. *)
Lemma credit_init_invariant (h : string) (b0 L : number)
    (c : CreditAccount.t) :
  number_nan b0 = false -> number_finite L = true ->
  CreditAccount.__init__ h b0 L = Returns c -> credit_invariant c.
Proof.
  intros Hnan HL Hc. apply credit_init_returns in Hc.
  destruct Hc as (x0 & l & HL0 & Hl & Hbl & Hb & Hx & ->).
  pose proof (to_float_finite _ _ HL Hl) as Hfin.
  pose proof (to_float_not_negative _ _ HL0 Hl) as Hl0.
  unfold credit_invariant, CreditAccount._balance.
  cbn [CreditAccount.account CreditAccount._credit_limit Account._balance].
  split; [exact Hfin|]. split; [exact Hl0|].
  apply geb_of_not_ltb.
  - apply is_nan_spec. exact (to_float_not_nan _ _ Hnan Hx).
  - apply opp_not_nan, SFis_finite_not_nan, is_finite_spec, Hfin.
  - rewrite ltb_spec. apply not_negative_not_below.
    + pose proof (to_float_not_negative _ _ Hb Hx) as H0.
      rewrite ltb_spec in H0. exact H0.
    + rewrite opp_spec. rewrite ltb_spec in Hl0.
      change (Prim2SF 0) with (S754_zero false) in Hl0.
      destruct (Prim2SF l) as [s|s| |s m e]; try reflexivity;
        destruct s; try reflexivity; discriminate Hl0.
Qed.

(** C2, as the code has it: when the initial balance is not [nan], the
    credit limit is finite and every amount is finite ([int]s are), the
    balance of a constructed [Account] is [>= 0] after each call, and the
    balance of a constructed [CreditAccount] is [>= -credit_limit], its
    available credit [credit_limit + balance] being [>= 0], after each
    call: [cs] is any sequence of calls, and so any prefix of one.  The
    limit of the account is [float(L)]. *)
Theorem C2_balance_invariants (h : string) (b0 L : number) (a : Account.t)
    (c : CreditAccount.t) (cs : list call) :
  number_nan b0 = false -> number_finite L = true -> Forall finite_call cs ->
  (Account.__init__ h b0 = Returns a ->
   geb (Account.balance (account_run a cs)) 0 = true)
  /\ (CreditAccount.__init__ h b0 L = Returns c ->
      exists l,
        to_float L = Some l
        /\ CreditAccount._credit_limit (credit_run c cs) = l
        /\ geb (CreditAccount.balance (credit_run c cs)) (- l) = true
        /\ geb (CreditAccount.get_available_credit (credit_run c cs)) 0
           = true).
Proof.
  intros Hnan HL Hcs. split.
  - intros Ha. apply account_invariant_run; [|exact Hcs].
    exact (account_init_invariant h b0 a Hnan Ha).
  - intros Hc.
    pose proof (credit_invariant_run cs c
                  (credit_init_invariant h b0 L c Hnan HL Hc) Hcs)
      as (HL' & HL0 & Hb).
    apply credit_init_returns in Hc.
    destruct Hc as (x0 & l & _ & Hl & _ & _ & _ & ->).
    rewrite credit_limit_run in HL', HL0, Hb.
    cbn [CreditAccount._credit_limit] in HL', HL0, Hb.
    exists l. split; [exact Hl|]. split; [apply credit_limit_run|].
    split; [exact Hb|].
    unfold CreditAccount.get_available_credit.
    rewrite credit_limit_run. cbn [CreditAccount._credit_limit].
    now apply available_credit_not_negative.
Qed.

(** C2, as the claim has it, fails on numbers that are not finite.
    [deposit(nan)] passes the guard [amount <= 0], is recorded as a success
    and leaves the balance [nan], which is [>=] nothing, on either class;
    depositing and then withdrawing [infinity] leaves
    [infinity - infinity = nan]; [Account("A", nan)] is constructed; and
    with an infinite credit limit two withdrawals of the largest float take
    the balance to [-infinity] and the available credit to [nan]. *)
Lemma C2_invariants_broken :
  Account.__init__ "A" (PyFloat 0) = Returns (Account.mk "A" 0 [])
  /\ succeeded_call (Account.mk "A" 0 [])
       (Account.deposit (Account.mk "A" 0 []) (PyFloat nan) 1%Z) nan
  /\ geb (Account.balance
            (state (Account.deposit (Account.mk "A" 0 []) (PyFloat nan) 1%Z)))
         0
     = false
  /\ geb (Account.balance
            (account_run (Account.mk "A" 0 [])
               [Deposit (PyFloat infinity) 1%Z;
                Withdraw (PyFloat infinity) 2%Z])) 0
     = false
  /\ Account.__init__ "A" (PyFloat nan) = Returns (Account.mk "A" nan [])
  /\ geb (Account.balance (Account.mk "A" nan [])) 0 = false
  /\ CreditAccount.__init__ "B" (PyFloat 0) (PyFloat 50)
     = Returns (CreditAccount.mk (Account.mk "B" 0 []) 50)
  /\ geb (CreditAccount.balance
            (state
               (CreditAccount.deposit
                  (CreditAccount.mk (Account.mk "B" 0 []) 50) (PyFloat nan)
                  1%Z)))
         (- (50))
     = false
  /\ CreditAccount.__init__ "B" (PyFloat 0) (PyFloat infinity)
     = Returns (CreditAccount.mk (Account.mk "B" 0 []) infinity)
  /\ geb (CreditAccount.get_available_credit
            (credit_run (CreditAccount.mk (Account.mk "B" 0 []) infinity)
               [Withdraw (PyFloat 0x1.fffffffffffffp+1023) 1%Z;
                Withdraw (PyFloat 0x1.fffffffffffffp+1023) 2%Z])) 0
     = false.
Proof.
  split; [reflexivity|]. split.
  - eexists. split; [reflexivity|]. split; reflexivity.
  - repeat split; reflexivity.
Qed.

(** ** A deposit, then a withdrawal of the same amount *)

(** The two calls on a base account, when the amount passes the guard, is
    converted to [x], and is not above the balance after the deposit. *)
Lemma deposit_then_withdraw (a : Account.t) (amount : number) (x : float)
    (t1 t2 : datetime) :
  le_zero amount = false -> to_float amount = Some x ->
  gt_float amount (Account._balance a + x) = false ->
  two_successes a (Account.deposit a amount t1)
    (fun a' => Account.withdraw a' amount t2)
    (Account._balance a + x - x).
Proof.
  intros Hpos Hx Hgt. destruct a as [h b hist]. cbn [Account._balance] in *.
  unfold two_successes, Account.deposit, add_float.
  cbn [Account._balance Account.holder Account.operations_history].
  rewrite Hpos, Hx. do 3 eexists. split; [reflexivity|].
  unfold Account.withdraw, sub_float, Account._add_operation.
  cbn [Account._balance Account.holder Account.operations_history].
  rewrite Hpos, Hgt, Hx. rewrite <- app_assoc. cbn [app].
  split; [reflexivity|]. split; reflexivity.
Qed.

(** The two calls on a credit account, when the amount passes the guard, is
    converted to [x], and the difference is not below minus the limit. *)
Lemma credit_deposit_then_withdraw (c : CreditAccount.t) (amount : number)
    (x : float) (t1 t2 : datetime) :
  le_zero amount = false -> to_float amount = Some x ->
  (CreditAccount._balance c + x - x <? - CreditAccount._credit_limit c)%float
  = false ->
  credit_two_successes c (CreditAccount.deposit c amount t1)
    (fun c' => CreditAccount.withdraw c' amount t2)
    (CreditAccount._balance c + x - x).
Proof.
  intros Hpos Hx Hlt. destruct c as [[h b hist] L].
  unfold CreditAccount._balance in *.
  cbn [CreditAccount.account CreditAccount._credit_limit Account._balance]
    in *.
  unfold credit_two_successes, CreditAccount.deposit, add_float,
    CreditAccount._balance, CreditAccount.holder,
    CreditAccount.operations_history.
  cbn [CreditAccount.account CreditAccount._credit_limit Account._balance
       Account.holder Account.operations_history].
  rewrite Hpos, Hx. do 3 eexists. split; [reflexivity|].
  unfold CreditAccount.withdraw, sub_float, CreditAccount._add_operation,
    CreditAccount.set_balance, CreditAccount._balance, CreditAccount.holder,
    CreditAccount.operations_history, Account._add_operation.
  cbn [CreditAccount.account CreditAccount._credit_limit Account._balance
       Account.holder Account.operations_history].
  rewrite Hpos, Hx, Hlt.
  cbn [CreditAccount.account CreditAccount._credit_limit Account._balance
       Account.holder Account.operations_history].
  rewrite <- app_assoc. cbn [app].
  split; [reflexivity|]. split; reflexivity.
Qed.

(** On a balance that is not negative, a finite [float] that passes the
    guard is never above the balance after its deposit, and the balance
    after the two calls is not negative. *)
Lemma funded_withdrawal (b y : float) :
  geb b 0 = true -> (y <=? 0)%float = false -> is_finite y = true ->
  gtb y (b + y) = false /\ geb (b + y - y) 0 = true.
Proof.
  intros Hb Hy Hfin.
  assert (Hgt : gtb y (b + y) = false).
  { apply add_not_below_amount; [|exact Hy].
    now apply geb_zero_not_negative. }
  split; [exact Hgt|].
  apply geb_sub_within; try assumption. now apply geb_add_positive.
Qed.

(** A number whose value is a positive integer below [2 ^ 53] passes the
    guard and is converted to the float of that integer. *)
Lemma integer_number_to_float (n : number) (z : Z) :
  (0 < z < 2 ^ 53)%Z -> integer_number n z ->
  exists x,
    float_of_int z = Some x /\ to_float n = Some x /\ le_zero n = false
    /\ forall b, gt_float n b = gtb x b.
Proof.
  intros Hz Hn.
  destruct (float_of_int_exact z ltac:(lia)) as (x & Hx & _).
  exists x. split; [exact Hx|].
  destruct n as [z'|y]; cbn [integer_number] in Hn.
  - subst z'. cbn [to_float le_zero]. split; [exact Hx|].
    split; [apply Z.leb_gt; lia|].
    intros b. apply gt_float_small_int; [lia | exact Hx].
  - rewrite Hx in Hn. injection Hn as <-. cbn [to_float le_zero gt_float].
    split; [reflexivity|]. split; [|reflexivity].
    exact (to_float_positive (PyInt z) x ltac:(apply Z.leb_gt; lia) Hx).
Qed.

(** The two calls with an integer amount on an integer balance, all below
    [2 ^ 53]: the sum and the difference are exact and the balance comes
    back. *)
Lemma integer_round_trip (zb za : Z) (b x : float) :
  (Z.abs zb < 2 ^ 53)%Z -> (0 < za < 2 ^ 53)%Z ->
  (Z.abs (zb + za) < 2 ^ 53)%Z ->
  float_of_int zb = Some b -> float_of_int za = Some x ->
  float_of_int (zb + za) = Some (b + x)%float /\ (b + x - x)%float = b.
Proof.
  intros Hb Ha Hs Eb Ex.
  destruct (float_of_int_exact (zb + za) Hs) as (x3 & E3 & _).
  assert (Hadd : (b + x)%float = x3)
    by (apply (float_of_int_add zb za); (lia || assumption)).
  rewrite Hadd. split; [exact E3|].
  apply (float_of_int_sub (zb + za) za); try (lia || assumption);
    replace (zb + za - za)%Z with zb by lia; assumption.
Qed.

(** C7, as the code has it.  For an amount that passes the guard and that
    [float] converts to [x], the two calls append exactly two records, both
    [success], and leave the balance [(b + x) - x] of binary64 arithmetic,
    whenever the withdrawal passes its test on the balance after the
    deposit: [amount > b + x] is false (base account), [(b + x) - x < -L]
    is false (credit account).  For a finite [float] amount on a balance
    that is not negative the tests pass, on either class.  And when the
    balance and the amount are integers, the amount given as an [int] or
    as a [float], with balance, amount and sum below [2 ^ 53] in
    magnitude, the balance comes back as it was: on a base account, whose
    balance is not negative, and on a credit account whose balance is
    within its limit. *)
Theorem C7_deposit_then_withdraw (a : Account.t) (c : CreditAccount.t)
    (amount : number) (x : float) (zb za : Z) (t1 t2 : datetime) :
  (le_zero amount = false -> to_float amount = Some x ->
   (gt_float amount (Account.balance a + x) = false ->
    two_successes a (Account.deposit a amount t1)
      (fun a' => Account.withdraw a' amount t2)
      (Account.balance a + x - x))
   /\ ((CreditAccount.balance c + x - x
        <? - CreditAccount._credit_limit c)%float = false ->
       credit_two_successes c (CreditAccount.deposit c amount t1)
         (fun c' => CreditAccount.withdraw c' amount t2)
         (CreditAccount.balance c + x - x)))
  /\ (amount = PyFloat x -> (x <=? 0)%float = false -> is_finite x = true ->
      (geb (Account.balance a) 0 = true ->
       two_successes a (Account.deposit a amount t1)
         (fun a' => Account.withdraw a' amount t2)
         (Account.balance a + x - x)
       /\ geb (Account.balance a + x - x) 0 = true)
      /\ (geb (CreditAccount.balance c) 0 = true ->
          (CreditAccount._credit_limit c <? 0)%float = false ->
          credit_two_successes c (CreditAccount.deposit c amount t1)
            (fun c' => CreditAccount.withdraw c' amount t2)
            (CreditAccount.balance c + x - x)
          /\ geb (CreditAccount.balance c + x - x) 0 = true))
  /\ ((Z.abs zb < 2 ^ 53)%Z -> (0 < za < 2 ^ 53)%Z ->
      (Z.abs (zb + za) < 2 ^ 53)%Z -> integer_number amount za ->
      (float_of_int zb = Some (Account.balance a) -> (0 <= zb)%Z ->
       two_successes a (Account.deposit a amount t1)
         (fun a' => Account.withdraw a' amount t2)
         (Account.balance a))
      /\ (float_of_int zb = Some (CreditAccount.balance c) ->
          (CreditAccount.balance c <? - CreditAccount._credit_limit c)%float
          = false ->
          credit_two_successes c (CreditAccount.deposit c amount t1)
            (fun c' => CreditAccount.withdraw c' amount t2)
            (CreditAccount.balance c))).
Proof.
  unfold Account.balance, CreditAccount.balance. split; [|split].
  - intros Hpos Hx. split.
    + now apply deposit_then_withdraw.
    + now apply credit_deposit_then_withdraw.
  - intros -> Hpos Hfin. split.
    + intros Hb.
      destruct (funded_withdrawal _ x Hb Hpos Hfin) as (Hgt & Hge).
      split; [|exact Hge]. now apply deposit_then_withdraw.
    + intros Hb HL.
      destruct (funded_withdrawal _ x Hb Hpos Hfin) as (Hgt & Hge).
      split; [|exact Hge]. apply credit_deposit_then_withdraw;
        [exact Hpos | reflexivity |].
      rewrite ltb_spec. apply not_negative_not_below.
      * apply geb_zero_not_negative in Hge. rewrite ltb_spec in Hge.
        exact Hge.
      * rewrite opp_spec. rewrite ltb_spec in HL.
        change (Prim2SF 0) with (S754_zero false) in HL.
        destruct (Prim2SF (CreditAccount._credit_limit c)) as [s|s| |s m e];
          try reflexivity; destruct s; try reflexivity; discriminate HL.
  - intros Hzb Hza Hsum Hamount.
    destruct (integer_number_to_float amount za Hza Hamount)
      as (xa & Ea & Hx & Hpos & Hgt).
    split.
    + intros Eb Hnn.
      destruct (integer_round_trip zb za _ xa Hzb Hza Hsum Eb Ea)
        as (Es & Hback).
      rewrite <- Hback. apply deposit_then_withdraw; try assumption.
      rewrite Hgt, <- (gt_float_small_int za _ xa ltac:(lia) Ea).
      cbn [gt_float].
      rewrite (compare_int_float_exact za (zb + za) _ Hsum Es).
      destruct (za ?= zb + za)%Z eqn:C; try reflexivity.
      apply Z.compare_gt_iff in C. lia.
    + intros Eb Hlt.
      destruct (integer_round_trip zb za _ xa Hzb Hza Hsum Eb Ea)
        as (Es & Hback).
      rewrite <- Hback. apply credit_deposit_then_withdraw;
        try assumption.
      now rewrite Hback.
Qed.

(** C7, as the claim has it, fails.  On [Account("A", 0.1)], depositing 0.2
    and then withdrawing 0.2, which is within the funds, succeeds twice and
    leaves 0.10000000000000003, not 0.1.  And on [CreditAccount("C", 0,
    0.1)] after [withdraw(0.1)], whose balance -0.1 is within the limit,
    [deposit(1.1)] leaves 1.0 and [withdraw(1.1)] is refused, with "Credit
    limit exceeded": [1.0 - 1.1] is below [-0.1] in binary64.  The literals
    are the binary64 numbers that Python reads 0.1, 0.2 and 1.1 as. *)
Lemma C7_balance_not_restored :
  Account.__init__ "A" (PyFloat 0x1.999999999999ap-4)
  = Returns (Account.mk "A" 0x1.999999999999ap-4 [])
  /\ le_zero (PyFloat 0x1.999999999999ap-3) = false
  /\ geb (0x1.999999999999ap-4 + 0x1.999999999999ap-3) 0x1.999999999999ap-3
     = true
  /\ two_successes (Account.mk "A" 0x1.999999999999ap-4 [])
       (Account.deposit (Account.mk "A" 0x1.999999999999ap-4 [])
          (PyFloat 0x1.999999999999ap-3) 1%Z)
       (fun a' => Account.withdraw a' (PyFloat 0x1.999999999999ap-3) 2%Z)
       0x1.999999999999cp-4
  /\ 0x1.999999999999cp-4%float <> 0x1.999999999999ap-4%float
  /\ CreditAccount.__init__ "C" (PyInt 0) (PyFloat 0x1.999999999999ap-4)
     = Returns
         (CreditAccount.mk (Account.mk "C" 0 []) 0x1.999999999999ap-4)
  /\ (exists c1 c2,
         CreditAccount.withdraw
           (CreditAccount.mk (Account.mk "C" 0 []) 0x1.999999999999ap-4)
           (PyFloat 0x1.999999999999ap-4) 1%Z
         = Done c1
         /\ CreditAccount.balance c1 = (- 0x1.999999999999ap-4)%float
         /\ geb (CreditAccount.balance c1) (- CreditAccount._credit_limit c1)
            = true
         /\ le_zero (PyFloat 0x1.199999999999ap+0) = false
         /\ CreditAccount.deposit c1 (PyFloat 0x1.199999999999ap+0) 2%Z
            = Done c2
         /\ CreditAccount.balance c2 = 1%float
         /\ credit_failed_call c2
              (CreditAccount.withdraw c2 (PyFloat 0x1.199999999999ap+0) 3%Z)
              "Credit limit exceeded").
Proof.
  split; [reflexivity|]. split; [reflexivity|]. split; [reflexivity|]. split.
  { do 3 eexists. split; [reflexivity|]. split; [reflexivity|].
    split; reflexivity. }
  split; [apply float_neq; vm_compute; discriminate|].
  split; [reflexivity|].
  do 2 eexists. split; [reflexivity|]. split; [reflexivity|].
  split; [reflexivity|]. split; [reflexivity|]. split; [reflexivity|].
  split; [reflexivity|].
  eexists. split; [vm_compute; reflexivity|]. repeat split.
Qed.

(** ** A credit account of limit 0 and a base account *)

(** With a limit of 0 the test of [CreditAccount.withdraw] is the test of
    [Account.withdraw] on floats. *)
Lemma credit_test_zero_limit (b amount : float) :
  (b <? 0)%float = false -> (amount <=? 0)%float = false ->
  (b - amount <? - 0)%float = gtb amount b.
Proof.
  intros Hb Ha. unfold gtb. rewrite ltb_neg_zero. now apply sub_negative.
Qed.

(** A binary64 number is converted without loss: it is above a float
    exactly when its conversion is. *)
Lemma exact_number_to_float (n : number) :
  exact_number n ->
  exists x, to_float n = Some x /\ forall b, gt_float n b = gtb x b.
Proof.
  destruct n as [z|y]; cbn [exact_number to_float].
  - intros Hz. destruct (float_of_int_exact z Hz) as (x & Hx & _).
    exists x. split; [exact Hx|]. intros b.
    now apply gt_float_small_int.
  - intros _. exists y. split; reflexivity.
Qed.

(** A property of all the records and of the one appended. *)
Lemma Forall_snoc (A : Type) (P : A -> Prop) (l : list A) (x : A) :
  Forall P l -> P x -> Forall P (l ++ [x]).
Proof. intros Hl Hx. apply Forall_app. split; [exact Hl | now constructor]. Qed.

(** The parts of [zero_limit_pair] after a call. *)
Ltac pair_parts :=
  split; [reflexivity|]; split; [reflexivity|]; split;
    [|split; apply Forall_snoc; try assumption].

(** A [fail] record is not a [success] record. *)
Ltac fail_record := let Hs := fresh in intros Hs; discriminate Hs.

(** A call with a binary64 amount keeps the two accounts together. *)
Lemma zero_limit_pair_call (a : Account.t) (c : CreditAccount.t) (k : call) :
  exact_call k -> zero_limit_pair a c ->
  zero_limit_pair (state (account_call a k)) (state (credit_call c k)).
Proof.
  destruct a as [h b ha], c as [[h' b' hc] l].
  unfold exact_call, zero_limit_pair, CreditAccount._balance,
    CreditAccount.operations_history.
  cbn [CreditAccount.account CreditAccount._credit_limit Account._balance
       Account.operations_history].
  intros Hexact (-> & -> & Hb & Hc & Ha).
  destruct (exact_number_to_float _ Hexact) as (x & Hx & Hgt).
  destruct k as [amount now|amount now];
    cbn [account_call credit_call call_amount] in *;
    unfold Account.deposit, Account.withdraw, CreditAccount.deposit,
      CreditAccount.withdraw, add_float, sub_float,
      CreditAccount._add_operation,
      CreditAccount.set_balance, CreditAccount.get_available_credit,
      CreditAccount._balance, CreditAccount.holder,
      CreditAccount.operations_history, Account._add_operation;
    cbn [CreditAccount.account CreditAccount._credit_limit Account._balance
         Account.holder Account.operations_history];
    rewrite Hx;
    destruct (le_zero amount) eqn:Hamount;
    cbn [state CreditAccount.account CreditAccount._credit_limit
         Account._balance Account.holder Account.operations_history].
  - pair_parts; [assumption | fail_record | split; reflexivity].
  - pose proof (to_float_positive _ _ Hamount Hx) as Hpos.
    pair_parts; [now apply add_not_negative | | split; reflexivity].
    intros _. cbn. rewrite Hb. split; [reflexivity | eauto].
  - pair_parts; [assumption | fail_record | split; reflexivity].
  - pose proof (to_float_positive _ _ Hamount Hx) as Hpos.
    rewrite (credit_test_zero_limit b x Hb Hpos), Hgt.
    destruct (gtb x b) eqn:Hgtb;
      cbn [state CreditAccount.account CreditAccount._credit_limit
           Account._balance Account.holder Account.operations_history].
    + pair_parts; [assumption | fail_record | split; reflexivity].
    + assert (Hnew : (b - x <? 0)%float = false)
        by (rewrite (sub_negative b x Hb Hpos); exact Hgtb).
      pair_parts; [assumption | | split; reflexivity].
      intros _. cbn. rewrite Hnew. split; [reflexivity | eauto].
Qed.

(** So does a sequence of such calls. *)
Lemma zero_limit_pair_run (cs : list call) (a : Account.t)
    (c : CreditAccount.t) :
  Forall exact_call cs -> zero_limit_pair a c ->
  zero_limit_pair (account_run a cs) (credit_run c cs).
Proof.
  intros Hcs. revert a c.
  induction Hcs as [|k cs Hk Hcs IH]; intros a c H; [exact H|].
  apply IH, zero_limit_pair_call; assumption.
Qed.

(** The two constructors return accounts that go together. *)
Lemma zero_limit_pair_init (h : string) (b0 L : number) (a : Account.t)
    (c : CreditAccount.t) :
  to_float L = Some 0%float ->
  Account.__init__ h b0 = Returns a ->
  CreditAccount.__init__ h b0 L = Returns c ->
  zero_limit_pair a c.
Proof.
  intros HL Ha Hc. apply account_init_returns in Ha.
  apply credit_init_returns in Hc.
  destruct Ha as (x0 & Hb & Hx & ->).
  destruct Hc as (x0' & l & _ & Hl & _ & _ & Hx' & ->).
  rewrite Hx in Hx'. injection Hx' as <-.
  rewrite HL in Hl. injection Hl as <-.
  unfold zero_limit_pair, CreditAccount._balance,
    CreditAccount.operations_history.
  cbn [CreditAccount.account CreditAccount._credit_limit Account._balance
       Account.operations_history].
  split; [reflexivity|]. split; [reflexivity|].
  split; [exact (to_float_not_negative _ _ Hb Hx)|]. split; constructor.
Qed.

(** C10, as the code has it: a [CreditAccount] constructed with
    [credit_limit = 0], given as [0] or as [0.0], has, after every sequence
    of calls whose amounts are binary64 numbers ([float]s, or [int]s below
    [2 ^ 53] in magnitude), the balance of the [Account] constructed with
    the same initial balance.  Their histories differ: a withdrawal of more
    than the balance is recorded with "Credit limit exceeded" where the base
    account records "Insufficient funds"; every [success] record of the
    credit account has [used_credit = False] and an
    [available_credit_after], keys that no record of the base account
    has. *)
Theorem C10_zero_limit_credit_account (h : string) (b0 L : number)
    (a : Account.t) (c : CreditAccount.t) (cs : list call) :
  to_float L = Some 0%float -> Forall exact_call cs ->
  Account.__init__ h b0 = Returns a ->
  CreditAccount.__init__ h b0 L = Returns c ->
  CreditAccount.balance (credit_run c cs) = Account.balance (account_run a cs)
  /\ (forall amount now,
        exact_number amount -> le_zero amount = false ->
        gt_float amount (Account.balance (account_run a cs)) = true ->
        failed_call (account_run a cs)
          (Account.withdraw (account_run a cs) amount now)
          "Insufficient funds"
        /\ credit_failed_call (credit_run c cs)
             (CreditAccount.withdraw (credit_run c cs) amount now)
             "Credit limit exceeded")
  /\ Forall unused_credit_record (CreditAccount.get_history (credit_run c cs))
  /\ Forall plain_record (Account.get_history (account_run a cs)).
Proof.
  intros HL Hcs Ha Hc.
  pose proof (zero_limit_pair_run cs a c Hcs
                (zero_limit_pair_init h b0 L a c HL Ha Hc))
    as (Hbal & Hlim & Hneg & Hcredit & Hplain).
  unfold CreditAccount.get_history. rewrite !get_history_stored.
  split; [exact Hbal|]. split; [|split; assumption].
  intros amount now Hexact Hpos Hgt. split.
  - now apply withdraw_insufficient.
  - destruct (exact_number_to_float _ Hexact) as (x & Hx & Hgtb).
    apply (credit_withdraw_exceeded _ amount
             (CreditAccount._balance (credit_run c cs) - x));
      [exact Hpos | unfold sub_float; now rewrite Hx |].
    rewrite Hlim, Hbal, credit_test_zero_limit, <- Hgtb;
      [exact Hgt | exact Hneg |].
    exact (to_float_positive _ _ Hpos Hx).
Qed.

(** C10, as the claim has it, fails on an [int] that is not a binary64
    number.  Both accounts constructed with the balance [2 ** 53], the
    amount [2 ** 53 + 1] is above the balance, and [Account.withdraw]
    refuses it; [CreditAccount.withdraw] rounds it to [2 ** 53] where it
    subtracts it, finds the difference 0 within the limit, and leaves the
    balance 0. *)
Lemma C10_balances_differ :
  Account.__init__ "A" (PyInt (2 ^ 53)) = Returns (Account.mk "A" 0x1p+53 [])
  /\ CreditAccount.__init__ "A" (PyInt (2 ^ 53)) (PyInt 0)
     = Returns (CreditAccount.mk (Account.mk "A" 0x1p+53 []) 0)
  /\ failed_call (Account.mk "A" 0x1p+53 [])
       (Account.withdraw (Account.mk "A" 0x1p+53 []) (PyInt (2 ^ 53 + 1))
          1%Z)
       "Insufficient funds"
  /\ credit_succeeded_call (CreditAccount.mk (Account.mk "A" 0x1p+53 []) 0)
       (CreditAccount.withdraw
          (CreditAccount.mk (Account.mk "A" 0x1p+53 []) 0)
          (PyInt (2 ^ 53 + 1)) 1%Z)
       0 false
  /\ Account.balance
       (account_run (Account.mk "A" 0x1p+53 [])
          [Withdraw (PyInt (2 ^ 53 + 1)) 1%Z])
     = 0x1p+53%float
  /\ CreditAccount.balance
       (credit_run (CreditAccount.mk (Account.mk "A" 0x1p+53 []) 0)
          [Withdraw (PyInt (2 ^ 53 + 1)) 1%Z])
     = 0%float
  /\ 0x1p+53%float <> 0%float.
Proof.
  split; [vm_compute; reflexivity|]. split; [vm_compute; reflexivity|].
  split; [eexists; repeat split; vm_compute; reflexivity|].
  split; [eexists; repeat split; vm_compute; reflexivity|].
  split; [vm_compute; reflexivity|]. split; [vm_compute; reflexivity|].
  apply float_neq. vm_compute. discriminate.
Qed.

(** ** The claims at concrete accounts *)

(** C2 at [Account("Alice", 100)] and [CreditAccount("Bob", 0, 50)], the
    amounts given as [int]s and as [float]s. *)
Lemma C2_balance_invariants_witness :
  geb (Account.balance
         (account_run (Account.mk "Alice" 100 [])
            [Withdraw (PyInt 150) 1%Z; Deposit (PyFloat 50) 2%Z;
             Withdraw (PyInt 150) 3%Z])) 0
  = true
  /\ exists l,
       to_float (PyInt 50) = Some l
       /\ CreditAccount._credit_limit
            (credit_run (CreditAccount.mk (Account.mk "Bob" 0 []) 50)
               [Withdraw (PyInt 40) 1%Z; Withdraw (PyFloat 40) 2%Z;
                Deposit (PyInt 5) 3%Z])
          = l
       /\ geb (CreditAccount.balance
                 (credit_run (CreditAccount.mk (Account.mk "Bob" 0 []) 50)
                    [Withdraw (PyInt 40) 1%Z; Withdraw (PyFloat 40) 2%Z;
                     Deposit (PyInt 5) 3%Z]))
              (- l)
          = true
       /\ geb (CreditAccount.get_available_credit
                 (credit_run (CreditAccount.mk (Account.mk "Bob" 0 []) 50)
                    [Withdraw (PyInt 40) 1%Z; Withdraw (PyFloat 40) 2%Z;
                     Deposit (PyInt 5) 3%Z])) 0
          = true.
Proof.
  destruct (C2_balance_invariants "Alice" (PyInt 100) (PyInt 50)
              (Account.mk "Alice" 100 [])
              (CreditAccount.mk (Account.mk "Alice" 100 []) 50)
              [Withdraw (PyInt 150) 1%Z; Deposit (PyFloat 50) 2%Z;
               Withdraw (PyInt 150) 3%Z])
    as (Hbase & _);
    [reflexivity | reflexivity | repeat constructor |].
  destruct (C2_balance_invariants "Bob" (PyInt 0) (PyInt 50)
              (Account.mk "Bob" 0 [])
              (CreditAccount.mk (Account.mk "Bob" 0 []) 50)
              [Withdraw (PyInt 40) 1%Z; Withdraw (PyFloat 40) 2%Z;
               Deposit (PyInt 5) 3%Z])
    as (_ & Hcredit);
    [reflexivity | reflexivity | repeat constructor |].
  split; [apply Hbase; reflexivity|]. apply Hcredit. reflexivity.
Defined.

(** C3 at the accounts of the scenarios. *)
Lemma C3_operational_failure_witness :
  failed_call (Account.mk "Alice" 100 [])
    (Account.withdraw (Account.mk "Alice" 100 []) (PyInt 150) 0%Z)
    "Insufficient funds"
  /\ credit_failed_call (CreditAccount.mk (Account.mk "Bob" 0 []) 50)
       (CreditAccount.withdraw
          (CreditAccount.mk (Account.mk "Bob" 0 []) 50) (PyInt 150) 0%Z)
       "Credit limit exceeded"
  /\ failed_call (Account.mk "Alice" 100 [])
       (Account.withdraw (Account.mk "Alice" 100 []) (PyFloat (-5)) 0%Z)
       "Amount must be positive".
Proof.
  destruct (C3_operational_failure (Account.mk "Alice" 100 [])
              (CreditAccount.mk (Account.mk "Bob" 0 []) 50) (PyInt 150) 0%Z)
    as (_ & Hfunds & Hlimit).
  destruct (C3_operational_failure (Account.mk "Alice" 100 [])
              (CreditAccount.mk (Account.mk "Bob" 0 []) 50) (PyFloat (-5))
              0%Z)
    as (Hamount & _).
  split; [apply Hfunds; reflexivity|].
  split; [apply (Hlimit eq_refl 150%float); reflexivity|].
  apply Hamount. reflexivity.
Defined.

(** C4 at [CreditAccount("Bob", 0, 50)]: 40 is within the limit, 60 is
    not. *)
Lemma C4_credit_withdraw_witness :
  credit_succeeded_call (CreditAccount.mk (Account.mk "Bob" 0 []) 50)
    (CreditAccount.withdraw
       (CreditAccount.mk (Account.mk "Bob" 0 []) 50) (PyInt 40) 0%Z)
    (0 - 40) (0 - 40 <? 0)%float
  /\ credit_failed_call (CreditAccount.mk (Account.mk "Bob" 0 []) 50)
       (CreditAccount.withdraw
          (CreditAccount.mk (Account.mk "Bob" 0 []) 50) (PyFloat 60) 0%Z)
       "Credit limit exceeded".
Proof.
  split.
  - apply (C4_credit_withdraw
             (CreditAccount.mk (Account.mk "Bob" 0 []) 50) (PyInt 40) 40
             0%Z);
      reflexivity.
  - apply (C4_credit_withdraw
             (CreditAccount.mk (Account.mk "Bob" 0 []) 50) (PyFloat 60) 60
             0%Z);
      reflexivity.
Defined.

(** C5 after [CreditAccount("Bob", 0, 50).withdraw(30)]: the balance is -30
    before the deposit of 40, and the flag is set although the deposit
    repays the credit in full. *)
Lemma C5_credit_deposit_witness :
  CreditAccount.withdraw (CreditAccount.mk (Account.mk "Bob" 0 []) 50)
    (PyInt 30) 1%Z
  = Done
      (CreditAccount.mk
         (Account.mk "Bob" (-30)
            [[("type", VStr "withdraw"); ("amount", VInt 30);
              ("datetime", VTime 1%Z); ("balance_after", VFloat (-30));
              ("status", VStr "success"); ("used_credit", VBool true);
              ("available_credit_after", VFloat 20)]%string])
         50)
  /\ credit_succeeded_call
       (CreditAccount.mk
          (Account.mk "Bob" (-30)
             [[("type", VStr "withdraw"); ("amount", VInt 30);
               ("datetime", VTime 1%Z); ("balance_after", VFloat (-30));
               ("status", VStr "success"); ("used_credit", VBool true);
               ("available_credit_after", VFloat 20)]%string])
          50)
       (CreditAccount.deposit
          (CreditAccount.mk
             (Account.mk "Bob" (-30)
                [[("type", VStr "withdraw"); ("amount", VInt 30);
                  ("datetime", VTime 1%Z); ("balance_after", VFloat (-30));
                  ("status", VStr "success"); ("used_credit", VBool true);
                  ("available_credit_after", VFloat 20)]%string])
             50)
          (PyInt 40) 2%Z)
       (-30 + 40) true.
Proof.
  split; [reflexivity|].
  apply (C5_credit_deposit
           (CreditAccount.mk
              (Account.mk "Bob" (-30)
                 [[("type", VStr "withdraw"); ("amount", VInt 30);
                   ("datetime", VTime 1%Z); ("balance_after", VFloat (-30));
                   ("status", VStr "success"); ("used_credit", VBool true);
                   ("available_credit_after", VFloat 20)]%string])
              50)
           (PyInt 40) 40 2%Z);
    reflexivity.
Defined.

(** C6 at a deposit of 25 on [Account("Alice", 100)]. *)
Lemma C6_history_grows_by_one_witness :
  exists a',
    Account.deposit (Account.mk "Alice" 100 []) (PyInt 25) 1%Z = Done a'
    /\ one_record_or_raise Account.get_history (PyInt 25)
         (Account.mk "Alice" 100 []) (Done a').
Proof.
  destruct (C6_history_grows_by_one (Account.mk "Alice" 100 [])
              (CreditAccount.mk (Account.mk "Bob" 0 []) 50) (PyInt 25) 1%Z)
    as (Hrecord & _ & _ & _ & Hreturns).
  destruct Hreturns as ((a' & Ha') & _); [discriminate|].
  exists a'. split; [exact Ha'|]. rewrite <- Ha'. exact Hrecord.
Defined.

(** C7 at [Account("Alice", 100)] and at a credit account in debt by 30,
    with the integer amount 25: the balances come back. *)
Lemma C7_deposit_then_withdraw_witness :
  two_successes (Account.mk "Alice" 100 [])
    (Account.deposit (Account.mk "Alice" 100 []) (PyInt 25) 1%Z)
    (fun a' => Account.withdraw a' (PyInt 25) 2%Z)
    100
  /\ credit_two_successes (CreditAccount.mk (Account.mk "Bob" (-30) []) 50)
       (CreditAccount.deposit
          (CreditAccount.mk (Account.mk "Bob" (-30) []) 50) (PyInt 25) 1%Z)
       (fun c' => CreditAccount.withdraw c' (PyInt 25) 2%Z)
       (-30)
  /\ two_successes (Account.mk "Alice" 100 [])
       (Account.deposit (Account.mk "Alice" 100 []) (PyFloat 0.5) 1%Z)
       (fun a' => Account.withdraw a' (PyFloat 0.5) 2%Z)
       (100 + 0.5 - 0.5).
Proof.
  destruct (C7_deposit_then_withdraw (Account.mk "Alice" 100 [])
              (CreditAccount.mk (Account.mk "Bob" (-30) []) 50) (PyInt 25)
              25 100 25 1%Z 2%Z)
    as (_ & _ & Hint).
  destruct (C7_deposit_then_withdraw (Account.mk "Alice" 100 [])
              (CreditAccount.mk (Account.mk "Bob" (-30) []) 50) (PyInt 25)
              25 (-30) 25 1%Z 2%Z)
    as (_ & _ & Hcredit).
  destruct (C7_deposit_then_withdraw (Account.mk "Alice" 100 [])
              (CreditAccount.mk (Account.mk "Bob" (-30) []) 50)
              (PyFloat 0.5) 0.5 0 0 1%Z 2%Z)
    as (_ & Hfunded & _).
  split; [|split].
  - apply Hint; try reflexivity; lia.
  - apply Hcredit; try reflexivity; cbn; lia.
  - apply Hfunded; reflexivity.
Defined.

(** C10 at an initial balance of 100 and three calls. *)
Lemma C10_zero_limit_credit_account_witness :
  CreditAccount.balance
    (credit_run (CreditAccount.mk (Account.mk "Bob" 100 []) 0)
       [Deposit (PyInt 50) 1%Z; Withdraw (PyFloat 500) 2%Z;
        Withdraw (PyInt 20) 3%Z])
  = Account.balance
      (account_run (Account.mk "Bob" 100 [])
         [Deposit (PyInt 50) 1%Z; Withdraw (PyFloat 500) 2%Z;
          Withdraw (PyInt 20) 3%Z])
  /\ Forall unused_credit_record
       (CreditAccount.get_history
          (credit_run (CreditAccount.mk (Account.mk "Bob" 100 []) 0)
             [Deposit (PyInt 50) 1%Z; Withdraw (PyFloat 500) 2%Z;
              Withdraw (PyInt 20) 3%Z]))
  /\ Forall plain_record
       (Account.get_history
          (account_run (Account.mk "Bob" 100 [])
             [Deposit (PyInt 50) 1%Z; Withdraw (PyFloat 500) 2%Z;
              Withdraw (PyInt 20) 3%Z])).
Proof.
  destruct (C10_zero_limit_credit_account "Bob" (PyInt 100) (PyInt 0)
              (Account.mk "Bob" 100 [])
              (CreditAccount.mk (Account.mk "Bob" 100 []) 0)
              [Deposit (PyInt 50) 1%Z; Withdraw (PyFloat 500) 2%Z;
               Withdraw (PyInt 20) 3%Z])
    as (Hbal & _ & Hcredit & Hplain);
    [reflexivity | | reflexivity | reflexivity |].
  { repeat constructor; cbn; lia. }
  split; [exact Hbal|]. split; [exact Hcredit | exact Hplain].
Defined.

(** * Histories *)

(** The balance that a record leaves, from its status, its kind and its
    amount. *)
Lemma replay_record_fields (b : float) (r : dict) (st ty : string)
    (n : number) :
  status_of r = Some (VStr st) -> type_of r = Some (VStr ty) ->
  amount_of r = Some (value_of n) ->
  replay_record b r
  = if String.eqb st "success" then
      if String.eqb ty "deposit" then
        match add_float b n with Some b' => b' | None => b end
      else if String.eqb ty "withdraw" then
        match sub_float b n with Some b' => b' | None => b end
      else b
    else b.
Proof.
  intros Hst Hty Hn. unfold replay_record. rewrite Hst, Hty, Hn.
  destruct n; reflexivity.
Qed.

(** The replayed balance of the record at hand, by its fields. *)
Ltac replay_fields b amount :=
  first
    [ rewrite (replay_record_fields b _ "fail" "deposit" amount)
        by reflexivity
    | rewrite (replay_record_fields b _ "fail" "withdraw" amount)
        by reflexivity
    | rewrite (replay_record_fields b _ "success" "deposit" amount)
        by reflexivity
    | rewrite (replay_record_fields b _ "success" "withdraw" amount)
        by reflexivity ];
  cbn [String.eqb Ascii.eqb Bool.eqb].

(** The record that a branch appends is the record of its call. *)
Ltac call_record :=
  repeat split; (left; reflexivity) || (right; reflexivity) || reflexivity.

(** What a call does to a base account.  When it returns it keeps the
    holder and appends one record, the record of the call, of one of the
    two shapes, from which the new balance can be replayed and which has it
    as [balance_after].  When it raises it leaves the account as it was. *)
Lemma account_call_summary (a : Account.t) (k : call) :
  exists o,
    call_trace k o
    /\ match o with
       | Some r =>
           account_call a k
           = Done (Account.mk (Account.holder a)
                     (replay_record (Account._balance a) r)
                     (Account.operations_history a ++ [r]))
           /\ base_record r
           /\ balance_after_of r
              = Some (VFloat (replay_record (Account._balance a) r))
       | None => account_call a k = Raised a overflow
       end.
Proof.
  destruct a as [h b hist].
  destruct k as [amount now|amount now]; cbn [account_call];
    unfold Account.deposit, Account.withdraw, Account._add_operation;
    cbn [Account._balance Account.holder Account.operations_history];
    destruct (le_zero amount) eqn:Hle;
    try destruct (gt_float amount b);
    try match goal with
        | |- context [add_float b amount] =>
            destruct (add_float b amount) as [b'|] eqn:Hb'
        | |- context [sub_float b amount] =>
            destruct (sub_float b amount) as [b'|] eqn:Hb'
        end;
    first
      [ match goal with
        | |- context [Done (Account.mk _ _ (_ ++ [?x]))] => exists (Some x)
        end;
        cbn [call_trace]; (split; [call_record|]);
        replay_fields b amount; rewrite ?Hb';
        (split; [reflexivity|]); (split; [|reflexivity]);
        first [ left; split; reflexivity
              | right; split; [reflexivity|]; split; [reflexivity|];
                (left; reflexivity) || (right; reflexivity) ]
      | exists None; cbn [call_trace call_amount]; unfold passes_guard;
        cbn [call_amount]; rewrite Hle; unfold add_float, sub_float in Hb';
        destruct (to_float amount); [discriminate Hb'|]; repeat split ].
Qed.

(** The same for a credit account, whose limit the call keeps. *)
Lemma credit_call_summary (c : CreditAccount.t) (k : call) :
  exists o,
    call_trace k o
    /\ match o with
       | Some r =>
           credit_call c k
           = Done (CreditAccount.mk
                     (Account.mk (CreditAccount.holder c)
                        (replay_record (CreditAccount._balance c) r)
                        (CreditAccount.operations_history c ++ [r]))
                     (CreditAccount._credit_limit c))
           /\ credit_record (CreditAccount._credit_limit c) r
           /\ balance_after_of r
              = Some (VFloat (replay_record (CreditAccount._balance c) r))
       | None => credit_call c k = Raised c overflow
       end.
Proof.
  destruct c as [[h b hist] L].
  destruct k as [amount now|amount now]; cbn [credit_call];
    unfold CreditAccount.deposit, CreditAccount.withdraw,
      CreditAccount._add_operation, CreditAccount.set_balance,
      CreditAccount.get_available_credit, CreditAccount._balance,
      CreditAccount.holder, CreditAccount.operations_history,
      Account._add_operation;
    cbn [CreditAccount.account CreditAccount._credit_limit Account._balance
         Account.holder Account.operations_history];
    destruct (le_zero amount) eqn:Hle;
    try match goal with
        | |- context [add_float b amount] =>
            destruct (add_float b amount) as [b'|] eqn:Hb'
        | |- context [sub_float b amount] =>
            destruct (sub_float b amount) as [b'|] eqn:Hb'
        end;
    try destruct (b' <? - L)%float;
    cbn [CreditAccount.account CreditAccount._credit_limit Account._balance
         Account.holder Account.operations_history];
    first
      [ match goal with
        | |- context [Done (CreditAccount.mk (Account.mk _ _ (_ ++ [?x])) _)]
          => exists (Some x)
        end;
        cbn [call_trace]; (split; [call_record|]);
        replay_fields b amount; rewrite ?Hb';
        (split; [reflexivity|]); (split; [|reflexivity]);
        first [ left; split; [reflexivity|]; split; [reflexivity|];
                do 2 eexists; split; [reflexivity|]; split; reflexivity
              | right; split; [reflexivity|]; split; [reflexivity|];
                (left; reflexivity) || (right; reflexivity) ]
      | exists None; cbn [call_trace call_amount]; unfold passes_guard;
        cbn [call_amount]; rewrite Hle; unfold add_float, sub_float in Hb';
        destruct (to_float amount); [discriminate Hb'|]; repeat split ].
Qed.

(** What a sequence of calls does to a base account. *)
Lemma account_run_summary (cs : list call) (a : Account.t) :
  exists os,
    account_run a cs
    = Account.mk (Account.holder a)
        (replay (Account._balance a) (appended os))
        (Account.operations_history a ++ appended os)
    /\ Forall2 call_trace cs os /\ Forall base_record (appended os)
    /\ ledger (Account._balance a) (appended os).
Proof.
  revert a. induction cs as [|k cs IH]; intros a.
  - exists []. cbn [appended flat_map]. rewrite app_nil_r.
    destruct a; repeat split; constructor.
  - destruct (account_call_summary a k) as (o & Hk & Ho).
    cbn [account_run fold_left].
    fold (account_run (state (account_call a k)) cs).
    destruct (IH (state (account_call a k)))
      as (os & Hrun & Hcs & Hshapes & Hledger).
    exists (o :: os). rewrite Hrun. clear Hrun.
    destruct o as [r|].
    + destruct Ho as (Hcall & Hshape & Hafter). rewrite Hcall in *.
      cbn [state Account.holder Account._balance Account.operations_history
           appended flat_map app replay fold_left ledger] in *.
      rewrite <- app_assoc.
      split; [reflexivity|]. split; [now constructor|].
      split; [now constructor|]. split; assumption.
    + rewrite Ho in *. cbn [state appended flat_map app] in *.
      split; [reflexivity|]. split; [now constructor|].
      split; assumption.
Qed.

(** What a sequence of calls does to a credit account. *)
Lemma credit_run_summary (cs : list call) (c : CreditAccount.t) :
  exists os,
    credit_run c cs
    = CreditAccount.mk
        (Account.mk (CreditAccount.holder c)
           (replay (CreditAccount._balance c) (appended os))
           (CreditAccount.operations_history c ++ appended os))
        (CreditAccount._credit_limit c)
    /\ Forall2 call_trace cs os
    /\ Forall (credit_record (CreditAccount._credit_limit c)) (appended os)
    /\ ledger (CreditAccount._balance c) (appended os).
Proof.
  revert c. induction cs as [|k cs IH]; intros c.
  - exists []. cbn [appended flat_map]. rewrite app_nil_r.
    destruct c as [[h b hist] L]. repeat split; constructor.
  - destruct (credit_call_summary c k) as (o & Hk & Ho).
    cbn [credit_run fold_left].
    fold (credit_run (state (credit_call c k)) cs).
    destruct (IH (state (credit_call c k)))
      as (os & Hrun & Hcs & Hshapes & Hledger).
    exists (o :: os). rewrite Hrun. clear Hrun.
    destruct o as [r|].
    + destruct Ho as (Hcall & Hshape & Hafter). rewrite Hcall in *.
      unfold CreditAccount.holder, CreditAccount._balance,
        CreditAccount.operations_history in *.
      cbn [state CreditAccount.account CreditAccount._credit_limit
           Account.holder Account._balance Account.operations_history
           appended flat_map app replay fold_left ledger] in *.
      rewrite <- app_assoc.
      split; [reflexivity|]. split; [now constructor|].
      split; [now constructor|]. split; assumption.
    + rewrite Ho in *. cbn [state appended flat_map app] in *.
      split; [reflexivity|]. split; [now constructor|].
      split; assumption.
Qed.

(** The last record of a ledger has the replayed balance. *)
Lemma ledger_last (rs : list dict) (r : dict) (b : float) :
  ledger b (rs ++ [r]) ->
  balance_after_of r = Some (VFloat (replay b (rs ++ [r]))).
Proof.
  revert b. induction rs as [|r' rs IH]; intros b; cbn [app ledger].
  - intros (H & _). exact H.
  - intros (_ & H). apply (IH _ H).
Qed.

(** X1: the records of a sequence of calls: after the history found, in the
    order of the calls, each call that returned has left one record, with
    the kind of the call, the amount as given, an [int] or a [float], and
    the clock value read; a call has left nothing only when it raised, on an
    amount that passes the first guard and that [float] cannot convert. *)
Theorem history_records_the_calls (a : Account.t) (c : CreditAccount.t)
    (cs : list call) :
  (exists os,
      Account.get_history (account_run a cs)
      = Account.get_history a ++ appended os
      /\ Forall2 call_trace cs os)
  /\ (exists os,
         CreditAccount.get_history (credit_run c cs)
         = CreditAccount.get_history c ++ appended os
         /\ Forall2 call_trace cs os).
Proof.
  unfold CreditAccount.get_history. rewrite !get_history_stored. split.
  - destruct (account_run_summary cs a) as (os & -> & H & _).
    exists os. split; [reflexivity | exact H].
  - destruct (credit_run_summary cs c) as (os & -> & H & _).
    exists os. split; [reflexivity | exact H].
Qed.

(** X2: the records of a constructed account have the shapes of its class,
    the limit being the one given, converted. *)
Theorem history_record_shapes (h : string) (b0 L : number) (a : Account.t)
    (c : CreditAccount.t) (cs : list call) :
  (Account.__init__ h b0 = Returns a ->
   Forall base_record (Account.get_history (account_run a cs)))
  /\ (CreditAccount.__init__ h b0 L = Returns c ->
      exists l,
        to_float L = Some l
        /\ Forall (credit_record l)
             (CreditAccount.get_history (credit_run c cs))).
Proof.
  unfold CreditAccount.get_history. rewrite !get_history_stored. split.
  - intros Ha. apply account_init_returns in Ha.
    destruct Ha as (x0 & _ & _ & ->).
    destruct (account_run_summary cs (Account.mk h x0 []))
      as (os & -> & _ & H & _). exact H.
  - intros Hc. apply credit_init_returns in Hc.
    destruct Hc as (x0 & l & _ & Hl & _ & _ & _ & ->).
    exists l. split; [exact Hl|].
    destruct (credit_run_summary cs
                (CreditAccount.mk (Account.mk h x0 []) l))
      as (os & -> & _ & H & _). exact H.
Qed.

(** X3: the balance of a constructed account is the one replayed from its
    initial balance, converted, over its history. *)
Theorem balance_replayed_from_history (h : string) (b0 L : number)
    (a : Account.t) (c : CreditAccount.t) (cs : list call) :
  (Account.__init__ h b0 = Returns a ->
   exists x0,
     to_float b0 = Some x0
     /\ replay x0 (Account.get_history (account_run a cs))
        = Account.get_balance (account_run a cs))
  /\ (CreditAccount.__init__ h b0 L = Returns c ->
      exists x0,
        to_float b0 = Some x0
        /\ replay x0 (CreditAccount.get_history (credit_run c cs))
           = CreditAccount.get_balance (credit_run c cs)).
Proof.
  unfold CreditAccount.get_history. rewrite !get_history_stored. split.
  - intros Ha. apply account_init_returns in Ha.
    destruct Ha as (x0 & _ & Hx & ->). exists x0. split; [exact Hx|].
    destruct (account_run_summary cs (Account.mk h x0 []))
      as (os & -> & _). reflexivity.
  - intros Hc. apply credit_init_returns in Hc.
    destruct Hc as (x0 & l & _ & _ & _ & _ & Hx & ->).
    exists x0. split; [exact Hx|].
    destruct (credit_run_summary cs
                (CreditAccount.mk (Account.mk h x0 []) l))
      as (os & -> & _). reflexivity.
Qed.

(** X4: every record of a constructed account has for [balance_after] the
    balance replayed up to it, and the last record has the balance of the
    account. *)
Theorem balance_after_is_running_balance (h : string) (b0 L : number)
    (a : Account.t) (c : CreditAccount.t) (cs : list call) :
  (Account.__init__ h b0 = Returns a ->
   (exists x0,
       to_float b0 = Some x0
       /\ ledger x0 (Account.get_history (account_run a cs)))
   /\ forall rs r,
        Account.get_history (account_run a cs) = rs ++ [r] ->
        balance_after_of r
        = Some (VFloat (Account.get_balance (account_run a cs))))
  /\ (CreditAccount.__init__ h b0 L = Returns c ->
      (exists x0,
          to_float b0 = Some x0
          /\ ledger x0 (CreditAccount.get_history (credit_run c cs)))
      /\ forall rs r,
           CreditAccount.get_history (credit_run c cs) = rs ++ [r] ->
           balance_after_of r
           = Some (VFloat (CreditAccount.get_balance (credit_run c cs)))).
Proof.
  unfold CreditAccount.get_history. rewrite !get_history_stored. split.
  - intros Ha. apply account_init_returns in Ha.
    destruct Ha as (x0 & _ & Hx & ->).
    destruct (account_run_summary cs (Account.mk h x0 []))
      as (os & -> & _ & _ & H).
    cbn [Account._balance Account.operations_history Account.get_balance app]
      in *.
    split; [exists x0; split; [exact Hx | exact H]|]. intros rs' r E.
    rewrite E in *. now apply ledger_last.
  - intros Hc. apply credit_init_returns in Hc.
    destruct Hc as (x0 & l & _ & _ & _ & _ & Hx & ->).
    destruct (credit_run_summary cs
                (CreditAccount.mk (Account.mk h x0 []) l))
      as (os & -> & _ & _ & H).
    unfold CreditAccount.get_balance, CreditAccount._balance,
      CreditAccount.operations_history in *.
    cbn [CreditAccount.account Account._balance Account.operations_history
         app] in *.
    split; [exists x0; split; [exact Hx | exact H]|]. intros rs' r E.
    rewrite E in *. now apply ledger_last.
Qed.

(** X5: no sequence of calls changes the holder or the credit limit. *)
Theorem holder_and_limit_unchanged (a : Account.t) (c : CreditAccount.t)
    (cs : list call) :
  Account.holder (account_run a cs) = Account.holder a
  /\ CreditAccount.holder (credit_run c cs) = CreditAccount.holder c
  /\ CreditAccount._credit_limit (credit_run c cs)
     = CreditAccount._credit_limit c.
Proof.
  destruct (account_run_summary cs a) as (os & -> & _).
  destruct (credit_run_summary cs c) as (os' & -> & _).
  repeat split.
Qed.

(** * Balances *)

(** The balance after a call is a function of the balance before and of
    what the call asks for. *)
Lemma account_call_balance (a a' : Account.t) (k k' : call) :
  Account._balance a = Account._balance a' -> same_request k k' ->
  Account._balance (state (account_call a k))
  = Account._balance (state (account_call a' k')).
Proof.
  destruct a as [h b hist], a' as [h' b' hist']. cbn [Account._balance].
  intros <- (Hkind & Hamount).
  destruct k as [x t|x t], k' as [x' t'|x' t']; try discriminate Hkind;
    cbn [call_amount] in Hamount; subst x'; cbn [account_call];
    unfold_methods; unfold Account._add_operation;
    cbn [Account._balance Account.holder Account.operations_history];
    destruct (le_zero x); try destruct (gt_float x b);
    try destruct (to_float x); reflexivity.
Qed.

Lemma credit_call_balance (c c' : CreditAccount.t) (k k' : call) :
  CreditAccount._balance c = CreditAccount._balance c' ->
  CreditAccount._credit_limit c = CreditAccount._credit_limit c' ->
  same_request k k' ->
  CreditAccount._balance (state (credit_call c k))
  = CreditAccount._balance (state (credit_call c' k'))
  /\ CreditAccount._credit_limit (state (credit_call c k))
     = CreditAccount._credit_limit (state (credit_call c' k')).
Proof.
  destruct c as [[h b hist] L], c' as [[h' b' hist'] L'].
  unfold CreditAccount._balance.
  cbn [CreditAccount.account CreditAccount._credit_limit Account._balance].
  intros <- <- (Hkind & Hamount).
  destruct k as [x t|x t], k' as [x' t'|x' t']; try discriminate Hkind;
    cbn [call_amount] in Hamount; subst x'; cbn [credit_call];
    unfold_methods;
    unfold CreditAccount._add_operation, CreditAccount.set_balance,
      CreditAccount._balance, Account._add_operation;
    cbn [CreditAccount.account CreditAccount._credit_limit Account._balance
         Account.holder Account.operations_history];
    destruct (le_zero x); try (destruct (to_float x) as [y|]);
    try destruct (b - y <? - L)%float; split; reflexivity.
Qed.

(** A call that its first guard stops leaves the balance. *)
Lemma account_call_stopped (a : Account.t) (k : call) :
  passes_guard k = false ->
  Account._balance (state (account_call a k)) = Account._balance a.
Proof.
  unfold passes_guard. intros H. apply negb_false_iff in H.
  destruct k as [x t|x t]; cbn [call_amount account_call] in *;
    unfold_methods; rewrite H; reflexivity.
Qed.

Lemma credit_call_stopped (c : CreditAccount.t) (k : call) :
  passes_guard k = false ->
  CreditAccount._balance (state (credit_call c k)) = CreditAccount._balance c.
Proof.
  unfold passes_guard. intros H. apply negb_false_iff in H.
  destruct k as [x t|x t]; cbn [call_amount credit_call] in *;
    unfold_methods; rewrite H; reflexivity.
Qed.

(** A sequence of calls asks for what it asks for. *)
Lemma same_request_refl (cs : list call) : Forall2 same_request cs cs.
Proof. induction cs; constructor; [split; reflexivity | assumption]. Qed.

(** So is the balance after a sequence of calls. *)
Lemma account_run_balance (cs cs' : list call) (a a' : Account.t) :
  Forall2 same_request cs cs' ->
  Account._balance a = Account._balance a' ->
  Account._balance (account_run a cs) = Account._balance (account_run a' cs').
Proof.
  intros H. revert a a'.
  induction H as [|k k' cs cs' Hk Hcs IH]; intros a a' Hb; [exact Hb|].
  apply IH. now apply account_call_balance.
Qed.

Lemma credit_run_balance (cs cs' : list call) (c c' : CreditAccount.t) :
  Forall2 same_request cs cs' ->
  CreditAccount._balance c = CreditAccount._balance c' ->
  CreditAccount._credit_limit c = CreditAccount._credit_limit c' ->
  CreditAccount._balance (credit_run c cs)
  = CreditAccount._balance (credit_run c' cs').
Proof.
  intros H. revert c c'.
  induction H as [|k k' cs cs' Hk Hcs IH]; intros c c' Hb HL; [exact Hb|].
  destruct (credit_call_balance c c' k k' Hb HL Hk) as (Hb' & HL').
  now apply IH.
Qed.

(** X6: the balance after a sequence of calls depends on the balance before
    (and on the limit) and on the methods called with their amounts: not on
    the holder, on the history found or on the clock. *)
Theorem balance_depends_on_requests (a a' : Account.t)
    (c c' : CreditAccount.t) (cs cs' : list call) :
  Forall2 same_request cs cs' ->
  (Account.balance a = Account.balance a' ->
   Account.balance (account_run a cs) = Account.balance (account_run a' cs'))
  /\ (CreditAccount.balance c = CreditAccount.balance c' ->
      CreditAccount._credit_limit c = CreditAccount._credit_limit c' ->
      CreditAccount.balance (credit_run c cs)
      = CreditAccount.balance (credit_run c' cs')).
Proof.
  intros H. split.
  - now apply account_run_balance.
  - now apply credit_run_balance.
Qed.

(** X7: the calls that the first guard stops can be left out: the balance
    after a sequence of calls is the balance after those with [amount <= 0]
    false. *)
Theorem stopped_calls_do_not_count (a : Account.t) (c : CreditAccount.t)
    (cs : list call) :
  Account.balance (account_run a cs)
  = Account.balance (account_run a (filter passes_guard cs))
  /\ CreditAccount.balance (credit_run c cs)
     = CreditAccount.balance (credit_run c (filter passes_guard cs)).
Proof.
  unfold Account.balance, CreditAccount.balance. revert a c.
  induction cs as [|k cs IH]; intros a c; [split; reflexivity|].
  cbn [filter]. destruct (passes_guard k) eqn:Hk.
  - apply (IH (state (account_call a k)) (state (credit_call c k))).
  - cbn [account_run credit_run fold_left].
    fold (account_run (state (account_call a k)) cs).
    fold (credit_run (state (credit_call c k)) cs).
    destruct (IH (state (account_call a k)) (state (credit_call c k)))
      as (Ha & Hc).
    rewrite Ha, Hc. split.
    + apply account_run_balance; [apply same_request_refl|].
      now apply account_call_stopped.
    + apply credit_run_balance; [apply same_request_refl| |].
      * now apply credit_call_stopped.
      * apply credit_limit_call.
Qed.

(** ** Calls that the first guard stops *)

(** A call with an amount [<= 0] fails on its first guard. *)
Lemma account_call_non_positive (a : Account.t) (k : call) :
  le_zero (call_amount k) = true ->
  failed_call a (account_call a k) "Amount must be positive".
Proof.
  destruct k as [x t|x t]; cbn [call_amount account_call]; intros H.
  - now apply deposit_non_positive.
  - now apply withdraw_non_positive.
Qed.

Lemma credit_call_non_positive (c : CreditAccount.t) (k : call) :
  le_zero (call_amount k) = true ->
  credit_failed_call c (credit_call c k) "Amount must be positive".
Proof.
  destruct k as [x t|x t]; cbn [call_amount credit_call]; intros H.
  - now apply credit_deposit_non_positive.
  - now apply credit_withdraw_non_positive.
Qed.

(** So does each call of a sequence of them. *)
Lemma account_run_non_positive (cs : list call) (a : Account.t) :
  Forall (fun k => le_zero (call_amount k) = true) cs ->
  exists rs,
    account_run a cs
    = Account.mk (Account.holder a) (Account._balance a)
        (Account.operations_history a ++ rs)
    /\ List.length rs = List.length cs
    /\ Forall (stopped_record (Account._balance a)) rs.
Proof.
  intros H. revert a. induction H as [|k cs Hk Hcs IH]; intros a.
  - exists []. rewrite app_nil_r. destruct a. repeat split. constructor.
  - destruct (account_call_non_positive a k Hk) as (r & E & Hf & Hb & Hr).
    cbn [account_run fold_left].
    fold (account_run (state (account_call a k)) cs).
    destruct (IH (state (account_call a k))) as (rs & Hrun & Hlen & Hrs).
    rewrite Hrun. rewrite E in *.
    cbn [state Account.holder Account._balance Account.operations_history]
      in *.
    exists (r :: rs). rewrite <- app_assoc. split; [reflexivity|].
    split; [cbn [List.length]; congruence|].
    constructor; [repeat split; assumption | assumption].
Qed.

Lemma credit_run_non_positive (cs : list call) (c : CreditAccount.t) :
  Forall (fun k => le_zero (call_amount k) = true) cs ->
  exists rs,
    credit_run c cs
    = CreditAccount.mk
        (Account.mk (CreditAccount.holder c) (CreditAccount._balance c)
           (CreditAccount.operations_history c ++ rs))
        (CreditAccount._credit_limit c)
    /\ List.length rs = List.length cs
    /\ Forall (stopped_record (CreditAccount._balance c)) rs.
Proof.
  intros H. revert c. induction H as [|k cs Hk Hcs IH]; intros c.
  - exists []. rewrite app_nil_r. destruct c as [[h b hist] L].
    repeat split. constructor.
  - destruct (credit_call_non_positive c k Hk) as (r & E & Hf & Hb & Hr).
    cbn [credit_run fold_left].
    fold (credit_run (state (credit_call c k)) cs).
    destruct (IH (state (credit_call c k))) as (rs & Hrun & Hlen & Hrs).
    rewrite Hrun. rewrite E in *.
    unfold CreditAccount.holder, CreditAccount._balance,
      CreditAccount.operations_history in *.
    cbn [state CreditAccount.account CreditAccount._credit_limit
         Account.holder Account._balance Account.operations_history] in *.
    exists (r :: rs). rewrite <- app_assoc.
    split; [reflexivity|]. split; [cbn [List.length]; congruence|].
    constructor; [repeat split; assumption | assumption].
Qed.

(** X8: a sequence of calls with amounts [<= 0] leaves the holder, the balance
    and the limit, and appends one record per call: a [fail] record with the
    reason "Amount must be positive" and the balance as [balance_after]. *)
Theorem non_positive_calls_fail (a : Account.t) (c : CreditAccount.t)
    (cs : list call) :
  Forall (fun k => le_zero (call_amount k) = true) cs ->
  (exists rs,
      account_run a cs
      = Account.mk (Account.holder a) (Account.balance a)
          (Account.operations_history a ++ rs)
      /\ List.length rs = List.length cs
      /\ Forall (stopped_record (Account.balance a)) rs)
  /\ (exists rs,
         credit_run c cs
         = CreditAccount.mk
             (Account.mk (CreditAccount.holder c) (CreditAccount.balance c)
                (CreditAccount.operations_history c ++ rs))
             (CreditAccount._credit_limit c)
         /\ List.length rs = List.length cs
         /\ Forall (stopped_record (CreditAccount.balance c)) rs).
Proof.
  unfold Account.balance, CreditAccount.balance.
  intros H. split.
  - now apply account_run_non_positive.
  - now apply credit_run_non_positive.
Qed.

Lemma history_record_shapes_witness :
  Forall base_record
    (Account.get_history
       (account_run (Account.mk "Ann" 10 [])
          [Deposit (PyInt 5) 1%Z; Withdraw (PyFloat 70) 2%Z]))
  /\ exists l,
       to_float (PyInt 50) = Some l
       /\ Forall (credit_record l)
            (CreditAccount.get_history
               (credit_run (CreditAccount.mk (Account.mk "Bob" 10 []) 50)
                  [Deposit (PyInt 5) 1%Z; Withdraw (PyFloat 70) 2%Z])).
Proof.
  destruct (history_record_shapes "Ann" (PyInt 10) (PyInt 50)
              (Account.mk "Ann" 10 [])
              (CreditAccount.mk (Account.mk "Ann" 10 []) 50)
              [Deposit (PyInt 5) 1%Z; Withdraw (PyFloat 70) 2%Z])
    as (Ha & _).
  destruct (history_record_shapes "Bob" (PyInt 10) (PyInt 50)
              (Account.mk "Bob" 10 [])
              (CreditAccount.mk (Account.mk "Bob" 10 []) 50)
              [Deposit (PyInt 5) 1%Z; Withdraw (PyFloat 70) 2%Z])
    as (_ & Hc).
  split; [apply Ha; reflexivity | apply Hc; reflexivity].
Defined.

Lemma balance_replayed_from_history_witness :
  (exists x0,
      to_float (PyInt 10) = Some x0
      /\ replay x0
           (Account.get_history
              (account_run (Account.mk "Ann" 10 [])
                 [Deposit (PyInt 5) 1%Z; Withdraw (PyFloat 70) 2%Z]))
         = Account.get_balance
             (account_run (Account.mk "Ann" 10 [])
                [Deposit (PyInt 5) 1%Z; Withdraw (PyFloat 70) 2%Z]))
  /\ exists x0,
       to_float (PyFloat 10) = Some x0
       /\ replay x0
            (CreditAccount.get_history
               (credit_run (CreditAccount.mk (Account.mk "Bob" 10 []) 50)
                  [Deposit (PyInt 5) 1%Z; Withdraw (PyFloat 70) 2%Z]))
          = CreditAccount.get_balance
              (credit_run (CreditAccount.mk (Account.mk "Bob" 10 []) 50)
                 [Deposit (PyInt 5) 1%Z; Withdraw (PyFloat 70) 2%Z]).
Proof.
  destruct (balance_replayed_from_history "Ann" (PyInt 10) (PyInt 50)
              (Account.mk "Ann" 10 [])
              (CreditAccount.mk (Account.mk "Ann" 10 []) 50)
              [Deposit (PyInt 5) 1%Z; Withdraw (PyFloat 70) 2%Z])
    as (Ha & _).
  destruct (balance_replayed_from_history "Bob" (PyFloat 10) (PyInt 50)
              (Account.mk "Bob" 10 [])
              (CreditAccount.mk (Account.mk "Bob" 10 []) 50)
              [Deposit (PyInt 5) 1%Z; Withdraw (PyFloat 70) 2%Z])
    as (_ & Hc).
  split; [apply Ha; reflexivity | apply Hc; reflexivity].
Defined.

Lemma balance_after_is_running_balance_witness :
  (exists x0,
      to_float (PyInt 10) = Some x0
      /\ ledger x0
           (Account.get_history
              (account_run (Account.mk "Ann" 10 [])
                 [Deposit (PyInt 5) 1%Z; Withdraw (PyFloat 70) 2%Z])))
  /\ exists x0,
       to_float (PyInt 10) = Some x0
       /\ ledger x0
            (CreditAccount.get_history
               (credit_run (CreditAccount.mk (Account.mk "Bob" 10 []) 50)
                  [Deposit (PyInt 5) 1%Z; Withdraw (PyFloat 70) 2%Z])).
Proof.
  destruct (balance_after_is_running_balance "Ann" (PyInt 10) (PyInt 50)
              (Account.mk "Ann" 10 [])
              (CreditAccount.mk (Account.mk "Ann" 10 []) 50)
              [Deposit (PyInt 5) 1%Z; Withdraw (PyFloat 70) 2%Z])
    as (Ha & _).
  destruct (balance_after_is_running_balance "Bob" (PyInt 10) (PyInt 50)
              (Account.mk "Bob" 10 [])
              (CreditAccount.mk (Account.mk "Bob" 10 []) 50)
              [Deposit (PyInt 5) 1%Z; Withdraw (PyFloat 70) 2%Z])
    as (_ & Hc).
  split; [apply Ha; reflexivity | apply Hc; reflexivity].
Defined.

Lemma balance_depends_on_requests_witness :
  Account.balance
    (account_run (Account.mk "Ann" 10 [])
       [Deposit (PyInt 5) 1%Z; Withdraw (PyFloat 70) 2%Z])
  = Account.balance
      (account_run (Account.mk "Bob" 10 [[("type", VStr "deposit")]]%string)
         [Deposit (PyInt 5) 8%Z; Withdraw (PyFloat 70) 9%Z])
  /\ CreditAccount.balance
       (credit_run (CreditAccount.mk (Account.mk "Ann" 10 []) 50)
          [Deposit (PyInt 5) 1%Z; Withdraw (PyFloat 70) 2%Z])
     = CreditAccount.balance
         (credit_run
            (CreditAccount.mk
               (Account.mk "Bob" 10 [[("type", VStr "deposit")]]%string) 50)
            [Deposit (PyInt 5) 8%Z; Withdraw (PyFloat 70) 9%Z]).
Proof.
  destruct (balance_depends_on_requests (Account.mk "Ann" 10 [])
              (Account.mk "Bob" 10 [[("type", VStr "deposit")]]%string)
              (CreditAccount.mk (Account.mk "Ann" 10 []) 50)
              (CreditAccount.mk
                 (Account.mk "Bob" 10 [[("type", VStr "deposit")]]%string) 50)
              [Deposit (PyInt 5) 1%Z; Withdraw (PyFloat 70) 2%Z]
              [Deposit (PyInt 5) 8%Z; Withdraw (PyFloat 70) 9%Z])
    as (Ha & Hc).
  - repeat constructor.
  - split; [apply Ha; reflexivity | apply Hc; reflexivity].
Defined.

Lemma non_positive_calls_fail_witness :
  exists rs,
    account_run (Account.mk "Ann" 10 [])
      [Deposit (PyInt 0) 1%Z; Withdraw (PyFloat (-5)) 2%Z]
    = Account.mk "Ann" 10 rs
    /\ List.length rs = 2%nat
    /\ Forall (stopped_record 10) rs.
Proof.
  destruct (non_positive_calls_fail (Account.mk "Ann" 10 [])
              (CreditAccount.mk (Account.mk "Ann" 10 []) 50)
              [Deposit (PyInt 0) 1%Z; Withdraw (PyFloat (-5)) 2%Z])
    as ((rs & E & Hlen & Hrs) & _).
  - repeat constructor.
  - exists rs. split; [exact E|]. split; [exact Hlen | exact Hrs].
Defined.

(** * Constructors *)

(** The limit, not negative, has an opposite that is not positive. *)
Lemma opp_limit_not_positive (l : float) :
  (l <? 0)%float = false -> (0 <? - l)%float = false.
Proof.
  rewrite !ltb_spec, opp_spec. change (Prim2SF 0) with (S754_zero false).
  destruct (Prim2SF l) as [s|s| |s m e]; try reflexivity;
    destruct s; try reflexivity; discriminate.
Qed.

(** X9: [CreditAccount.__init__] returns exactly when the limit is not
    negative, [float] converts it, and [Account.__init__] returns: its own
    check of the balance against the limit rejects nothing that the
    inherited check accepts.  The limit stored is the converted one: an
    [int] is rounded to the nearest [float]. *)
Theorem credit_init_accepts (h : string) (b L : number)
    (c : CreditAccount.t) :
  CreditAccount.__init__ h b L = Returns c
  <-> lt_zero L = false
      /\ exists l a,
           to_float L = Some l
           /\ Account.__init__ h b = Returns a
           /\ c = CreditAccount.mk a l.
Proof.
  unfold CreditAccount.__init__. split.
  - destruct (lt_zero L); [discriminate|].
    destruct (to_float L) as [l|]; [|discriminate].
    destruct (lt_float b (- l)); [discriminate|].
    destruct (Account.__init__ h b) as [a|e]; [|discriminate].
    intros [= <-]. split; [reflexivity|]. exists l, a. repeat split.
  - intros (HL & l & a & Hl & Ha & ->). rewrite HL, Hl, Ha.
    destruct (account_init_returns h b a Ha) as (x0 & Hb & _).
    rewrite (lt_float_not_negative b (- l) Hb); [reflexivity|].
    apply opp_limit_not_positive.
    exact (to_float_not_negative L l HL Hl).
Qed.

(** * [_add_operation] *)

(** After [d[k'] = v], the key [k'] has the value [v] and any other key
    the value it had. *)
Lemma dict_get_set (k k' : string) (v : value) (d : dict) :
  dict_get k (dict_set k' v d)
  = if String.eqb k' k then Some v else dict_get k d.
Proof.
  induction d as [|[k0 v0] d IH]; cbn [dict_set dict_get].
  - destruct (String.eqb k' k); reflexivity.
  - destruct (String.eqb k0 k') eqn:E0; cbn [dict_get].
    + apply String.eqb_eq in E0. subst k0.
      destruct (String.eqb k' k); reflexivity.
    + rewrite IH. destruct (String.eqb k0 k) eqn:E1; [|reflexivity].
      apply String.eqb_eq in E1. subst k0. now rewrite String.eqb_sym, E0.
Qed.

(** After [d.update(extra)], a key of [extra] has the value of its last
    entry there, any other key the value it had in [d]. *)
Lemma dict_get_update (k : string) (extra d : dict) :
  dict_get k (dict_update d extra)
  = match dict_get k (rev extra) with
    | Some v => Some v
    | None => dict_get k d
    end.
Proof.
  unfold dict_update. revert d.
  induction extra as [|[k' v'] extra IH] using rev_ind; intros d.
  - reflexivity.
  - rewrite fold_left_app, rev_app_distr. cbn [fold_left rev app fst snd dict_get].
    rewrite dict_get_set. destruct (String.eqb k' k); [reflexivity|]. apply IH.
Qed.

(** X10: [_add_operation] keeps the holder and the balance and appends one
    record; a key of [extra] is read there with its value in [extra] (the last
    one given), whatever the five fields, and any other key with its value
    among the five fields.  [None] and an empty [extra] bring nothing. *)
Theorem add_operation_lookup (self : Account.t) (op_type : string)
    (amount : number) (status : string) (balance_after : float)
    (extra : option dict) (now : datetime) :
  exists r,
    Account._add_operation self op_type amount status balance_after extra now
    = Account.mk (Account.holder self) (Account.balance self)
        (Account.operations_history self ++ [r])
    /\ forall k,
         dict_get k r
         = match dict_get k (rev (extra_entries extra)) with
           | Some v => Some v
           | None =>
               dict_get k (base_fields op_type amount status balance_after now)
           end.
Proof.
  unfold Account._add_operation, Account.balance. eexists.
  split; [reflexivity|]. intros k.
  destruct extra as [[|kv e]|]; try reflexivity.
  cbn [extra_entries]. apply dict_get_update.
Qed.

(** * A balance that is not a number *)

(** Sums and differences of [nan] are [nan]; comparisons with it are
    false. *)
Lemma add_nan (x y : float) : is_nan x = true -> is_nan (x + y) = true.
Proof.
  rewrite !is_nan_true_spec, add_spec. intros ->. reflexivity.
Qed.

Lemma sub_nan (x y : float) : is_nan x = true -> is_nan (x - y) = true.
Proof.
  rewrite !is_nan_true_spec, sub_spec. intros ->. reflexivity.
Qed.

Lemma ltb_nan_l (x y : float) : is_nan x = true -> (x <? y)%float = false.
Proof.
  rewrite is_nan_true_spec, ltb_spec. intros ->. reflexivity.
Qed.

(** No number is above [nan]. *)
Lemma gt_float_nan (n : number) (b : float) :
  is_nan b = true -> gt_float n b = false.
Proof.
  intros Hnan. destruct n as [z|x]; cbn [gt_float].
  - unfold compare_int_float. apply is_nan_true_spec in Hnan.
    now rewrite Hnan.
  - unfold gtb. now apply ltb_nan_l.
Qed.

(** A call on a balance that is [nan]: the balance stays [nan], and the
    call is recorded as a success as soon as it passes the first guard,
    unless it raises. *)
Lemma account_call_nan (a : Account.t) (k : call) :
  is_nan (Account._balance a) = true ->
  exists o,
    nan_trace k o
    /\ match o with
       | Some r =>
           exists b,
             account_call a k
             = Done (Account.mk (Account.holder a) b
                       (Account.operations_history a ++ [r]))
             /\ is_nan b = true
       | None => account_call a k = Raised a overflow
       end.
Proof.
  intros Hnan. destruct (account_call_summary a k) as (o & Hk & Ho).
  exists o. destruct o as [r|]; [|split; [split|]; try assumption;
                                    intros r' Hr'; discriminate Hr'].
  destruct Ho as (Hcall & _ & _).
  assert (Hstep := account_balance_step a k). rewrite Hcall in Hstep.
  cbn [state Account._balance] in Hstep.
  split.
  - split; [exact Hk|]. intros r' [= <-] Hg. revert Hcall.
    unfold passes_guard in Hg. apply negb_true_iff in Hg.
    destruct a as [h b hist], k as [x t|x t];
      cbn [account_call call_amount Account._balance] in *;
      unfold_methods;
      cbn [Account._balance Account.holder Account.operations_history];
      rewrite Hg, ?(gt_float_nan x b Hnan);
      destruct (to_float x); try discriminate;
      unfold Account._add_operation;
      cbn [Account._balance Account.holder Account.operations_history];
      intros Hcall;
      assert (Hr := f_equal (fun s => Account.operations_history (state s))
                      Hcall);
      cbn [state Account.operations_history] in Hr;
      apply app_inj_tail in Hr; destruct Hr as (_ & <-); reflexivity.
  - eexists. split; [exact Hcall|].
    destruct Hstep as [->|(x & _ & _ & [(_ & ->)|(_ & _ & ->)])];
      [exact Hnan | now apply add_nan | now apply sub_nan].
Qed.

Lemma credit_call_nan (c : CreditAccount.t) (k : call) :
  is_nan (CreditAccount._balance c) = true ->
  exists o,
    nan_trace k o
    /\ match o with
       | Some r =>
           exists b,
             credit_call c k
             = Done (CreditAccount.mk
                       (Account.mk (CreditAccount.holder c) b
                          (CreditAccount.operations_history c ++ [r]))
                       (CreditAccount._credit_limit c))
             /\ is_nan b = true
       | None => credit_call c k = Raised c overflow
       end.
Proof.
  intros Hnan. destruct (credit_call_summary c k) as (o & Hk & Ho).
  exists o. destruct o as [r|]; [|split; [split|]; try assumption;
                                    intros r' Hr'; discriminate Hr'].
  destruct Ho as (Hcall & _ & _).
  destruct (credit_balance_step c k) as (_ & Hstep). rewrite Hcall in Hstep.
  unfold CreditAccount._balance in Hstep, Hnan.
  cbn [state CreditAccount.account Account._balance] in Hstep.
  split.
  - split; [exact Hk|]. intros r' [= <-] Hg. revert Hcall.
    unfold passes_guard in Hg. apply negb_true_iff in Hg.
    destruct c as [[h b hist] L], k as [x t|x t];
      cbn [credit_call call_amount CreditAccount.account Account._balance]
        in *;
      unfold_methods; unfold CreditAccount._balance;
      cbn [CreditAccount.account CreditAccount._credit_limit
           Account._balance];
      rewrite Hg; destruct (to_float x) as [y|]; try discriminate;
      rewrite ?(ltb_nan_l (b - y) (- L) (sub_nan b y Hnan));
      unfold CreditAccount._add_operation, CreditAccount.set_balance,
        CreditAccount.holder, CreditAccount.operations_history,
        Account._add_operation;
      cbn [CreditAccount.account CreditAccount._credit_limit
           Account._balance Account.holder Account.operations_history];
      intros Hcall;
      assert (Hr := f_equal
                      (fun s => CreditAccount.operations_history (state s))
                      Hcall);
      unfold CreditAccount.operations_history in Hr;
      cbn [state CreditAccount.account Account.operations_history] in Hr;
      apply app_inj_tail in Hr; destruct Hr as (_ & <-); reflexivity.
  - eexists. split; [exact Hcall|]. unfold CreditAccount._balance.
    destruct Hstep as [->|(x & _ & _ & [(_ & ->)|(_ & _ & ->)])];
      [exact Hnan | now apply add_nan | now apply sub_nan].
Qed.

(** X11: once the balance is [nan] it stays [nan], whatever is called, and no
    call that passes the first guard fails any more: every withdrawal of an
    amount not [<= 0] is recorded as a success, unless it raises
    OverflowError on an [int] that [float] cannot convert, which leaves no
    record. *)
Theorem nan_balance_is_absorbing (a : Account.t) (c : CreditAccount.t)
    (cs : list call) :
  is_nan (Account.balance a) = true ->
  is_nan (CreditAccount.balance c) = true ->
  (is_nan (Account.balance (account_run a cs)) = true
   /\ exists os,
        Account.get_history (account_run a cs)
        = Account.get_history a ++ appended os
        /\ Forall2 nan_trace cs os)
  /\ (is_nan (CreditAccount.balance (credit_run c cs)) = true
      /\ exists os,
           CreditAccount.get_history (credit_run c cs)
           = CreditAccount.get_history c ++ appended os
           /\ Forall2 nan_trace cs os).
Proof.
  unfold CreditAccount.get_history. rewrite !get_history_stored.
  unfold Account.balance, CreditAccount.balance. intros Ha Hc. split.
  - clear c Hc. revert a Ha. induction cs as [|k cs IH]; intros a Ha.
    + split; [exact Ha|]. exists []. cbn [appended flat_map].
      rewrite app_nil_r. split; constructor.
    + destruct (account_call_nan a k Ha) as (o & Hk & Ho).
      cbn [account_run fold_left].
      fold (account_run (state (account_call a k)) cs).
      destruct o as [r|].
      * destruct Ho as (b & E & Hb).
        destruct (IH (state (account_call a k))) as (Hn & os & Hh & Hos).
        { rewrite E. exact Hb. }
        split; [exact Hn|]. exists (Some r :: os). rewrite Hh, E.
        cbn [state Account.operations_history appended flat_map app].
        rewrite <- app_assoc. split; [reflexivity|]. now constructor.
      * destruct (IH (state (account_call a k))) as (Hn & os & Hh & Hos).
        { rewrite Ho. exact Ha. }
        split; [exact Hn|]. exists (None :: os). rewrite Hh, Ho.
        cbn [state appended flat_map app].
        split; [reflexivity|]. now constructor.
  - clear a Ha. revert c Hc. induction cs as [|k cs IH]; intros c Hc.
    + split; [exact Hc|]. exists []. cbn [appended flat_map].
      rewrite app_nil_r. split; constructor.
    + destruct (credit_call_nan c k Hc) as (o & Hk & Ho).
      cbn [credit_run fold_left].
      fold (credit_run (state (credit_call c k)) cs).
      destruct o as [r|].
      * destruct Ho as (b & E & Hb).
        destruct (IH (state (credit_call c k))) as (Hn & os & Hh & Hos).
        { rewrite E. exact Hb. }
        split; [exact Hn|]. exists (Some r :: os). rewrite Hh, E.
        unfold CreditAccount.operations_history.
        cbn [state CreditAccount.account Account.operations_history
             appended flat_map app].
        rewrite <- app_assoc. split; [reflexivity|]. now constructor.
      * destruct (IH (state (credit_call c k))) as (Hn & os & Hh & Hos).
        { rewrite Ho. exact Hc. }
        split; [exact Hn|]. exists (None :: os). rewrite Hh, Ho.
        cbn [state appended flat_map app].
        split; [reflexivity|]. now constructor.
Qed.

Lemma nan_balance_is_absorbing_witness :
  is_nan (Account.balance
            (account_run (Account.mk "Ann" nan [])
               [Deposit (PyInt 5) 1%Z; Withdraw (PyInt (10 ^ 400)) 2%Z;
                Withdraw (PyFloat 7) 3%Z])) = true
  /\ is_nan (CreditAccount.balance
               (credit_run (CreditAccount.mk (Account.mk "Bob" nan []) 10)
                  [Deposit (PyInt 5) 1%Z; Withdraw (PyInt (10 ^ 400)) 2%Z;
                   Withdraw (PyFloat 7) 3%Z])) = true.
Proof.
  destruct (nan_balance_is_absorbing (Account.mk "Ann" nan [])
              (CreditAccount.mk (Account.mk "Bob" nan []) 10)
              [Deposit (PyInt 5) 1%Z; Withdraw (PyInt (10 ^ 400)) 2%Z;
               Withdraw (PyFloat 7) 3%Z])
    as ((Ha & _) & (Hc & _)); [reflexivity | reflexivity |].
  split; [exact Ha | exact Hc].
Defined.

Lemma credit_init_accepts_witness :
  CreditAccount.__init__ "Bob" (PyInt 30) (PyInt (2 ^ 54 - 1))
  = Returns (CreditAccount.mk (Account.mk "Bob" 30 []) 0x1p+54)
  /\ lt_zero (PyInt (2 ^ 54 - 1)) = false.
Proof.
  destruct (credit_init_accepts "Bob" (PyInt 30) (PyInt (2 ^ 54 - 1))
              (CreditAccount.mk (Account.mk "Bob" 30 []) 0x1p+54))
    as (Hto & Hfrom).
  split.
  - apply Hfrom. split; [reflexivity|].
    exists 0x1p+54%float, (Account.mk "Bob" 30 []). repeat split.
  - apply Hto. reflexivity.
Defined.

(** * The deposit of a credit account and the inherited one *)

(** X12: [CreditAccount.deposit] does to the inherited attributes what
    [Account.deposit] does, for every amount and every balance.  When the
    amount is [<= 0] or [float] converts it, both return: the same holder,
    the same new balance, and a record with the same five fields and the
    same reason; only the two credit keys are added.  Otherwise both raise
    OverflowError and leave the account as it was. *)
Theorem credit_deposit_extends_base (c : CreditAccount.t) (amount : number)
    (now : datetime) :
  (le_zero amount = true \/ to_float amount <> None ->
   exists b r r',
     Account.deposit (CreditAccount.account c) amount now
     = Done (Account.mk (CreditAccount.holder c) b
               (CreditAccount.operations_history c ++ [r]))
     /\ CreditAccount.deposit c amount now
        = Done (CreditAccount.mk
                  (Account.mk (CreditAccount.holder c) b
                     (CreditAccount.operations_history c ++ [r']))
                  (CreditAccount._credit_limit c))
     /\ same_base_fields r r'
     /\ reason_of r = reason_of r'
     /\ (is_success r' ->
         dict_keys r'
         = dict_keys r ++ ["used_credit"; "available_credit_after"]%string))
  /\ (le_zero amount = false -> to_float amount = None ->
      Account.deposit (CreditAccount.account c) amount now
      = Raised (CreditAccount.account c) overflow
      /\ CreditAccount.deposit c amount now = Raised c overflow).
Proof.
  destruct c as [[h b hist] L]. unfold_methods.
  unfold CreditAccount._add_operation, CreditAccount.set_balance,
    CreditAccount.get_available_credit, CreditAccount._balance,
    CreditAccount.holder, CreditAccount.operations_history,
    Account._add_operation.
  cbn [CreditAccount.account CreditAccount._credit_limit Account._balance
       Account.holder Account.operations_history].
  destruct (le_zero amount), (to_float amount) as [y|]; split;
    try (intros H1 H2; discriminate);
    try (intros _ _; split; reflexivity);
    try (intros [H|H]; [discriminate H | now elim H]);
    intros _; do 3 eexists;
    (split; [reflexivity|]); (split; [reflexivity|]);
    repeat split; intros Hs; discriminate Hs.
Qed.

Lemma credit_deposit_extends_base_witness :
  (exists b r r',
      Account.deposit (Account.mk "Bob" 10 []) (PyInt 5) 1%Z
      = Done (Account.mk "Bob" b [r])
      /\ CreditAccount.deposit (CreditAccount.mk (Account.mk "Bob" 10 []) 50)
           (PyInt 5) 1%Z
         = Done (CreditAccount.mk (Account.mk "Bob" b [r']) 50)
      /\ same_base_fields r r')
  /\ CreditAccount.deposit (CreditAccount.mk (Account.mk "Bob" 10 []) 50)
       (PyInt (10 ^ 400)) 1%Z
     = Raised (CreditAccount.mk (Account.mk "Bob" 10 []) 50) overflow.
Proof.
  destruct (credit_deposit_extends_base
              (CreditAccount.mk (Account.mk "Bob" 10 []) 50) (PyInt 5) 1%Z)
    as (Hdone & _).
  destruct (credit_deposit_extends_base
              (CreditAccount.mk (Account.mk "Bob" 10 []) 50)
              (PyInt (10 ^ 400)) 1%Z)
    as (_ & Hraise).
  split.
  - destruct Hdone as (b & r & r' & Ha & Hc & Hsame & _);
      [right; discriminate|].
    exists b, r, r'. split; [exact Ha|]. split; [exact Hc | exact Hsame].
  - apply Hraise; reflexivity.
Defined.

(** * Copies of the records *)

(** The addresses that are read hold a dict each. *)
Lemma read_all_valid (m : heap) (ps : list address) (rs : list dict) :
  read_all m ps = Some rs ->
  List.length rs = List.length ps
  /\ Forall (fun p => (p < List.length m)%nat) ps.
Proof.
  revert rs. induction ps as [|p ps IH]; intros rs; cbn [read_all].
  - intros [= <-]. split; [reflexivity | constructor].
  - destruct (read m p) as [d|] eqn:Hp; [|discriminate].
    destruct (read_all m ps) as [ds|]; [|discriminate]. intros [= <-].
    destruct (IH ds eq_refl) as (Hl & Hv). split.
    + cbn [List.length]. now rewrite Hl.
    + constructor; [|exact Hv]. apply nth_error_Some. unfold read in Hp.
      now rewrite Hp.
Qed.

(** Reading depends on the dicts at the addresses read only. *)
Lemma read_all_ext (m m' : heap) (ps : list address) :
  Forall (fun p => read m' p = read m p) ps ->
  read_all m' ps = read_all m ps.
Proof.
  induction 1 as [|p ps Hp _ IH]; cbn [read_all]; [reflexivity|].
  now rewrite Hp, IH.
Qed.

(** Allocation leaves the dicts that were there. *)
Lemma read_all_app (m e : heap) (ps : list address) (rs : list dict) :
  read_all m ps = Some rs -> read_all (m ++ e) ps = Some rs.
Proof.
  intros H. rewrite <- H. apply read_all_ext.
  destruct (read_all_valid m ps rs H) as (_ & Hv).
  eapply Forall_impl; [|exact Hv]. cbn beta. intros p Hp.
  unfold read. now apply nth_error_app1.
Qed.

(** The dicts appended to a heap are read at the addresses that follow it. *)
Lemma read_all_seq (rs : list dict) (m : heap) :
  read_all (m ++ rs) (seq (List.length m) (List.length rs)) = Some rs.
Proof.
  revert m. induction rs as [|r rs IH]; intros m; [reflexivity|].
  cbn [List.length seq read_all]. unfold read at 1.
  rewrite nth_error_app2, Nat.sub_diag by lia. cbn [nth_error].
  specialize (IH (m ++ [r])). rewrite <- app_assoc, length_app in IH.
  cbn [List.length app] in IH. rewrite Nat.add_1_r in IH. now rewrite IH.
Qed.

(** The comprehension appends one copy per record, in order. *)
Lemma copy_records_spec (ps : list address) (m : heap) (rs : list dict) :
  read_all m ps = Some rs ->
  AccountObject.copy_records m ps
  = Some (m ++ rs, seq (List.length m) (List.length ps)).
Proof.
  revert m rs. induction ps as [|p ps IH]; intros m rs;
    cbn [read_all AccountObject.copy_records].
  - intros [= <-]. now rewrite app_nil_r.
  - unfold dict_copy. destruct (read m p) as [d|]; [|discriminate].
    destruct (read_all m ps) as [ds|] eqn:Hds; [|discriminate].
    intros [= <-].
    rewrite (IH (m ++ [d]) ds (read_all_app m [d] ps ds Hds)).
    rewrite <- app_assoc, length_app. cbn [List.length app seq].
    now rewrite Nat.add_1_r.
Qed.

(** X13: [get_history] returns new dict objects, as many as there are records,
    which hold the records of the account in order; they are not the stored
    ones, so that nothing done to them changes the account. *)
Theorem get_history_returns_copies (m : heap) (self : AccountObject.t)
    (a : Account.t) :
  AccountObject.contents m self = Some a ->
  exists m' qs,
    AccountObject.get_history m self = Some (m', qs)
    /\ read_all m' qs = Some (Account.get_history a)
    /\ NoDup qs
    /\ Forall (fun q => ~ In q (AccountObject.operations_history self)) qs
    /\ AccountObject.contents m' self = Some a
    /\ forall m'',
         (forall p, ~ In p qs -> read m'' p = read m' p) ->
         AccountObject.contents m'' self = Some a.
Proof.
  unfold AccountObject.contents, AccountObject.get_history.
  destruct self as [h b ps].
  cbn [AccountObject.operations_history AccountObject.holder
       AccountObject._balance].
  destruct (read_all m ps) as [rs|] eqn:Hrs; [|discriminate].
  intros [= <-]. rewrite get_history_stored.
  cbn [Account.operations_history].
  destruct (read_all_valid m ps rs Hrs) as (Hlen & Hvalid).
  assert (Hfresh : forall p, In p ps ->
                   ~ In p (seq (List.length m) (List.length ps))).
  { intros p Hp Hq. apply in_seq in Hq.
    rewrite Forall_forall in Hvalid. specialize (Hvalid p Hp). lia. }
  exists (m ++ rs), (seq (List.length m) (List.length ps)).
  split; [now apply copy_records_spec|].
  split; [rewrite <- Hlen; apply read_all_seq|].
  split; [apply seq_NoDup|].
  split; [apply Forall_forall; intros q Hq Hp; now apply (Hfresh q)|].
  split; [now rewrite (read_all_app m rs ps rs Hrs)|].
  intros m'' Hsame.
  assert (E : read_all m'' ps = read_all (m ++ rs) ps).
  { apply read_all_ext, Forall_forall. intros p Hp.
    apply Hsame. now apply Hfresh. }
  now rewrite E, (read_all_app m rs ps rs Hrs).
Qed.

Lemma get_history_returns_copies_witness :
  AccountObject.contents
    [[("type", VStr "deposit")]; [("type", VStr "withdraw")]]%string
    (AccountObject.mk "Ann" 1 [1; 0]%nat)
  = Some (Account.mk "Ann" 1
            [[("type", VStr "withdraw")]; [("type", VStr "deposit")]]%string)
  /\ exists m' qs,
       AccountObject.get_history
         [[("type", VStr "deposit")]; [("type", VStr "withdraw")]]%string
         (AccountObject.mk "Ann" 1 [1; 0]%nat)
       = Some (m', qs)
       /\ NoDup qs.
Proof.
  split; [reflexivity|].
  destruct (get_history_returns_copies
              [[("type", VStr "deposit")]; [("type", VStr "withdraw")]]%string
              (AccountObject.mk "Ann" 1 [1; 0]%nat)
              (Account.mk "Ann" 1
                 [[("type", VStr "withdraw")];
                  [("type", VStr "deposit")]]%string))
    as (m' & qs & H & _ & Hnd & _); [reflexivity|].
  exists m', qs. split; [exact H | exact Hnd].
Defined.
(** * [sum_distance] *)

(** The loop adds the numbers of the range to the total it starts from. *)
Lemma fold_left_add (l : list Z) (a : Z) :
  fold_left (fun total num => total + num)%Z l a
  = (a + fold_right Z.add 0 l)%Z.
Proof.
  revert a. induction l as [|x l IH]; intros a; simpl.
  - lia.
  - rewrite IH. lia.
Qed.

(** The sum of a list does not depend on the order. *)
Lemma sum_permutation (l l' : list Z) :
  Permutation l l' -> fold_right Z.add 0%Z l = fold_right Z.add 0%Z l'.
Proof.
  induction 1; simpl; lia.
Qed.

(** [range(start, stop)] holds the integers from [start] up to [stop - 1]. *)
Lemma in_range (start stop z : Z) :
  In z (range start stop) <-> (start <= z < stop)%Z.
Proof.
  unfold range. rewrite in_map_iff. split.
  - intros (i & <- & Hi). apply in_seq in Hi. lia.
  - intros Hz. exists (Z.to_nat (z - start)). split; [lia|].
    apply in_seq. lia.
Qed.

(** It holds each of them once. *)
Lemma NoDup_range (start stop : Z) : NoDup (range start stop).
Proof.
  unfold range. apply Finite.Injective_map_NoDup.
  - intros i j Hij. lia.
  - apply seq_NoDup.
Qed.

(** Twice the sum of [n] consecutive integers from [start]. *)
Lemma sum_range_twice (start : Z) (n : nat) :
  (2 * fold_right Z.add 0
         (map (fun i => start + Z.of_nat i) (seq 0 n))
   = Z.of_nat n * (2 * start + Z.of_nat n - 1))%Z.
Proof.
  induction n as [|n IH].
  - reflexivity.
  - rewrite seq_S, map_app, fold_right_app. cbn [map fold_right Nat.add].
    assert (Hshift : forall (l : list Z) (x : Z),
               fold_right Z.add x l = (x + fold_right Z.add 0 l)%Z).
    { induction l as [|y l IHl]; intros x; simpl; [lia|].
      rewrite IHl. lia. }
    rewrite Hshift, Nat2Z.inj_succ. cbn [Nat.add fold_right]. nia.
Qed.

(** [sum_distance] sums the range from the smaller bound to the larger. *)
Lemma sum_distance_ordered (frm to : Z) :
  sum_distance frm to
  = fold_right Z.add 0%Z (range (Z.min frm to) (Z.max frm to + 1)).
Proof.
  unfold sum_distance.
  destruct (Z.gtb_spec frm to) as [H|H]; rewrite fold_left_add.
  - rewrite Z.min_r, Z.max_l by lia. lia.
  - rewrite Z.min_l, Z.max_r by lia. lia.
Qed.

(** C8: [sum_distance frm to] is the sum of the integers between the two
    bounds, both included, whichever is the larger: the sum of any list that
    holds each integer from the smaller to the larger bound exactly once.
    Swapping the arguments changes nothing, twice the sum is
    [(frm + to) * (|to - frm| + 1)], and [sum_distance(5, 5) = 5],
    [sum_distance(3, 1) = 6], [sum_distance(10, 1) = 55]. *)
Theorem C8_sum_distance (frm to : Z) :
  (forall l : list Z,
      NoDup l ->
      (forall z, In z l <-> (Z.min frm to <= z <= Z.max frm to)%Z) ->
      sum_distance frm to = fold_right Z.add 0%Z l)
  /\ sum_distance frm to = sum_distance to frm
  /\ (2 * sum_distance frm to = (frm + to) * (Z.abs (to - frm) + 1))%Z
  /\ sum_distance 5 5 = 5%Z
  /\ sum_distance 3 1 = 6%Z
  /\ sum_distance 10 1 = 55%Z.
Proof.
  split; [|split; [|split]].
  - intros l Hnd Hin. rewrite sum_distance_ordered.
    apply sum_permutation, NoDup_Permutation;
      [apply NoDup_range | exact Hnd |].
    intros z. rewrite in_range, Hin. lia.
  - rewrite !sum_distance_ordered. now rewrite Z.min_comm, Z.max_comm.
  - rewrite sum_distance_ordered. unfold range.
    rewrite sum_range_twice, Z2Nat.id by lia.
    destruct (Z.le_ge_cases frm to);
      [ rewrite Z.min_l, Z.max_r, Z.abs_eq by lia
      | rewrite Z.min_r, Z.max_l, Z.abs_neq by lia ]; ring.
  - repeat split; reflexivity.
Qed.

(** C8 at the bounds 3 and 1 and the list [2; 3; 1]. *)
Lemma C8_sum_distance_witness :
  sum_distance 3 1 = fold_right Z.add 0%Z [2; 3; 1]%Z.
Proof.
  destruct (C8_sum_distance 3 1) as (Hsum & _). apply Hsum.
  - repeat constructor; simpl; lia.
  - intros z. simpl. lia.
Defined.

(** * More on [sum_distance] *)

(** Twice the sum, in closed form. *)
Lemma sum_distance_twice (frm to : Z) :
  (2 * sum_distance frm to = (frm + to) * (Z.abs (to - frm) + 1))%Z.
Proof.
  rewrite sum_distance_ordered. unfold range.
  rewrite sum_range_twice, Z2Nat.id by lia.
  destruct (Z.le_ge_cases frm to);
    [ rewrite Z.min_l, Z.max_r, Z.abs_eq by lia
    | rewrite Z.min_r, Z.max_l, Z.abs_neq by lia ]; ring.
Qed.

(** X14: the sum over an interval is the sum over its two parts, cut after any
    [mid] that leaves the second part not empty. *)
Theorem sum_distance_split (frm mid to : Z) :
  (frm <= mid)%Z -> (mid < to)%Z ->
  sum_distance frm to
  = (sum_distance frm mid + sum_distance (mid + 1) to)%Z.
Proof.
  intros H1 H2.
  assert (Ha := sum_distance_twice frm to).
  assert (Hb := sum_distance_twice frm mid).
  assert (Hc := sum_distance_twice (mid + 1) to).
  rewrite Z.abs_eq in Ha, Hb, Hc by lia. nia.
Qed.

Lemma sum_distance_split_witness :
  sum_distance 1 10 = (sum_distance 1 4 + sum_distance 5 10)%Z.
Proof. apply (sum_distance_split 1 4 10); lia. Defined.

(** X15: the loop never runs over an empty range: with the bounds one apart in
    the wrong order, the swap makes them the two numbers summed. *)
Theorem sum_distance_never_empty (frm to : Z) :
  range (Z.min frm to) (Z.max frm to + 1) <> []
  /\ sum_distance (to + 1) to = (2 * to + 1)%Z.
Proof.
  split.
  - intros E. assert (H : In (Z.min frm to)
                            (range (Z.min frm to) (Z.max frm to + 1))).
    { apply in_range. lia. }
    rewrite E in H. exact H.
  - assert (H := sum_distance_twice (to + 1) to).
    rewrite Z.abs_neq in H by lia. lia.
Qed.

(** X16: opposite bounds give the opposite sum, and moving both bounds by [k]
    adds [k] once per number summed. *)
Theorem sum_distance_symmetries (frm to k : Z) :
  sum_distance (- frm) (- to) = (- sum_distance frm to)%Z
  /\ sum_distance (frm + k) (to + k)
     = (sum_distance frm to + k * (Z.abs (to - frm) + 1))%Z.
Proof.
  assert (Ha := sum_distance_twice frm to).
  assert (Hb := sum_distance_twice (- frm) (- to)).
  assert (Hc := sum_distance_twice (frm + k) (to + k)).
  replace (- to - - frm)%Z with (- (to - frm))%Z in Hb by ring.
  rewrite Z.abs_opp in Hb.
  replace (to + k - (frm + k))%Z with (to - frm)%Z in Hc by ring.
  split; nia.
Qed.

(** * [trim_and_repeat] *)

(** [s * n] is [s] concatenated [n] times. *)
Lemma repeat_string_concat (s : string) (n : nat) :
  repeat_string s n = fold_right String.append EmptyString (repeat s n).
Proof. induction n as [|n IH]; simpl; [|rewrite IH]; reflexivity. Qed.

(** The empty string repeated is empty. *)
Lemma repeat_string_empty (n : nat) : repeat_string EmptyString n = EmptyString.
Proof. induction n as [|n IH]; simpl; [|rewrite IH]; reflexivity. Qed.

(** Dropping at least the length leaves nothing. *)
Lemma drop_all (n : nat) (s : string) :
  (String.length s <= n)%nat -> drop n s = EmptyString.
Proof.
  revert s. induction n as [|n IH]; intros [|c s] H; simpl in *;
    try reflexivity; try lia.
  apply IH. lia.
Qed.

(** [drop n s] is [s] without its first [n] characters. *)
Lemma drop_split (n : nat) (s : string) :
  (n <= String.length s)%nat ->
  exists prefix, s = (prefix ++ drop n s)%string /\ String.length prefix = n.
Proof.
  revert s. induction n as [|n IH]; intros s H.
  - exists EmptyString. split; reflexivity.
  - destruct s as [|c s]; simpl in H; [lia|].
    destruct (IH s) as (p & Hs & Hp); [lia|].
    exists (String c p). simpl. split; [now rewrite <- Hs | now rewrite Hp].
Qed.


(** Appending the empty string changes nothing. *)
Lemma append_nil_r (s : string) : (s ++ "")%string = s.
Proof. induction s as [|c s IH]; simpl; [|rewrite IH]; reflexivity. Qed.

(** What [str * int] returns, whenever it returns: that many copies. *)
Lemma str_mul_returns (memory : N) (s t : string) (n : Z) :
  str_mul memory s n = Returns t -> t = repeat_string s (Z.to_nat n).
Proof.
  unfold str_mul.
  destruct ((n <? - PY_SSIZE_T_MAX - 1) || (PY_SSIZE_T_MAX <? n))%Z;
    [discriminate|].
  destruct (Z.ltb_spec n 1) as [H1|H1].
  { intros [= <-]. replace (Z.to_nat n) with 0%nat by lia. reflexivity. }
  destruct (Z.eqb_spec n 1) as [->|Hn].
  { intros [= <-]. change (Z.to_nat 1) with 1%nat. cbn [repeat_string].
    now rewrite append_nil_r. }
  destruct (PY_SSIZE_T_MAX / n <? Z.of_nat (String.length s))%Z;
    [discriminate|].
  destruct (Z.of_N memory <? Z.of_nat (String.length s) * n)%Z;
    [discriminate|].
  now intros [= <-].
Qed.

(** The test of the length of the result, without the division. *)
Lemma repeated_length_fits (len n : Z) :
  (1 <= n)%Z ->
  (PY_SSIZE_T_MAX / n <? len)%Z = false <-> (len * n <= PY_SSIZE_T_MAX)%Z.
Proof.
  intros Hn. rewrite Z.ltb_ge. split; intros H.
  - apply Z.le_trans with (PY_SSIZE_T_MAX / n * n)%Z.
    + apply Z.mul_le_mono_nonneg_r; lia.
    + rewrite Z.mul_comm. apply Z.mul_div_le. lia.
  - apply Z.div_le_lower_bound; lia.
Qed.

(** A length that fits a [Py_ssize_t] and that the allocator grants. *)
Lemma granted_le (memory : N) (len : Z) :
  (len <= Z.min PY_SSIZE_T_MAX (Z.of_N memory))%Z
  <-> (len <= PY_SSIZE_T_MAX /\ len <= Z.of_N memory)%Z.
Proof. lia. Qed.

(** When [str * int] returns: the count fits a [Py_ssize_t] and, when it is
    above 1, the length of the result does too and is granted. *)
Lemma str_mul_ok (memory : N) (s : string) (n : Z) :
  (- PY_SSIZE_T_MAX - 1 <= n <= PY_SSIZE_T_MAX)%Z ->
  (n <= 1
   \/ Z.of_nat (String.length s) * n
      <= Z.min PY_SSIZE_T_MAX (Z.of_N memory))%Z ->
  str_mul memory s n = Returns (repeat_string s (Z.to_nat n)).
Proof.
  intros Hn Hlen. unfold str_mul.
  destruct (Z.ltb_spec n (- PY_SSIZE_T_MAX - 1)); [lia|].
  destruct (Z.ltb_spec PY_SSIZE_T_MAX n); [lia|]. cbn [orb].
  destruct (Z.ltb_spec n 1) as [H1|H1].
  { replace (Z.to_nat n) with 0%nat by lia. reflexivity. }
  destruct (Z.eqb_spec n 1) as [->|Hne].
  { change (Z.to_nat 1) with 1%nat. cbn [repeat_string].
    now rewrite append_nil_r. }
  destruct Hlen as [Hlen|Hlen]; [lia|].
  apply granted_le in Hlen. destruct Hlen as (Hfit & Hmem).
  apply (repeated_length_fits _ n) in Hfit; [|lia]. rewrite Hfit.
  destruct (Z.ltb_spec (Z.of_N memory) (Z.of_nat (String.length s) * n));
    [lia | reflexivity].
Qed.

(** When it raises: on a count that does not fit, on a result too long, or
    on a result that the allocator does not grant. *)
Lemma str_mul_count_overflows (memory : N) (s : string) (n : Z) :
  (PY_SSIZE_T_MAX < n)%Z ->
  str_mul memory s n
  = Raises (OverflowError "cannot fit 'int' into an index-sized integer").
Proof.
  intros Hn. unfold str_mul.
  destruct (Z.ltb_spec PY_SSIZE_T_MAX n); [|lia].
  now rewrite orb_true_r.
Qed.

Lemma str_mul_length_overflows (memory : N) (s : string) (n : Z) :
  (1 < n <= PY_SSIZE_T_MAX)%Z ->
  (PY_SSIZE_T_MAX < Z.of_nat (String.length s) * n)%Z ->
  str_mul memory s n = Raises (OverflowError "repeated string is too long").
Proof.
  intros Hn Hlen. unfold str_mul.
  destruct (Z.ltb_spec n (- PY_SSIZE_T_MAX - 1));
    [unfold PY_SSIZE_T_MAX in *; lia|].
  destruct (Z.ltb_spec PY_SSIZE_T_MAX n); [lia|]. cbn [orb].
  destruct (Z.ltb_spec n 1); [lia|].
  destruct (Z.eqb_spec n 1); [lia|].
  destruct (PY_SSIZE_T_MAX / n <? Z.of_nat (String.length s))%Z eqn:E;
    [reflexivity|].
  apply repeated_length_fits in E; lia.
Qed.

Lemma str_mul_not_granted (memory : N) (s : string) (n : Z) :
  (1 < n <= PY_SSIZE_T_MAX)%Z ->
  (Z.of_nat (String.length s) * n <= PY_SSIZE_T_MAX)%Z ->
  (Z.of_N memory < Z.of_nat (String.length s) * n)%Z ->
  str_mul memory s n = Raises MemoryError.
Proof.
  intros Hn Hfit Hmem. unfold str_mul.
  destruct (Z.ltb_spec n (- PY_SSIZE_T_MAX - 1));
    [unfold PY_SSIZE_T_MAX in *; lia|].
  destruct (Z.ltb_spec PY_SSIZE_T_MAX n); [lia|]. cbn [orb].
  destruct (Z.ltb_spec n 1); [lia|].
  destruct (Z.eqb_spec n 1); [lia|].
  apply (repeated_length_fits _ n) in Hfit; [|lia]. rewrite Hfit.
  destruct (Z.ltb_spec (Z.of_N memory) (Z.of_nat (String.length s) * n));
    [reflexivity | lia].
Qed.

(** Concatenation of strings: lengths and associativity. *)
Lemma append_length (s1 s2 : string) :
  String.length (s1 ++ s2) = (String.length s1 + String.length s2)%nat.
Proof. induction s1 as [|c s1 IH]; simpl; [|rewrite IH]; reflexivity. Qed.

Lemma append_assoc (s1 s2 s3 : string) :
  ((s1 ++ s2) ++ s3)%string = (s1 ++ (s2 ++ s3))%string.
Proof. induction s1 as [|c s1 IH]; simpl; [|rewrite IH]; reflexivity. Qed.

(** What [drop] leaves, and two of them in a row. *)
Lemma drop_length (n : nat) (s : string) :
  String.length (drop n s) = (String.length s - n)%nat.
Proof.
  revert s. induction n as [|n IH]; intros [|c s]; simpl; try reflexivity.
  apply IH.
Qed.

Lemma drop_drop (n m : nat) (s : string) :
  drop m (drop n s) = drop (n + m) s.
Proof.
  revert s. induction n as [|n IH]; intros s; [reflexivity|].
  destruct s as [|c s]; simpl; [|apply IH]. destruct m; reflexivity.
Qed.

(** Repetition: lengths, sums and products of counts. *)
Lemma repeat_string_length (s : string) (n : nat) :
  String.length (repeat_string s n) = (n * String.length s)%nat.
Proof.
  induction n as [|n IH]; simpl; [reflexivity|].
  now rewrite append_length, IH.
Qed.

Lemma repeat_string_add (s : string) (n m : nat) :
  repeat_string s (n + m)
  = (repeat_string s n ++ repeat_string s m)%string.
Proof.
  induction n as [|n IH]; simpl; [reflexivity|].
  now rewrite IH, append_assoc.
Qed.

Lemma repeat_string_mul (s : string) (n m : nat) :
  repeat_string (repeat_string s n) m = repeat_string s (n * m).
Proof.
  induction m as [|m IH]; simpl.
  - now rewrite Nat.mul_0_r.
  - rewrite IH, <- repeat_string_add. f_equal. lia.
Qed.

(** The slice from an offset that is not negative. *)
Lemma slice_from_drop (s : string) (start : Z) :
  (0 <= start)%Z -> slice_from s start = drop (Z.to_nat start) s.
Proof.
  intros H. unfold slice_from.
  destruct (Z.ltb_spec start 0); [lia | reflexivity].
Qed.

(** [trim_and_repeat] is [str * int] on what [drop] leaves, the offset
    clamped at 0, when the repetitions are positive. *)
Lemma trim_and_repeat_positive (memory : N) (s : string)
    (offset repetitions : Z) :
  (0 < repetitions)%Z ->
  trim_and_repeat memory s offset repetitions
  = str_mul memory (drop (Z.to_nat offset) s) repetitions.
Proof.
  intros Hr. unfold trim_and_repeat.
  destruct (Z.leb_spec repetitions 0); [lia|].
  destruct (Z.ltb_spec offset 0) as [Ho|Ho].
  - rewrite slice_from_drop by lia.
    replace (Z.to_nat offset) with 0%nat by lia. reflexivity.
  - now rewrite slice_from_drop by lia.
Qed.

(** What [trim_and_repeat] returns, whenever it returns, with the two
    clamps written as [Z.to_nat]. *)
Lemma trim_and_repeat_returns (memory : N) (s t : string)
    (offset repetitions : Z) :
  trim_and_repeat memory s offset repetitions = Returns t ->
  t = repeat_string (drop (Z.to_nat offset) s) (Z.to_nat repetitions).
Proof.
  destruct (Z.leb_spec repetitions 0) as [Hr|Hr].
  - unfold trim_and_repeat. destruct (Z.leb_spec repetitions 0); [|lia].
    intros [= <-]. replace (Z.to_nat repetitions) with 0%nat by lia.
    reflexivity.
  - rewrite trim_and_repeat_positive by exact Hr. apply str_mul_returns.
Qed.

(** The length of what is left of [s] after the offset. *)
Lemma drop_length_Z (s : string) (offset : Z) :
  Z.of_nat (String.length (drop (Z.to_nat offset) s))
  = Z.max 0 (Z.of_nat (String.length s) - Z.max 0 offset).
Proof. rewrite drop_length. lia. Qed.

(** When [trim_and_repeat] returns: the repetitions fit a [Py_ssize_t] and,
    when they are above 1, the length of the result does too and is
    granted. *)
Lemma trim_and_repeat_ok (memory : N) (s : string) (offset repetitions : Z) :
  (repetitions <= PY_SSIZE_T_MAX)%Z ->
  (repetitions <= 1
   \/ Z.max 0 (Z.of_nat (String.length s) - Z.max 0 offset) * repetitions
      <= Z.min PY_SSIZE_T_MAX (Z.of_N memory))%Z ->
  trim_and_repeat memory s offset repetitions
  = Returns (repeat_string (drop (Z.to_nat offset) s)
               (Z.to_nat repetitions)).
Proof.
  intros Hr Hlen. destruct (Z.leb_spec repetitions 0) as [H0|H0].
  - unfold trim_and_repeat. destruct (Z.leb_spec repetitions 0); [|lia].
    replace (Z.to_nat repetitions) with 0%nat by lia. reflexivity.
  - rewrite trim_and_repeat_positive by exact H0. apply str_mul_ok.
    + unfold PY_SSIZE_T_MAX in *. lia.
    + now rewrite drop_length_Z.
Qed.

(** C9: [trim_and_repeat] returns the empty string when
    [repetitions <= 0]; a negative offset is treated as 0; when the
    repetitions fit a [Py_ssize_t], an offset at or beyond the length of
    [s] gives the empty string, and otherwise the result, when its length
    fits too and the allocator grants it, is the suffix of [s] after its
    first [offset] characters, concatenated [repetitions] times.
    Repetitions that do not fit raise OverflowError whatever the offset, a
    result too long raises OverflowError, and one that is not granted
    MemoryError.  [trim_and_repeat("hello", 2, 3) = "llollollo"], given the
    memory for nine characters, and [trim_and_repeat("hi", -5, 0) = ""]. *)
Theorem C9_trim_and_repeat (memory : N) (s : string)
    (offset repetitions : Z) :
  ((repetitions <= 0)%Z ->
   trim_and_repeat memory s offset repetitions = Returns EmptyString)
  /\ ((offset < 0)%Z ->
      trim_and_repeat memory s offset repetitions
      = trim_and_repeat memory s 0 repetitions)
  /\ ((Z.of_nat (String.length s) <= offset)%Z ->
      (repetitions <= PY_SSIZE_T_MAX)%Z ->
      trim_and_repeat memory s offset repetitions = Returns EmptyString)
  /\ ((0 < repetitions <= PY_SSIZE_T_MAX)%Z ->
      (0 <= offset <= Z.of_nat (String.length s))%Z ->
      (repetitions = 1
       \/ (Z.of_nat (String.length s) - offset) * repetitions
          <= Z.min PY_SSIZE_T_MAX (Z.of_N memory))%Z ->
      exists prefix suffix,
        s = (prefix ++ suffix)%string
        /\ Z.of_nat (String.length prefix) = offset
        /\ trim_and_repeat memory s offset repetitions
           = Returns (fold_right String.append EmptyString
                        (repeat suffix (Z.to_nat repetitions))))
  /\ ((PY_SSIZE_T_MAX < repetitions)%Z ->
      trim_and_repeat memory s offset repetitions
      = Raises
          (OverflowError "cannot fit 'int' into an index-sized integer"))
  /\ ((1 < repetitions <= PY_SSIZE_T_MAX)%Z ->
      (PY_SSIZE_T_MAX
       < Z.max 0 (Z.of_nat (String.length s) - Z.max 0 offset)
         * repetitions)%Z ->
      trim_and_repeat memory s offset repetitions
      = Raises (OverflowError "repeated string is too long"))
  /\ ((1 < repetitions <= PY_SSIZE_T_MAX)%Z ->
      (Z.max 0 (Z.of_nat (String.length s) - Z.max 0 offset) * repetitions
       <= PY_SSIZE_T_MAX)%Z ->
      (Z.of_N memory
       < Z.max 0 (Z.of_nat (String.length s) - Z.max 0 offset)
         * repetitions)%Z ->
      trim_and_repeat memory s offset repetitions = Raises MemoryError)
  /\ ((9 <= memory)%N ->
      trim_and_repeat memory "hello" 2 3 = Returns "llollollo"%string)
  /\ trim_and_repeat memory "hi" (-5) 0 = Returns EmptyString.
Proof.
  split; [|split; [|split; [|split; [|split; [|split; [|split; [|split]]]]]]].
  - intros Hr. unfold trim_and_repeat.
    destruct (Z.leb_spec repetitions 0); [reflexivity | lia].
  - intros Ho. unfold trim_and_repeat.
    destruct (Z.ltb_spec offset 0); [reflexivity | lia].
  - intros Ho Hr. rewrite trim_and_repeat_ok; [|exact Hr|].
    + rewrite drop_all by lia. now rewrite repeat_string_empty.
    + right. rewrite Z.max_l by lia. unfold PY_SSIZE_T_MAX. lia.
  - intros Hr Ho Hlen. rewrite trim_and_repeat_ok; [|lia|].
    2:{ destruct Hlen as [->|Hlen]; [left; lia | right].
        now rewrite (Z.max_r 0 offset), Z.max_r by lia. }
    destruct (drop_split (Z.to_nat offset) s) as (p & Hs & Hp); [lia|].
    exists p, (drop (Z.to_nat offset) s).
    split; [exact Hs|]. split; [lia|]. now rewrite repeat_string_concat.
  - intros Hr. rewrite trim_and_repeat_positive
      by (unfold PY_SSIZE_T_MAX in Hr; lia).
    now apply str_mul_count_overflows.
  - intros Hr Hlen. rewrite trim_and_repeat_positive by lia.
    apply str_mul_length_overflows; [exact Hr|]. now rewrite drop_length_Z.
  - intros Hr Hfit Hmem. rewrite trim_and_repeat_positive by lia.
    apply str_mul_not_granted; [exact Hr | |]; now rewrite drop_length_Z.
  - intros Hmem. rewrite trim_and_repeat_ok.
    + reflexivity.
    + unfold PY_SSIZE_T_MAX. lia.
    + right. unfold PY_SSIZE_T_MAX. simpl. lia.
  - reflexivity.
Qed.

(** C9, as the claim has it, fails: [trim_and_repeat("hello", 7, 2 ** 63)]
    has its offset beyond the length of the string and raises
    OverflowError, where the claim has the empty string; so does
    [trim_and_repeat("hello", 2, 2 ** 63)], where the claim has the suffix
    repeated.  The memory, here for [2 ^ 64] characters, has no part in
    it. *)
Lemma C9_repetitions_overflow :
  (Z.of_nat (String.length "hello") <= 7)%Z
  /\ trim_and_repeat (2 ^ 64) "hello" 7 (2 ^ 63)
     = Raises (OverflowError "cannot fit 'int' into an index-sized integer")
  /\ trim_and_repeat (2 ^ 64) "hello" 7 (2 ^ 63) <> Returns EmptyString
  /\ trim_and_repeat (2 ^ 64) "hello" 2 (2 ^ 63)
     = Raises (OverflowError "cannot fit 'int' into an index-sized integer").
Proof.
  split; [simpl; lia|]. split; [reflexivity|].
  split; [discriminate | reflexivity].
Qed.

(** C9 at the string ["hello"], with the memory for a thousand
    characters. *)
Lemma C9_trim_and_repeat_witness :
  trim_and_repeat 1000 "hello" 2 0 = Returns EmptyString
  /\ trim_and_repeat 1000 "hello" (-1) 2 = trim_and_repeat 1000 "hello" 0 2
  /\ trim_and_repeat 1000 "hello" 7 2 = Returns EmptyString
  /\ (exists prefix suffix,
         "hello"%string = (prefix ++ suffix)%string
         /\ Z.of_nat (String.length prefix) = 2%Z
         /\ trim_and_repeat 1000 "hello" 2 3
            = Returns (fold_right String.append EmptyString
                         (repeat suffix 3)))
  /\ trim_and_repeat 1000 "hello" 2 (2 ^ 63)
     = Raises (OverflowError "cannot fit 'int' into an index-sized integer")
  /\ trim_and_repeat 1000 "hello" 2 (2 ^ 62)
     = Raises (OverflowError "repeated string is too long")
  /\ trim_and_repeat 1000 "hello" 4 (2 ^ 62) = Raises MemoryError
  /\ trim_and_repeat 1000 "hello" 2 3 = Returns "llollollo"%string.
Proof.
  destruct (C9_trim_and_repeat 1000 "hello" 2 0) as (Hrep & _).
  destruct (C9_trim_and_repeat 1000 "hello" (-1) 2) as (_ & Hneg & _).
  destruct (C9_trim_and_repeat 1000 "hello" 7 2) as (_ & _ & Hbeyond & _).
  destruct (C9_trim_and_repeat 1000 "hello" 2 3)
    as (_ & _ & _ & Hsuffix & _ & _ & _ & Hhello & _).
  destruct (C9_trim_and_repeat 1000 "hello" 2 (2 ^ 63))
    as (_ & _ & _ & _ & Hcount & _).
  destruct (C9_trim_and_repeat 1000 "hello" 2 (2 ^ 62))
    as (_ & _ & _ & _ & _ & Hlong & _).
  destruct (C9_trim_and_repeat 1000 "hello" 4 (2 ^ 62))
    as (_ & _ & _ & _ & _ & _ & Hmemory & _).
  split; [apply Hrep; lia|].
  split; [apply Hneg; lia|].
  split; [apply Hbeyond; [simpl; lia | unfold PY_SSIZE_T_MAX; lia]|].
  split; [apply Hsuffix; [unfold PY_SSIZE_T_MAX; lia | simpl; lia
                         | right; unfold PY_SSIZE_T_MAX; simpl; lia]|].
  split; [apply Hcount; unfold PY_SSIZE_T_MAX; lia|].
  split; [apply Hlong; unfold PY_SSIZE_T_MAX; simpl; lia|].
  split; [apply Hmemory; unfold PY_SSIZE_T_MAX; simpl; lia|].
  apply Hhello. lia.
Defined.

(** * More on [trim_and_repeat] *)

(** X17: the length of the result, whenever there is one: what is left of
    [s] after the offset, times the repetitions, both clamped at 0.  There
    is one when the repetitions fit a [Py_ssize_t] and, when they are above
    1, that length does too and is granted; repetitions that do not fit
    make the call raise OverflowError. *)
Theorem trim_and_repeat_length (memory : N) (s : string)
    (offset repetitions : Z) :
  (forall t,
      trim_and_repeat memory s offset repetitions = Returns t ->
      Z.of_nat (String.length t)
      = (Z.max 0 (Z.of_nat (String.length s) - Z.max 0 offset)
         * Z.max 0 repetitions)%Z)
  /\ ((repetitions <= PY_SSIZE_T_MAX)%Z ->
      (repetitions <= 1
       \/ Z.max 0 (Z.of_nat (String.length s) - Z.max 0 offset)
          * repetitions
          <= Z.min PY_SSIZE_T_MAX (Z.of_N memory))%Z ->
      exists t, trim_and_repeat memory s offset repetitions = Returns t)
  /\ ((PY_SSIZE_T_MAX < repetitions)%Z ->
      exists msg,
        trim_and_repeat memory s offset repetitions
        = Raises (OverflowError msg)).
Proof.
  split; [|split].
  - intros t Ht. apply trim_and_repeat_returns in Ht. subst t.
    rewrite repeat_string_length, drop_length. nia.
  - intros Hr Hlen. eexists. now apply trim_and_repeat_ok.
  - intros Hr. eexists.
    rewrite trim_and_repeat_positive by (unfold PY_SSIZE_T_MAX in Hr; lia).
    now apply str_mul_count_overflows.
Qed.

Lemma trim_and_repeat_length_witness :
  (exists t, trim_and_repeat 1000 "hello" 2 3 = Returns t)
  /\ exists msg,
       trim_and_repeat 1000 "hello" 7 (2 ^ 63) = Raises (OverflowError msg).
Proof.
  destruct (trim_and_repeat_length 1000 "hello" 2 3) as (_ & Hret & _).
  destruct (trim_and_repeat_length 1000 "hello" 7 (2 ^ 63))
    as (_ & _ & Hraise).
  split.
  - apply Hret; [unfold PY_SSIZE_T_MAX; lia|].
    right. unfold PY_SSIZE_T_MAX. simpl. lia.
  - apply Hraise. unfold PY_SSIZE_T_MAX. lia.
Defined.

(** X18: with the default arguments the string comes back as it is, and
    trimming what was trimmed trims by the sum of the two offsets, each
    clamped at 0: the same string is returned, or the same exception
    raised. *)
Theorem trim_and_repeat_offsets (memory : N) (s : string)
    (offset1 offset2 repetitions : Z) :
  trim_and_repeat memory s 0 1 = Returns s
  /\ exists t,
       trim_and_repeat memory s offset1 1 = Returns t
       /\ trim_and_repeat memory t offset2 repetitions
          = trim_and_repeat memory s (Z.max 0 offset1 + Z.max 0 offset2)
              repetitions.
Proof.
  assert (H1 : forall o,
             trim_and_repeat memory s o 1
             = Returns (drop (Z.to_nat o) s)).
  { intros o. rewrite trim_and_repeat_ok;
      [|unfold PY_SSIZE_T_MAX; lia | left; lia].
    change (Z.to_nat 1) with 1%nat. cbn [repeat_string].
    now rewrite append_nil_r. }
  split; [apply (H1 0%Z)|].
  exists (drop (Z.to_nat offset1) s). split; [apply H1|].
  destruct (Z.leb_spec repetitions 0) as [Hr|Hr].
  - unfold trim_and_repeat. destruct (Z.leb_spec repetitions 0); [|lia].
    reflexivity.
  - rewrite !trim_and_repeat_positive by exact Hr. rewrite drop_drop.
    do 2 f_equal. lia.
Qed.

(** What a repetition that returns tells of the length of its result. *)
Lemma str_mul_granted (memory : N) (s t : string) (n : Z) :
  (0 < n)%Z -> str_mul memory s n = Returns t ->
  n = 1%Z
  \/ (Z.of_nat (String.length s) * n
      <= Z.min PY_SSIZE_T_MAX (Z.of_N memory))%Z.
Proof.
  intros Hn. unfold str_mul.
  destruct ((n <? - PY_SSIZE_T_MAX - 1) || (PY_SSIZE_T_MAX <? n))%Z;
    [discriminate|].
  destruct (Z.ltb_spec n 1); [lia|].
  destruct (Z.eqb_spec n 1); [now left|].
  destruct (PY_SSIZE_T_MAX / n <? Z.of_nat (String.length s))%Z eqn:E;
    [discriminate|].
  destruct (Z.ltb_spec (Z.of_N memory) (Z.of_nat (String.length s) * n));
    [discriminate|].
  intros _. right. apply repeated_length_fits in E; lia.
Qed.

(** X19: repeating what was repeated multiplies the repetitions, when one of
    the two counts at least is not negative and their product fits a
    [Py_ssize_t]: what the two calls return in a row, the one call
    returns. *)
Theorem trim_and_repeat_repetitions (memory : N) (s t r : string)
    (offset n m : Z) :
  (0 <= n \/ 0 <= m)%Z -> (n * m <= PY_SSIZE_T_MAX)%Z ->
  trim_and_repeat memory s offset n = Returns t ->
  trim_and_repeat memory t 0 m = Returns r ->
  trim_and_repeat memory s offset (n * m) = Returns r.
Proof.
  intros Hsign Hfit Ht Hr.
  assert (Et := trim_and_repeat_returns _ _ _ _ _ Ht).
  assert (Er := trim_and_repeat_returns _ _ _ _ _ Hr).
  change (Z.to_nat 0) with 0%nat in Er. cbn [drop] in Er.
  rewrite Et, repeat_string_mul in Er.
  replace (Z.to_nat n * Z.to_nat m)%nat with (Z.to_nat (n * m)) in Er
    by (destruct (Z.le_gt_cases 0 n), (Z.le_gt_cases 0 m); nia).
  subst r. apply trim_and_repeat_ok; [exact Hfit|].
  destruct (Z.le_gt_cases (n * m) 1) as [H1|H1]; [now left | right].
  assert (Hn : (0 < n)%Z).
  { destruct Hsign as [H|H]; [destruct (Z.eq_dec n 0) as [->|]; lia|].
    destruct (Z.le_gt_cases n 0); [nia | assumption]. }
  assert (Hm : (0 < m)%Z) by nia.
  rewrite trim_and_repeat_positive in Ht, Hr by assumption.
  change (Z.to_nat 0) with 0%nat in Hr. cbn [drop] in Hr.
  rewrite <- drop_length_Z.
  set (u := drop (Z.to_nat offset) s) in *.
  assert (Hlt := str_mul_granted _ _ _ _ Hn Ht).
  assert (Hlr := str_mul_granted _ _ _ _ Hm Hr).
  assert (Hlen : Z.of_nat (String.length t)
                 = (Z.of_nat (String.length u) * n)%Z).
  { rewrite Et, repeat_string_length. lia. }
  rewrite Hlen in Hlr.
  destruct Hlr as [->|Hlr].
  - rewrite Z.mul_1_r in *. destruct Hlt as [->|Hlt]; [lia | exact Hlt].
  - rewrite Z.mul_assoc. exact Hlr.
Qed.

Lemma trim_and_repeat_repetitions_witness :
  trim_and_repeat 1000 "hello" 3 (2 * 3) = Returns "lolololololo"%string.
Proof.
  apply (trim_and_repeat_repetitions 1000 "hello" "lolo" "lolololololo"
           3 2 3);
    [lia | unfold PY_SSIZE_T_MAX; lia | reflexivity | reflexivity].
Defined.
